(** * pr-rnnoise: the RNNoise audio worklet processor

    A shallow embedding of [public/rnnoise/rnnoise-worklet-processor.js]
    (class [RnnoiseWorkletProcessor]) and the properties of its buffering,
    gating and lifecycle logic.

    Modelling conventions
    - A JS number / a [Float32Array] element is a [float]: a rational with
      exact arithmetic, or one of the three non-finite values.  Rounding to
      binary32/binary64, overflow to infinity and the sign of zero are not
      modelled.
    - A [Float32Array] is a [list float]; [slice], [subarray], [set] and
      [fill] are written with [take], [drop], [++] and [replicate].
    - [this] is a record [Processor] passed explicitly; the WebAssembly
      instance is a second piece of state [Wasm] holding the engine's own
      (abstract) state and the log of the foreign calls made so far.
    - A JS computation that may throw or loop forever returns an [outcome]. *)

From Stdlib Require Import ZArith QArith Qcanon Lia.
From stdpp Require Import base numbers list option.

Local Open Scope Z_scope.
Local Open Scope nat_scope.

(** ** Numbers *)

Inductive float : Type :=
  | Fin (q : Qc)
  | PInf
  | NInf
  | NaN.

Global Instance float_eq_dec : EqDecision float.
Proof. solve_decision. Defined.

Definition Qc_of_nat (n : nat) : Qc := Qc_of_Z (Z.of_nat n).

Definition fzero : float := Fin 0%Qc.
Definition fone : float := Fin 1%Qc.
Definition fminus_one : float := Fin (- 1)%Qc.
Definition float_of_nat (n : nat) : float := Fin (Qc_of_nat n).

(** The constant 32768 of [processFrame]. *)
Definition c32768 : float := Fin (Qc_of_Z 32768).

(** JS [isFinite]. *)
Definition isFinite (x : float) : bool :=
  match x with Fin _ => true | _ => false end.

(** JS [x + y]. *)
Definition fadd (x y : float) : float :=
  match x, y with
  | NaN, _ | _, NaN => NaN
  | Fin a, Fin b => Fin (a + b)%Qc
  | PInf, NInf | NInf, PInf => NaN
  | PInf, _ | _, PInf => PInf
  | NInf, _ | _, NInf => NInf
  end.

(** Sign of a rational: [Gt] positive, [Eq] zero, [Lt] negative. *)
Definition Qc_sign (q : Qc) : comparison := (q ?= 0)%Qc.

(** JS [x * y]. *)
Definition fmul (x y : float) : float :=
  match x, y with
  | NaN, _ | _, NaN => NaN
  | Fin a, Fin b => Fin (a * b)%Qc
  | Fin a, PInf | PInf, Fin a =>
      match Qc_sign a with Gt => PInf | Eq => NaN | Lt => NInf end
  | Fin a, NInf | NInf, Fin a =>
      match Qc_sign a with Gt => NInf | Eq => NaN | Lt => PInf end
  | PInf, PInf | NInf, NInf => PInf
  | PInf, NInf | NInf, PInf => NInf
  end.

(** JS [x / y] (a zero divisor is the positive zero). *)
Definition fdiv (x y : float) : float :=
  match x, y with
  | NaN, _ | _, NaN => NaN
  | Fin a, Fin b =>
      match Qc_sign b with
      | Eq => match Qc_sign a with Gt => PInf | Eq => NaN | Lt => NInf end
      | _ => Fin (a / b)%Qc
      end
  | Fin _, PInf | Fin _, NInf => fzero
  | PInf, Fin b => match Qc_sign b with Lt => NInf | _ => PInf end
  | NInf, Fin b => match Qc_sign b with Lt => PInf | _ => NInf end
  | PInf, _ | NInf, _ => NaN
  end.

(** JS [x < y]: false as soon as one side is NaN. *)
Definition flt (x y : float) : bool :=
  match x, y with
  | NaN, _ | _, NaN => false
  | Fin a, Fin b => bool_decide (a < b)%Qc
  | NInf, NInf | PInf, _ => false
  | NInf, _ => true
  | Fin _, PInf => true
  | Fin _, NInf => false
  end.

(** JS [x > y]. *)
Definition fgt (x y : float) : bool := flt y x.

(** ** Outcomes of a JS computation *)

Inductive outcome (A : Type) : Type :=
  | Done (a : A)      (* normal completion *)
  | Raised            (* an exception escapes *)
  | Diverged.         (* the computation does not terminate *)
Arguments Done {A} a.
Arguments Raised {A}.
Arguments Diverged {A}.

Definition obind {A B} (m : outcome A) (k : A -> outcome B) : outcome B :=
  match m with
  | Done a => k a
  | Raised => Raised
  | Diverged => Diverged
  end.

Notation "'let!' x ':=' m 'in' k" := (obind m (fun x => k))
  (at level 10, x pattern, m at level 100, k at level 200).

(** [try { body } catch { handler }]. *)
Definition try_catch {A} (body : outcome A) (handler : outcome A) : outcome A :=
  match body with
  | Raised => handler
  | r => r
  end.

(** [for (const x of l) f(x)] building the updated elements. *)
Fixpoint mapM {A B} (f : A -> outcome B) (l : list A) : outcome (list B) :=
  match l with
  | [] => Done []
  | x :: l' => let! y := f x in let! ys := mapM f l' in Done (y :: ys)
  end.

(** ** Typed arrays *)

(** [dst.set(src, offset)]: overwrites [dst] from [offset] on with [src];
    throws a RangeError when [src] does not fit. *)
Definition typed_set (dst src : list float) (offset : nat) : outcome (list float) :=
  if length dst <? offset + length src then Raised
  else Done (take offset dst ++ src ++ drop (offset + length src) dst).

(** [a.fill(0)]. *)
Definition fill_zero (a : list float) : list float :=
  replicate (length a) fzero.

(** [a[i] = v]: a write past the end of a typed array is ignored. *)
Definition typed_store (a : list float) (i : nat) (v : float) : list float :=
  <[i := v]> a.

(** ** The processor object *)

(** [instance.exports], as far as [destroy] inspects it with [typeof]. *)
Record Exports : Type := {
  has_rnnoise_destroy : bool;
  has_free : bool;
}.

(** The fields of [this].  [debug] only guards console output and is left
    out; [memory] records whether [this.memory] holds a memory object. *)
Record Processor : Type := mkProcessor {
  isDestroy : bool;
  rnnoiseModule : option Exports;
  frameSize : nat;
  state : Z;
  pcmInputBuf : Z;
  pcmOutputBuf : Z;
  memory : bool;
  inputBuffer : list float;
  outputBuffer : list float;
  vadHistory : list float;
  silenceThreshold : float;
  silenceCounter : nat;
  maxSilenceFrames : nat;
}.

Definition set_isDestroy (v : bool) (p : Processor) : Processor :=
  mkProcessor v (rnnoiseModule p) (frameSize p) (state p) (pcmInputBuf p)
    (pcmOutputBuf p) (memory p) (inputBuffer p) (outputBuffer p)
    (vadHistory p) (silenceThreshold p) (silenceCounter p) (maxSilenceFrames p).
Definition set_rnnoiseModule (v : option Exports) (p : Processor) : Processor :=
  mkProcessor (isDestroy p) v (frameSize p) (state p) (pcmInputBuf p)
    (pcmOutputBuf p) (memory p) (inputBuffer p) (outputBuffer p)
    (vadHistory p) (silenceThreshold p) (silenceCounter p) (maxSilenceFrames p).
Definition set_state (v : Z) (p : Processor) : Processor :=
  mkProcessor (isDestroy p) (rnnoiseModule p) (frameSize p) v (pcmInputBuf p)
    (pcmOutputBuf p) (memory p) (inputBuffer p) (outputBuffer p)
    (vadHistory p) (silenceThreshold p) (silenceCounter p) (maxSilenceFrames p).
Definition set_pcmInputBuf (v : Z) (p : Processor) : Processor :=
  mkProcessor (isDestroy p) (rnnoiseModule p) (frameSize p) (state p) v
    (pcmOutputBuf p) (memory p) (inputBuffer p) (outputBuffer p)
    (vadHistory p) (silenceThreshold p) (silenceCounter p) (maxSilenceFrames p).
Definition set_pcmOutputBuf (v : Z) (p : Processor) : Processor :=
  mkProcessor (isDestroy p) (rnnoiseModule p) (frameSize p) (state p)
    (pcmInputBuf p) v (memory p) (inputBuffer p) (outputBuffer p)
    (vadHistory p) (silenceThreshold p) (silenceCounter p) (maxSilenceFrames p).
Definition set_memory (v : bool) (p : Processor) : Processor :=
  mkProcessor (isDestroy p) (rnnoiseModule p) (frameSize p) (state p)
    (pcmInputBuf p) (pcmOutputBuf p) v (inputBuffer p) (outputBuffer p)
    (vadHistory p) (silenceThreshold p) (silenceCounter p) (maxSilenceFrames p).
Definition set_inputBuffer (v : list float) (p : Processor) : Processor :=
  mkProcessor (isDestroy p) (rnnoiseModule p) (frameSize p) (state p)
    (pcmInputBuf p) (pcmOutputBuf p) (memory p) v (outputBuffer p)
    (vadHistory p) (silenceThreshold p) (silenceCounter p) (maxSilenceFrames p).
Definition set_outputBuffer (v : list float) (p : Processor) : Processor :=
  mkProcessor (isDestroy p) (rnnoiseModule p) (frameSize p) (state p)
    (pcmInputBuf p) (pcmOutputBuf p) (memory p) (inputBuffer p) v
    (vadHistory p) (silenceThreshold p) (silenceCounter p) (maxSilenceFrames p).
Definition set_vadHistory (v : list float) (p : Processor) : Processor :=
  mkProcessor (isDestroy p) (rnnoiseModule p) (frameSize p) (state p)
    (pcmInputBuf p) (pcmOutputBuf p) (memory p) (inputBuffer p) (outputBuffer p)
    v (silenceThreshold p) (silenceCounter p) (maxSilenceFrames p).
Definition set_silenceCounter (v : nat) (p : Processor) : Processor :=
  mkProcessor (isDestroy p) (rnnoiseModule p) (frameSize p) (state p)
    (pcmInputBuf p) (pcmOutputBuf p) (memory p) (inputBuffer p) (outputBuffer p)
    (vadHistory p) (silenceThreshold p) v (maxSilenceFrames p).

(** The object built by [constructor()]. *)
Definition new_processor : Processor := {|
  isDestroy := false;
  rnnoiseModule := None;
  frameSize := 0;
  state := 0%Z;
  pcmInputBuf := 0%Z;
  pcmOutputBuf := 0%Z;
  memory := false;
  inputBuffer := [];
  outputBuffer := [];
  vadHistory := [];
  silenceThreshold := Fin (Q2Qc (1 # 10));
  silenceCounter := 0;
  maxSilenceFrames := 10;
|}.

(** JS truthiness of a handle or pointer. *)
Definition truthy (h : Z) : bool := negb (h =? 0)%Z.

(** The negation of the guard
    [!this.rnnoiseModule || !this.state || !this.memory ||
     !this.pcmInputBuf || !this.pcmOutputBuf]. *)
Definition initialized (p : Processor) : bool :=
  bool_decide (is_Some (rnnoiseModule p)) && truthy (state p) && memory p
  && truthy (pcmInputBuf p) && truthy (pcmOutputBuf p).

(** ** VAD history and the silence gate *)

(** [updateVadHistory(vad)]. *)
Definition updateVadHistory (vad : float) (p : Processor) : Processor :=
  let h := vadHistory p ++ [vad] in                    (* push *)
  let h := if 5 <? length h then tail h else h in      (* shift *)
  let p := set_vadHistory h p in
  let avgVad := fdiv (foldl fadd fzero h) (float_of_nat (length h)) in
  if flt avgVad (silenceThreshold p)
  then set_silenceCounter (S (silenceCounter p)) p
  else set_silenceCounter 0 p.

(** [shouldSkipFrame()]. *)
Definition shouldSkipFrame (p : Processor) : bool :=
  maxSilenceFrames p <? silenceCounter p.

(** ** Channel merging *)

(** The body of the inner loop of [mergeChannels], on the pair
    [(sum, validCount)]. *)
Definition merge_step (i : nat) (acc : float * nat) (channel : list float)
  : float * nat :=
  let '(sum, validCount) := acc in
  match channel !! i with                              (* i < channel.length *)
  | Some sample =>
      if isFinite sample then (fadd sum sample, S validCount)
      else (sum, validCount)
  | None => (sum, validCount)
  end.

(** The body of the outer loop of [mergeChannels]: the value of
    [merged[i]]. *)
Definition merge_sample (channels : list (list float)) (i : nat) : float :=
  let '(sum, validCount) := foldl (merge_step i) (fzero, 0) channels in
  if 0 <? validCount then fdiv sum (float_of_nat validCount) else fzero.

(** [mergeChannels(channels)]. *)
Definition mergeChannels (channels : list (list float)) : list float :=
  match channels with
  | [] => []
  | [channel] => channel                               (* slice(): a copy *)
  | channel0 :: _ => map (merge_sample channels) (seq 0 (length channel0))
  end.

(** ** Writing the outputs *)

(** [outputs] of a callback: destinations, each a list of channels. *)
Definition audio := list (list (list float)).

(** [outputSilence(outputs)]. *)
Definition outputSilence (outputs : audio) : audio :=
  map (map fill_zero) outputs.

(** [outputPassthrough(inputs, outputs)]. *)
Definition outputPassthrough (inputs outputs : audio) : outcome audio :=
  match inputs with
  | [] | [] :: _ => Done (outputSilence outputs)
  | (sourceChannel :: _) :: _ =>
      mapM (mapM (fun channel =>
        if length channel =? length sourceChannel
        then typed_set channel sourceChannel 0
        else
          let copyLength := min (length channel) (length sourceChannel) in
          typed_set channel (take copyLength sourceChannel) 0)) outputs
  end.

(** [outputToChannels(outputs)]. *)
Definition outputToChannels (p : Processor) (outputs : audio) : Processor * audio :=
  if length (outputBuffer p) =? 0 then (p, outputs)
  else
    let samplesToCopy :=
      foldl (fun acc output =>
               foldl (fun acc (channel : list float) => min acc (length channel))
                     acc output)
            (length (outputBuffer p)) outputs in
    if samplesToCopy =? 0 then (p, outputs)
    else
      let outputs' :=
        foldl (fun outs i =>
                 let sample := default NaN (outputBuffer p !! i) in
                 map (map (fun channel =>
                   if i <? length channel then typed_store channel i sample
                   else channel)) outs)
              outputs (seq 0 samplesToCopy) in
      if samplesToCopy <? length (outputBuffer p)
      then (set_outputBuffer (drop samplesToCopy (outputBuffer p)) p, outputs')
      else (set_outputBuffer [] p, outputs').

(** ** The foreign engine *)

(** The calls made into the WebAssembly instance. *)
Inductive Call : Type :=
  | CallProcessFrame (st out inp : Z) (pcm : list float)
      (* rnnoise_process_frame(st, out, inp), with the input region's contents *)
  | CallDestroy (st : Z)                      (* rnnoise_destroy(st) *)
  | CallFree (ptr : Z).                       (* free(ptr) *)

(** The sample conversions written inline in [processFrame]. *)
Definition toEngineDomain (x : float) : float := fmul x c32768.

Definition clamp_unit (sample : float) : float :=
  let sample := if fgt sample fone then fone else sample in
  let sample := if flt sample fminus_one then fminus_one else sample in
  sample.

Definition fromEngineDomain (y : float) : float := clamp_unit (fdiv y c32768).

Section Engine.

(** The engine's own state (its heap and network state). *)
Context {E : Type}.

(** The engine path of [processFrame] from the write of the input region
    to the read of the returned value: given the handle and the scaled
    frame it yields the engine's next state and either the contents of
    the output region (by index) with the VAD score, or [None] when
    anything on that path throws (a view outside the memory, a trap). *)
Variable rnnoise_process_frame :
  E -> Z -> list float -> E * option ((nat -> float) * float).

(** [rnnoise_destroy] and [free] return normally. *)
Variable rnnoise_destroy : E -> Z -> E.
Variable free : E -> Z -> E.

Record Wasm : Type := mkWasm {
  instance : E;
  calls : list Call;
}.

(** The [try] block of [processFrame]. *)
Definition engine_path (p : Processor) (w : Wasm) (frame : list float)
  : Wasm * outcome (list float * float) :=
  let scaledFrame :=
    map (fun i => toEngineDomain (default NaN (frame !! i)))
        (seq 0 (frameSize p)) in
  let '(e, r) := rnnoise_process_frame (instance w) (state p) scaledFrame in
  let w := mkWasm e (calls w ++
             [CallProcessFrame (state p) (pcmOutputBuf p) (pcmInputBuf p)
                               scaledFrame]) in
  match r with
  | None => (w, Raised)
  | Some (outputView, vad) =>
      let processedFrame :=
        map (fun i => fromEngineDomain (outputView i)) (seq 0 (frameSize p)) in
      (w, Done (processedFrame, vad))
  end.

(** [processFrame(frame)]. *)
Definition processFrame (p : Processor) (w : Wasm) (frame : list float)
  : outcome (list float * float * Wasm) :=
  if negb (initialized p) then Done (frame, fzero, w)
  else
    let! frame :=
      (if negb (length frame =? frameSize p) then
         let paddedFrame := replicate (frameSize p) fzero in
         let copyLength := min (length frame) (frameSize p) in
         typed_set paddedFrame (take copyLength frame) 0
       else Done frame) in
    let '(w, r) := engine_path p w frame in
    try_catch (let! (processedFrame, vad) := r in
               Done (processedFrame, vad, w))
              (Done (frame, fzero, w)).

(** One iteration of the [while] loop of [process], after its test. *)
Definition process_one_frame (p : Processor) (w : Wasm)
  : outcome (Processor * Wasm) :=
  let frame := take (frameSize p) (inputBuffer p) in
  let p := set_inputBuffer (drop (frameSize p) (inputBuffer p)) p in
  let! (processedFrame, vad, w) := processFrame p w frame in
  let p := updateVadHistory vad p in
  if shouldSkipFrame p then Done (p, w)
  else Done (set_outputBuffer (outputBuffer p ++ processedFrame) p, w).

(** The [while (this.inputBuffer.length >= this.frameSize)] loop, bounded
    by [fuel] iterations. *)
Fixpoint process_loop (fuel : nat) (p : Processor) (w : Wasm)
  : outcome (Processor * Wasm) :=
  if frameSize p <=? length (inputBuffer p) then
    match fuel with
    | 0 => Diverged
    | S fuel' =>
        let! (p, w) := process_one_frame p w in
        process_loop fuel' p w
    end
  else Done (p, w).

(** [process(inputs, outputs)]: the returned flag, the outputs as the
    callback leaves them, and the new state.  The loop gets as many
    iterations as the queue has samples, which is enough whenever the
    frame size is positive; with a frame size of zero the loop never
    ends. *)
Definition process (p : Processor) (w : Wasm) (inputs outputs : audio)
  : outcome (bool * audio * Processor * Wasm) :=
  if isDestroy p then Done (false, outputs, p, w)
  else if negb (initialized p) then
    let! outputs := outputPassthrough inputs outputs in
    Done (true, outputs, p, w)
  else
    match inputs !! 0 with
    | None | Some [] => Done (true, outputSilence outputs, p, w)
    | Some inputSources =>
        let monoInput := mergeChannels inputSources in
        let p := set_inputBuffer (inputBuffer p ++ monoInput) p in
        let! (p, w) := process_loop (length (inputBuffer p)) p w in
        let '(p, outputs) := outputToChannels p outputs in
        Done (true, outputs, p, w)
    end.

(** [destroy()]. *)
Definition destroy (p : Processor) (w : Wasm) : Processor * Wasm :=
  let p := set_isDestroy true p in
  let '(p, w) :=
    match rnnoiseModule p with
    | Some m =>
        let '(p, w) :=
          if truthy (state p) && has_rnnoise_destroy m
          then (set_state 0%Z p,
                mkWasm (rnnoise_destroy (instance w) (state p))
                       (calls w ++ [CallDestroy (state p)]))
          else (p, w) in
        let '(p, w) :=
          if truthy (pcmInputBuf p) && has_free m
          then (set_pcmInputBuf 0%Z p,
                mkWasm (free (instance w) (pcmInputBuf p))
                       (calls w ++ [CallFree (pcmInputBuf p)]))
          else (p, w) in
        let '(p, w) :=
          if truthy (pcmOutputBuf p) && has_free m
          then (set_pcmOutputBuf 0%Z p,
                mkWasm (free (instance w) (pcmOutputBuf p))
                       (calls w ++ [CallFree (pcmOutputBuf p)]))
          else (p, w) in
        (set_memory false (set_rnnoiseModule None p), w)
    | None => (p, w)
    end in
  let p := set_inputBuffer [] p in
  let p := set_outputBuffer [] p in
  let p := set_vadHistory [] p in
  let p := set_silenceCounter 0 p in
  (p, w).

End Engine.

(** ** Derived notions used in the statements *)

(** The mean computed by [updateVadHistory]:
    [h.reduce((sum, val) => sum + val, 0) / h.length]. *)
Definition mean (h : list float) : float :=
  fdiv (foldl fadd fzero h) (float_of_nat (length h)).

(** The window after [push] and the conditional [shift]. *)
Definition slide (h : list float) (vad : float) : list float :=
  if 5 <? length (h ++ [vad]) then tail (h ++ [vad]) else h ++ [vad].

(** Feeding a sequence of VAD scores, one [updateVadHistory] per frame. *)
Definition feed_vads (vads : list float) (p : Processor) : Processor :=
  foldl (fun p vad => updateVadHistory vad p) p vads.

(** A finite sample in [-1, 1]. *)
Definition in_unit (x : float) : Prop :=
  exists q : Qc, x = Fin q /\ (- 1 <= q)%Qc /\ (q <= 1)%Qc.

(** The finite values the channels hold at index [i], in channel order. *)
Definition finite_at (channels : list (list float)) (i : nat) : list Qc :=
  omap (fun channel : list float =>
          match channel !! i with Some (Fin q) => Some q | _ => None end)
       channels.

Definition Qc_sum (qs : list Qc) : Qc := foldr Qcplus 0%Qc qs.

(** The arithmetic mean of a non-empty list of rationals. *)
Definition Qc_mean (qs : list Qc) : Qc := (Qc_sum qs / Qc_of_nat (length qs))%Qc.

(** The lifecycle state of a processor. *)
Inductive ProcessorState : Type := Uninitialized | Ready | Destroyed.

Definition lifecycle (p : Processor) : ProcessorState :=
  if isDestroy p then Destroyed
  else if initialized p then Ready else Uninitialized.

(** The number of samples [outputToChannels] may copy: the queue length
    capped by the length of every destination channel. *)
Definition samples_to_copy (buffer : list float) (outputs : audio) : nat :=
  foldr Nat.min (length buffer) (map length (concat outputs)).

(** The frame [processFrame] works on once its size guard has run: the
    first [size] samples, padded with zeros on the right. *)
Definition normalize_frame (size : nat) (frame : list float) : list float :=
  take size frame ++ replicate (size - length frame) fzero.

(** The fields the processing loop never writes. *)
Definition config (p : Processor) :=
  (isDestroy p, rnnoiseModule p, frameSize p, state p, pcmInputBuf p,
   pcmOutputBuf p, memory p, silenceThreshold p, maxSilenceFrames p).

(** The frames handed to the engine, in call order. *)
Definition engine_frames (cs : list Call) : list (list float) :=
  omap (fun c => match c with
                 | CallProcessFrame _ _ _ pcm => Some pcm
                 | _ => None
                 end) cs.

(** A callback's input has a first source with at least one channel. *)
Definition has_input (inputs : audio) : Prop :=
  exists channel channels, inputs !! 0 = Some (channel :: channels).

(** The mono samples a callback appends to the input queue. *)
Definition callback_samples (cb : audio * audio) : list float :=
  mergeChannels (default [] (cb.1 !! 0)).

(** A partial sum of scores that are all below the threshold [t]: minus
    infinity, or a rational below [k] times a finite threshold. *)
Definition sum_below (t : float) (k : nat) (x : float) : Prop :=
  x = NInf
  \/ exists a, x = Fin a /\ forall b, t = Fin b -> (a < Qc_of_nat k * b)%Qc.

Section DerivedWithEngine.

Context {E : Type}.
Variable engine : E -> Z -> list float -> E * option ((nat -> float) * float).

(** The wasm state after the engine path ran on [frame]. *)
Definition after_call (p : Processor) (w : Wasm) (frame : list float) : Wasm :=
  mkWasm (engine (instance w) (state p) (map toEngineDomain frame)).1
         (calls w ++ [CallProcessFrame (state p) (pcmOutputBuf p) (pcmInputBuf p)
                                       (map toEngineDomain frame)]).

(** A run of render callbacks, each given as [(inputs, outputs)]. *)
Fixpoint run_callbacks (cbs : list (audio * audio)) (p : Processor) (w : Wasm)
  : outcome (Processor * Wasm) :=
  match cbs with
  | [] => Done (p, w)
  | cb :: cbs' =>
      let! r := process engine p w cb.1 cb.2 in
      run_callbacks cbs' r.1.2 r.2
  end.

(** What a pass (or a run of passes) did to the input queue: the frames
    it handed to the engine, and the samples it left queued. *)
Definition extracted (size : nat) (samples : list float) (w w' : @Wasm E)
           (p' : Processor) (frames : list (list float)) : Prop :=
  samples = concat frames ++ inputBuffer p'
  /\ Forall (fun frame => length frame = size) frames
  /\ length (inputBuffer p') < size
  /\ engine_frames (calls w')
     = engine_frames (calls w) ++ map (map toEngineDomain) frames.

(** What [processFrame] returns for consecutive frames: each processed
    frame with its VAD score. *)
Fixpoint frame_results (p : Processor) (w : Wasm) (frames : list (list float))
  : list (list float * float) :=
  match frames with
  | [] => []
  | frame :: frames' =>
      match processFrame engine p w frame with
      | Done (processedFrame, vad, w') =>
          (processedFrame, vad) :: frame_results p w' frames'
      | _ => []
      end
  end.

End DerivedWithEngine.

(** ** Example instances *)

(** The exports of a module that passed the checks of [initRnnoise]. *)
Definition ready_exports : Exports :=
  {| has_rnnoise_destroy := true; has_free := true |}.

(** A processor as a successful [initRnnoise] leaves it, for an engine
    whose frame size is [size]. *)
Definition ready_processor (size : nat) : Processor := {|
  isDestroy := false;
  rnnoiseModule := Some ready_exports;
  frameSize := size;
  state := 1%Z;
  pcmInputBuf := 8%Z;
  pcmOutputBuf := 16%Z;
  memory := true;
  inputBuffer := [];
  outputBuffer := [];
  vadHistory := [];
  silenceThreshold := Fin (Q2Qc (1 # 10));
  silenceCounter := 0;
  maxSilenceFrames := 10;
|}.

(** An engine whose frame call always throws. *)
Definition failing_engine (e : unit) (st : Z) (pcm : list float)
  : unit * option ((nat -> float) * float) := (e, None).

(** An engine that hands back its input and reports the VAD score [vad]. *)
Definition echo_engine (vad : float) (e : unit) (st : Z) (pcm : list float)
  : unit * option ((nat -> float) * float) :=
  (e, Some (fun i => default NaN (pcm !! i), vad)).

Definition engine_release (e : unit) (ptr : Z) : unit := e.

(** The sample [k / 8]. *)
Definition sample (k : Z) : float := Fin (Q2Qc (Qmake k 8)).

(** A Ready processor with frame size 1 and [maxSilenceFrames = 2] whose
    input queue holds [queued]. *)
Definition gated_processor (queued : list float) : Processor := {|
  isDestroy := false;
  rnnoiseModule := Some ready_exports;
  frameSize := 1;
  state := 1%Z;
  pcmInputBuf := 8%Z;
  pcmOutputBuf := 16%Z;
  memory := true;
  inputBuffer := queued;
  outputBuffer := [];
  vadHistory := [];
  silenceThreshold := Fin (Q2Qc (1 # 10));
  silenceCounter := 0;
  maxSilenceFrames := 2;
|}.

(** The shape of a callback's outputs: the length of every channel of
    every destination. *)
Definition shape (a : audio) : list (list nat) := map (map length) a.

(** An engine that hands back the samples it is given. *)
Definition echoes {E : Type}
    (engine : E -> Z -> list float -> E * option ((nat -> float) * float)) : Prop :=
  forall e st pcm, exists e' vad,
    engine e st pcm = (e', Some (fun i => default NaN (pcm !! i), vad)).

(** ** Loading the engine and control messages *)


(** No engine handle or scratch pointer is held. *)
Definition handles_clear (p : Processor) : Prop :=
  state p = 0%Z /\ pcmInputBuf p = 0%Z /\ pcmOutputBuf p = 0%Z.

(** The release calls for the handles a processor holds, in the order
    [destroy] goes through them. *)
Definition release_calls (p : Processor) : list Call :=
  (if truthy (state p) then [CallDestroy (state p)] else [])
  ++ (if truthy (pcmInputBuf p) then [CallFree (pcmInputBuf p)] else [])
  ++ (if truthy (pcmOutputBuf p) then [CallFree (pcmOutputBuf p)] else []).

(** [instance.exports] as [initRnnoise] inspects it: which of the names it
    looks up are functions, and whether [memory] is there. *)
Record ModuleExports : Type := {
  exp_rnnoise_create : bool;
  exp_rnnoise_get_frame_size : bool;
  exp_rnnoise_process_frame : bool;
  exp_malloc : bool;
  exp_free : bool;
  exp_rnnoise_destroy : bool;
  exp_wasm_call_ctors : bool;
  exp_memory : bool;
}.

(** The part of the exports [destroy] looks at. *)
Definition exports_view (m : ModuleExports) : Exports :=
  {| has_rnnoise_destroy := exp_rnnoise_destroy m; has_free := exp_free m |}.

(** The loop over [requiredFunctions]: no name fails the [typeof] test. *)
Definition required_functions (m : ModuleExports) : bool :=
  exp_rnnoise_create m && exp_rnnoise_get_frame_size m
  && exp_rnnoise_process_frame m && exp_malloc m && exp_free m
  && exp_rnnoise_destroy m.

Definition set_frameSize (v : nat) (p : Processor) : Processor :=
  mkProcessor (isDestroy p) (rnnoiseModule p) v (state p) (pcmInputBuf p)
    (pcmOutputBuf p) (memory p) (inputBuffer p) (outputBuffer p)
    (vadHistory p) (silenceThreshold p) (silenceCounter p) (maxSilenceFrames p).
Definition set_silenceThreshold (v : float) (p : Processor) : Processor :=
  mkProcessor (isDestroy p) (rnnoiseModule p) (frameSize p) (state p)
    (pcmInputBuf p) (pcmOutputBuf p) (memory p) (inputBuffer p) (outputBuffer p)
    (vadHistory p) v (silenceCounter p) (maxSilenceFrames p).
Definition set_maxSilenceFrames (v : nat) (p : Processor) : Processor :=
  mkProcessor (isDestroy p) (rnnoiseModule p) (frameSize p) (state p)
    (pcmInputBuf p) (pcmOutputBuf p) (memory p) (inputBuffer p) (outputBuffer p)
    (vadHistory p) (silenceThreshold p) (silenceCounter p) v.

(** The calls [initRnnoise] makes into the instance. *)
Inductive InitCall : Type :=
  | CallCtors                                 (* __wasm_call_ctors() *)
  | CallCreate                                (* rnnoise_create() *)
  | CallGetFrameSize                          (* rnnoise_get_frame_size() *)
  | CallMalloc (bytes : nat).                 (* malloc(bytes) *)

(** The messages [port.onmessage] switches on.  [setParameter] is split by
    parameter name, with the value typed as the field it is stored in:
    ['silenceThreshold'], ['maxSilenceFrames'], any other name. *)
Inductive Message (B : Type) : Type :=
  | MsgInit (rnnoiseWasmBuffer : option B) (debug : bool)
  | MsgDestroy
  | MsgSetSilenceThreshold (value : float)
  | MsgSetMaxSilenceFrames (value : nat)
  | MsgSetOtherParameter
  | MsgUnknown.
Arguments MsgInit {B} rnnoiseWasmBuffer debug.
Arguments MsgDestroy {B}.
Arguments MsgSetSilenceThreshold {B} value.
Arguments MsgSetMaxSilenceFrames {B} value.
Arguments MsgSetOtherParameter {B}.
Arguments MsgUnknown {B}.

(** What happens to a processor: a message arrives, or the host renders a
    quantum. *)
Inductive Event (B : Type) : Type :=
  | EvMessage (msg : Message B)
  | EvProcess (inputs outputs : audio).
Arguments EvMessage {B} msg.
Arguments EvProcess {B} inputs outputs.

(** The render callbacks among a run of events, as [(inputs, outputs)]. *)
Definition callbacks_of {B : Type} (evs : list (Event B)) : list (audio * audio) :=
  omap (fun ev => match ev with
                  | EvProcess inputs outputs => Some (inputs, outputs)
                  | EvMessage _ => None
                  end) evs.

Section Loader.

(** The engine's state and the type of wasm binaries. *)
Context {E B : Type}.

(** [WebAssembly.instantiate(bytes, imports)]: the exports and the fresh
    instance, or [None] when it rejects. *)
Variable instantiate : B -> option (ModuleExports * E).

(** The foreign functions [initRnnoise] calls; [false] or [None] is a trap. *)
Variable wasm_call_ctors : E -> E * bool.
Variable rnnoise_create : E -> E * option Z.
Variable rnnoise_get_frame_size : E -> E * option nat.
Variable malloc : E -> nat -> E * option Z.

Variable rnnoise_process_frame :
  E -> Z -> list float -> E * option ((nat -> float) * float).
Variable rnnoise_destroy : E -> Z -> E.
Variable free : E -> Z -> E.

(** [initRnnoise(bytes)] from the point where [instantiate] settles (nothing
    is read or written before): the new state, the calls made, and whether
    the [catch] block ran and posted an error.  [debug] is [this.debug]. *)
Definition initRnnoise (debug : bool) (bytes : B) (p : Processor) (w : Wasm)
  : Processor * Wasm * list InitCall * bool :=
  match instantiate bytes with
  | None => (p, w, [], true)
  | Some (m, e) =>
      let p := set_rnnoiseModule (Some (exports_view m)) p in
      let p := set_memory (exp_memory m) p in
      if negb (required_functions m) then (p, mkWasm e (calls w), [], true)
      else
        let '(e, log, returned) :=
          if exp_wasm_call_ctors m
          then let '(e, returned) := wasm_call_ctors e in (e, [CallCtors], returned)
          else (e, [], true) in
        if negb returned then (p, mkWasm e (calls w), log, true)
        else
          let '(e, created) := rnnoise_create e in
          let log := log ++ [CallCreate] in
          match created with
          | None => (p, mkWasm e (calls w), log, true)
          | Some st =>
              let p := set_state st p in
              let '(e, size) := rnnoise_get_frame_size e in
              let log := log ++ [CallGetFrameSize] in
              match size with
              | None => (p, mkWasm e (calls w), log, true)
              | Some size =>
                  let p := set_frameSize size p in
                  let '(e, inputBuf) := malloc e (size * 4) in
                  let log := log ++ [CallMalloc (size * 4)] in
                  match inputBuf with
                  | None => (p, mkWasm e (calls w), log, true)
                  | Some inputBuf =>
                      let p := set_pcmInputBuf inputBuf p in
                      let '(e, outputBuf) := malloc e (size * 4) in
                      let log := log ++ [CallMalloc (size * 4)] in
                      match outputBuf with
                      | None => (p, mkWasm e (calls w), log, true)
                      | Some outputBuf =>
                          let p := set_pcmOutputBuf outputBuf p in
                          (* the debug log reads this.memory.buffer *)
                          (p, mkWasm e (calls w), log,
                           debug && negb (exp_memory m))
                      end
                  end
              end
          end
  end.

(** [port.onmessage]: the new state, the calls [initRnnoise] made, and
    whether an error was posted. *)
Definition onmessage (msg : Message B) (p : Processor) (w : Wasm)
  : Processor * Wasm * list InitCall * bool :=
  match msg with
  | MsgInit (Some bytes) debug => initRnnoise debug bytes p w
  | MsgInit None _ => (p, w, [], false)
  | MsgDestroy =>
      let '(p, w) := destroy rnnoise_destroy free p w in (p, w, [], false)
  | MsgSetSilenceThreshold value => (set_silenceThreshold value p, w, [], false)
  | MsgSetMaxSilenceFrames value => (set_maxSilenceFrames value p, w, [], false)
  | MsgSetOtherParameter | MsgUnknown => (p, w, [], false)
  end.

(** One event, with what a render callback returned. *)
Definition step (ev : Event B) (p : Processor) (w : Wasm)
  : outcome (Processor * Wasm * option (bool * audio)) :=
  match ev with
  | EvMessage msg =>
      let '(p, w, _, _) := onmessage msg p w in Done (p, w, None)
  | EvProcess inputs outputs =>
      let! (continue, outputs, p, w) :=
        process rnnoise_process_frame p w inputs outputs in
      Done (p, w, Some (continue, outputs))
  end.

(** A run of events, with what the render callbacks returned, in order. *)
Fixpoint run_events (evs : list (Event B)) (p : Processor) (w : Wasm)
  : outcome (Processor * Wasm * list (bool * audio)) :=
  match evs with
  | [] => Done (p, w, [])
  | ev :: evs' =>
      let! (p, w, r) := step ev p w in
      let! (p, w, rs) := run_events evs' p w in
      Done (p, w, match r with Some r => r :: rs | None => rs end)
  end.

End Loader.

(** ** Example loaders *)

(** Exports with every name [initRnnoise] looks up, and the same without
    [rnnoise_destroy]. *)
Definition full_exports : ModuleExports := {|
  exp_rnnoise_create := true;
  exp_rnnoise_get_frame_size := true;
  exp_rnnoise_process_frame := true;
  exp_malloc := true;
  exp_free := true;
  exp_rnnoise_destroy := true;
  exp_wasm_call_ctors := true;
  exp_memory := true;
|}.

Definition exports_without_destroy : ModuleExports := {|
  exp_rnnoise_create := true;
  exp_rnnoise_get_frame_size := true;
  exp_rnnoise_process_frame := true;
  exp_malloc := true;
  exp_free := true;
  exp_rnnoise_destroy := false;
  exp_wasm_call_ctors := true;
  exp_memory := true;
|}.

(** An instance whose state is the next free address of its heap, which
    starts at 1024.  The binary is given by the exports it declares;
    [None] is a binary that does not instantiate. *)
Definition heap_instantiate (bytes : option ModuleExports)
  : option (ModuleExports * Z) :=
  match bytes with
  | Some m => Some (m, 1024%Z)
  | None => None
  end.

Definition heap_ctors (e : Z) : Z * bool := (e, true).

(** The engine state takes 64 bytes. *)
Definition heap_create (e : Z) : Z * option Z := ((e + 64)%Z, Some e).

Definition heap_frame_size (size : nat) (e : Z) : Z * option nat := (e, Some size).

(** A bump allocator that traps once the heap would grow past [limit]. *)
Definition heap_malloc (limit : Z) (e : Z) (bytes : nat) : Z * option Z :=
  if (e + Z.of_nat bytes <=? limit)%Z
  then ((e + Z.of_nat bytes)%Z, Some e)
  else (e, None).

Definition heap_release (e : Z) (ptr : Z) : Z := e.

(** An engine over this instance whose frame call always throws. *)
Definition heap_engine (e : Z) (st : Z) (pcm : list float)
  : Z * option ((nat -> float) * float) := (e, None).

(** ** The main-thread wrapper, [src/RnnoiseWorklet.ts] *)

Module RnnoiseWorklet.

(** The calls the wrapper makes on the host: on a node, on an audio
    context, and [fetch] of the wasm URL. *)
Inductive HostCall (C N B : Type) : Type :=
  | Disconnect (node : N)                     (* node.disconnect() *)
  | PostMessage (node : N) (msg : Message B)  (* node.port.postMessage(msg) *)
  | AddModule (ctx : C)                       (* ctx.audioWorklet.addModule(url) *)
  | NewNode (ctx : C)              (* new AudioWorkletNode(ctx, name) *)
  | Fetch.                                    (* fetch(rnnoiseWasmUrl) *)
Arguments Disconnect {C N B} node.
Arguments PostMessage {C N B} node msg.
Arguments AddModule {C N B} ctx.
Arguments NewNode {C N B} ctx.
Arguments Fetch {C N B}.

(** The fields of the wrapper object. *)
Record t (C N B : Type) : Type := mk {
  audioContext : C;
  rnnoiseWorkletNode : option N;
  rnnoiseWasmBuffer : option B;
}.
Arguments mk {C N B} audioContext rnnoiseWorkletNode rnnoiseWasmBuffer.
Arguments audioContext {C N B} t.
Arguments rnnoiseWorkletNode {C N B} t.
Arguments rnnoiseWasmBuffer {C N B} t.

(** What the host answers during one [createRnnoiseWorkletNode]: whether
    [addModule] resolves, the node the constructor builds (or it throws),
    and the bytes [fetch] and [arrayBuffer] deliver (or one of them
    rejects). *)
Record Replies (N B : Type) : Type := mkReplies {
  addModule_resolves : bool;
  new_node : option N;
  fetched : option B;
}.
Arguments mkReplies {N B} addModule_resolves new_node fetched.
Arguments addModule_resolves {N B} r.
Arguments new_node {N B} r.
Arguments fetched {N B} r.

Section Wrapper.

Context {C N B : Type}.

(** [destroy()]. *)
Definition destroy (s : t C N B) : t C N B * list (HostCall C N B) :=
  match rnnoiseWorkletNode s with
  | Some node =>
      (mk (audioContext s) None (rnnoiseWasmBuffer s),
       [Disconnect node; PostMessage node MsgDestroy])
  | None => (mk (audioContext s) None (rnnoiseWasmBuffer s), [])
  end.

(** [createRnnoiseWorkletNode(audioContext)], for a call during whose
    awaits no other method of the object runs: the new fields, the host
    calls in order, and the node the promise resolves to ([None] when it
    rejects). *)
Definition createRnnoiseWorkletNode (s : t C N B) (ctx : C) (host : Replies N B)
  : t C N B * list (HostCall C N B) * option N :=
  let '(s, trace) := destroy s in
  let s := mk ctx (rnnoiseWorkletNode s) (rnnoiseWasmBuffer s) in
  let trace := trace ++ [AddModule ctx] in
  if negb (addModule_resolves host) then (s, trace, None)
  else
    let trace := trace ++ [NewNode ctx] in
    match new_node host with
    | None => (s, trace, None)
    | Some node =>
        let s := mk (audioContext s) (Some node) (rnnoiseWasmBuffer s) in
        let post (bytes : B) := PostMessage node (MsgInit (Some bytes) false) in
        match rnnoiseWasmBuffer s with
        | Some bytes => (s, trace ++ [post bytes], Some node)
        | None =>
            let trace := trace ++ [Fetch] in
            match fetched host with
            | None => (s, trace, None)
            | Some bytes =>
                (mk (audioContext s) (Some node) (Some bytes),
                 trace ++ [post bytes], Some node)
            end
        end
    end.

(** The messages posted to [node] among some host calls, in order. *)
Definition posted_to `{EqDecision N} (node : N) (trace : list (HostCall C N B))
  : list (Message B) :=
  omap (fun c => match c with
                 | PostMessage n msg => if decide (n = node) then Some msg else None
                 | _ => None
                 end) trace.

End Wrapper.

End RnnoiseWorklet.

Global Instance Exports_eq_dec : EqDecision Exports.
Proof. solve_decision. Defined.
Global Instance Processor_eq_dec : EqDecision Processor.
Proof. solve_decision. Defined.
Global Instance Call_eq_dec : EqDecision Call.
Proof. solve_decision. Defined.
Global Instance outcome_eq_dec {A} `{EqDecision A} : EqDecision (outcome A).
Proof. solve_decision. Defined.
Global Instance Wasm_eq_dec {E} `{EqDecision E} : EqDecision (@Wasm E).
Proof. solve_decision. Defined.

(** Evaluates field updates and field reads, innermost first. *)
Ltac eval_fields :=
  cbv [set_isDestroy set_rnnoiseModule set_state set_pcmInputBuf set_pcmOutputBuf
       set_memory set_inputBuffer set_outputBuffer set_vadHistory
       set_silenceCounter isDestroy rnnoiseModule frameSize state pcmInputBuf
       pcmOutputBuf memory inputBuffer outputBuffer vadHistory silenceThreshold
       silenceCounter maxSilenceFrames].

(** Closed goals between computed values are settled by evaluation. *)
Ltac by_eval :=
  first [ vm_compute; reflexivity
        | apply (bool_decide_unpack _); vm_compute; exact I ].

(** Evaluates field updates and reads, the loader's updates included. *)
Ltac eval_all_fields :=
  cbv [set_isDestroy set_rnnoiseModule set_state set_pcmInputBuf set_pcmOutputBuf
       set_memory set_inputBuffer set_outputBuffer set_vadHistory
       set_silenceCounter set_frameSize set_silenceThreshold
       set_maxSilenceFrames isDestroy rnnoiseModule frameSize state pcmInputBuf
       pcmOutputBuf memory inputBuffer outputBuffer vadHistory silenceThreshold
       silenceCounter maxSilenceFrames].

(** Settles a goal from the membership [H] of a call in a literal trace. *)
Ltac in_trace H :=
  repeat first [ apply elem_of_app in H as [H|H]
               | apply elem_of_cons in H as [H|H]
               | by apply elem_of_nil in H ];
  by simplify_eq.

(** * Properties *)

(** ** Arithmetic of the number model *)

Lemma Qc_sign_pos (q : Qc) : (0 < q)%Qc -> Qc_sign q = Gt.
Proof. intros H. unfold Qc_sign. by apply Qcgt_alt. Qed.

Lemma Qc_of_nat_S (k : nat) : Qc_of_nat (S k) = (Qc_of_nat k + 1)%Qc.
Proof.
  unfold Qc_of_nat. rewrite Nat2Z.inj_succ, <- Z.add_1_r.
  by rewrite Z2Qc_inj_add, Z2Qc_inj_1.
Qed.

Lemma Qc_of_nat_pos (k : nat) : 0 < k -> (0 < Qc_of_nat k)%Qc.
Proof.
  intros H. unfold Qc_of_nat. rewrite <- Z2Qc_inj_0.
  apply (proj1 (Z2Qc_inj_lt 0 (Z.of_nat k))). lia.
Qed.

Lemma fdiv_count_Fin (q : Qc) (k : nat) :
  0 < k -> fdiv (Fin q) (float_of_nat k) = Fin (q / Qc_of_nat k)%Qc.
Proof.
  intros H. unfold fdiv, float_of_nat.
  by rewrite (Qc_sign_pos _ (Qc_of_nat_pos k H)).
Qed.

Lemma fdiv_count_PInf (k : nat) : 0 < k -> fdiv PInf (float_of_nat k) = PInf.
Proof.
  intros H. unfold fdiv, float_of_nat.
  by rewrite (Qc_sign_pos _ (Qc_of_nat_pos k H)).
Qed.

Lemma fdiv_count_NInf (k : nat) : 0 < k -> fdiv NInf (float_of_nat k) = NInf.
Proof.
  intros H. unfold fdiv, float_of_nat.
  by rewrite (Qc_sign_pos _ (Qc_of_nat_pos k H)).
Qed.

Lemma foldl_fadd_NaN (h : list float) : foldl fadd NaN h = NaN.
Proof. induction h as [|v h IH]; [done|]. simpl. by destruct v. Qed.

Lemma foldl_fadd_replicate_Fin (a q : Qc) (k : nat) :
  foldl fadd (Fin a) (replicate k (Fin q)) = Fin (a + Qc_of_nat k * q)%Qc.
Proof.
  revert a. induction k as [|k IH]; intros a.
  - cbn [replicate foldl]. f_equal.
    change (Qc_of_nat 0) with (Qc_of_Z 0). rewrite Z2Qc_inj_0. ring.
  - cbn [replicate foldl fadd]. rewrite IH, Qc_of_nat_S. f_equal. ring.
Qed.

Lemma foldl_fadd_replicate_PInf (x : float) (k : nat) :
  x = PInf \/ (exists a, x = Fin a) ->
  0 < k -> foldl fadd x (replicate k PInf) = PInf.
Proof.
  revert x. induction k as [|k IH]; intros x Hx Hk; [lia|].
  cbn [replicate foldl].
  assert (fadd x PInf = PInf) as -> by (destruct Hx as [->|[a ->]]; done).
  destruct k; [done|]. apply IH; [by left|lia].
Qed.

Lemma foldl_fadd_replicate_NInf (x : float) (k : nat) :
  x = NInf \/ (exists a, x = Fin a) ->
  0 < k -> foldl fadd x (replicate k NInf) = NInf.
Proof.
  revert x. induction k as [|k IH]; intros x Hx Hk; [lia|].
  cbn [replicate foldl].
  assert (fadd x NInf = NInf) as -> by (destruct Hx as [->|[a ->]]; done).
  destruct k; [done|]. apply IH; [by left|lia].
Qed.

(** The mean of a non-empty window holding one value is that value. *)
Lemma mean_replicate (v : float) (k : nat) :
  0 < k -> mean (replicate k v) = v.
Proof.
  intros Hk. unfold mean. rewrite length_replicate. destruct v as [q| | |].
  - unfold fzero. rewrite foldl_fadd_replicate_Fin, fdiv_count_Fin by done.
    f_equal. rewrite Qcplus_0_l, Qcmult_comm. apply Qcdiv_mult_l.
    intros Heq. pose proof (Qc_of_nat_pos k Hk) as Hpos.
    rewrite Heq in Hpos. by apply Qclt_not_eq in Hpos.
  - rewrite foldl_fadd_replicate_PInf; [by apply fdiv_count_PInf| |done].
    right. by eexists.
  - rewrite foldl_fadd_replicate_NInf; [by apply fdiv_count_NInf| |done].
    right. by eexists.
  - destruct k; [lia|]. simpl. by rewrite foldl_fadd_NaN.
Qed.

(** ** VadSmoother *)

Lemma slide_length (h : list float) (vad : float) :
  length h <= 5 -> length (slide h vad) <= 5.
Proof.
  intros H. unfold slide. rewrite length_app. simpl.
  destruct (5 <? length h + 1) eqn:Hc.
  - destruct (h ++ [vad]) as [|x t] eqn:Heq; simpl; [lia|].
    apply (f_equal length) in Heq. rewrite length_app in Heq. simpl in Heq. lia.
  - apply Nat.ltb_ge in Hc. rewrite length_app. simpl. lia.
Qed.

(** A window of at most 5 scores becomes the last 5 scores pushed. *)
Lemma slide_last_five (h : list float) (vad : float) :
  length h <= 5 ->
  slide h vad = drop (length h + 1 - 5) (h ++ [vad]).
Proof.
  intros H. unfold slide. rewrite length_app. cbn [length].
  destruct (5 <? length h + 1) eqn:Hc.
  - apply Nat.ltb_lt in Hc. replace (length h + 1 - 5) with 1 by lia.
    by destruct (h ++ [vad]).
  - apply Nat.ltb_ge in Hc. by replace (length h + 1 - 5) with 0 by lia.
Qed.

Lemma slide_replicate (v : float) (k : nat) :
  slide (replicate k v) v = replicate (if 5 <? k + 1 then k else k + 1) v.
Proof.
  unfold slide. rewrite length_app, length_replicate. simpl.
  assert (replicate k v ++ [v] = replicate (S k) v) as ->.
  { change [v] with (replicate 1 v). rewrite <- replicate_add.
    f_equal. lia. }
  destruct (5 <? k + 1); [done|]. f_equal. lia.
Qed.

Lemma updateVadHistory_vadHistory (vad : float) (p : Processor) :
  vadHistory (updateVadHistory vad p) = slide (vadHistory p) vad.
Proof.
  unfold updateVadHistory, slide.
  by destruct (flt _ _).
Qed.

Lemma updateVadHistory_silenceCounter (vad : float) (p : Processor) :
  silenceCounter (updateVadHistory vad p) =
  if flt (mean (slide (vadHistory p) vad)) (silenceThreshold p)
  then S (silenceCounter p) else 0.
Proof.
  unfold updateVadHistory, slide, mean. cbn [silenceThreshold set_vadHistory
    silenceCounter vadHistory].
  by destruct (flt _ _).
Qed.

Lemma updateVadHistory_config (vad : float) (p : Processor) :
  silenceThreshold (updateVadHistory vad p) = silenceThreshold p
  /\ maxSilenceFrames (updateVadHistory vad p) = maxSilenceFrames p.
Proof. unfold updateVadHistory. by destruct (flt _ _). Qed.

Lemma feed_vads_cons (vad : float) (vads : list float) (p : Processor) :
  feed_vads (vad :: vads) p = feed_vads vads (updateVadHistory vad p).
Proof. reflexivity. Qed.

(** A window that already holds only [v] keeps doing so, and the counter
    follows the comparison of [v] itself with the threshold. *)
Lemma feed_constant (v : float) (n k : nat) (p : Processor) :
  vadHistory p = replicate k v ->
  silenceCounter (feed_vads (replicate n v) p) =
  if flt v (silenceThreshold p) then silenceCounter p + n
  else match n with 0 => silenceCounter p | S _ => 0 end.
Proof.
  revert k p. induction n as [|n IH]; intros k p Hw.
  - simpl. destruct (flt _ _); lia.
  - cbn [replicate]. rewrite feed_vads_cons.
    pose proof (updateVadHistory_vadHistory v p) as Hh.
    rewrite Hw, slide_replicate in Hh.
    rewrite (IH _ _ Hh).
    destruct (updateVadHistory_config v p) as [-> _].
    rewrite updateVadHistory_silenceCounter, Hw, slide_replicate.
    rewrite mean_replicate by (destruct (5 <? k + 1) eqn:Hc;
      [apply Nat.ltb_lt in Hc|]; lia).
    destruct (flt v (silenceThreshold p)); [lia|by destruct n].
Qed.

(** C6. [updateVadHistory(vad)] pushes [vad], shifts the oldest score out
    once the window is longer than 5 (a window of at most 5 scores becomes
    the last 5 scores pushed, so it never holds more than 5), and increments
    [silenceCounter] when the mean of the window is below
    [silenceThreshold], resetting it to 0 otherwise.  Fed a constant score
    [v] from a window holding only [v] (the empty one included), the counter
    grows by exactly 1 per frame when [v] is below the threshold, and is 0
    after every frame when it is not. *)
Theorem C6_updateVadHistory_window_and_counter :
  forall (p : Processor) (vad : float),
    vadHistory (updateVadHistory vad p) = slide (vadHistory p) vad
    /\ (length (vadHistory p) <= 5 ->
        vadHistory (updateVadHistory vad p)
        = drop (length (vadHistory p) + 1 - 5) (vadHistory p ++ [vad])
        /\ length (vadHistory (updateVadHistory vad p)) <= 5)
    /\ silenceCounter (updateVadHistory vad p) =
         (if flt (mean (vadHistory (updateVadHistory vad p))) (silenceThreshold p)
          then S (silenceCounter p) else 0)
    /\ (forall (v : float) (k n : nat),
          vadHistory p = replicate k v ->
          (flt v (silenceThreshold p) = true ->
           silenceCounter (feed_vads (replicate n v) p) = silenceCounter p + n)
          /\ (flt v (silenceThreshold p) = false -> 0 < n ->
              silenceCounter (feed_vads (replicate n v) p) = 0)).
Proof.
  intros p vad. rewrite updateVadHistory_vadHistory.
  split; [done|].
  split; [intros H; split; [by apply slide_last_five|by apply slide_length]|].
  split; [apply updateVadHistory_silenceCounter|].
  intros v k n Hw. rewrite (feed_constant v n k p Hw).
  split; intros ->; [done|]. intros Hn. destruct n; [lia|done].
Qed.

(** ** SampleScaler *)

Lemma c32768_pos : (0 < Qc_of_Z 32768)%Qc.
Proof. rewrite <- Z2Qc_inj_0. by apply (proj1 (Z2Qc_inj_lt 0 32768)). Qed.

Lemma toEngineDomain_Fin (x : Qc) :
  toEngineDomain (Fin x) = Fin (x * Qc_of_Z 32768)%Qc.
Proof. reflexivity. Qed.

Lemma fdiv_c32768_Fin (y : Qc) :
  fdiv (Fin y) c32768 = Fin (y / Qc_of_Z 32768)%Qc.
Proof. unfold fdiv, c32768. by rewrite (Qc_sign_pos _ c32768_pos). Qed.

Lemma clamp_unit_id (x : float) : in_unit x -> clamp_unit x = x.
Proof.
  intros (q & -> & Hlo & Hhi). unfold clamp_unit, fgt, flt, fone, fminus_one.
  rewrite (bool_decide_eq_false_2 (1 < q)%Qc) by by apply Qcle_not_lt.
  by rewrite (bool_decide_eq_false_2 (q < - 1)%Qc) by by apply Qcle_not_lt.
Qed.

Lemma scale_round_trip (x : float) :
  in_unit x -> fromEngineDomain (toEngineDomain x) = x.
Proof.
  intros Hx. pose proof Hx as (q & -> & _).
  unfold fromEngineDomain. rewrite toEngineDomain_Fin, fdiv_c32768_Fin.
  rewrite Qcdiv_mult_l; [by apply clamp_unit_id|].
  intros Heq. pose proof c32768_pos as Hpos. rewrite Heq in Hpos.
  by apply Qclt_not_eq in Hpos.
Qed.

Lemma map_seq_lookup_id (frame : list float) (f : float -> float) (n : nat) :
  length frame = n ->
  map (fun i => f (default NaN (frame !! i))) (seq 0 n) = map f frame.
Proof.
  intros <-. apply list_eq. intros i. rewrite !list_lookup_fmap.
  destruct (decide (i < length frame)) as [Hi|Hi].
  - rewrite lookup_seq_lt by done. simpl.
    destruct (lookup_lt_is_Some_2 frame i Hi) as [x Hx]. by rewrite Hx.
  - rewrite lookup_seq_ge by lia. by rewrite lookup_ge_None_2 by lia.
Qed.

Section ScalerAroundEngine.

Context {E : Type}.
Variable rnnoise_process_frame :
  E -> Z -> list float -> E * option ((nat -> float) * float).

(** When the engine hands back the samples it was given, the engine path
    returns the caller's frame. *)
Lemma engine_path_echo (p : Processor) (w : Wasm) (frame : list float)
      (e : E) (vad : float) :
  length frame = frameSize p ->
  Forall in_unit frame ->
  rnnoise_process_frame (instance w) (state p) (map toEngineDomain frame)
    = (e, Some (fun i => default NaN (map toEngineDomain frame !! i), vad)) ->
  snd (engine_path rnnoise_process_frame p w frame) = Done (frame, vad).
Proof.
  intros Hlen Hunit Heng. unfold engine_path.
  rewrite (map_seq_lookup_id frame toEngineDomain _ Hlen), Heng. cbn [snd].
  do 2 f_equal.
  rewrite (map_seq_lookup_id (map toEngineDomain frame) fromEngineDomain)
    by by rewrite length_map.
  rewrite map_map. rewrite <- (map_id frame) at 2.
  apply map_ext_Forall. eapply Forall_impl; [|exact Hunit].
  intros x Hx. by apply scale_round_trip.
Qed.

End ScalerAroundEngine.

(** C9. For every finite [x] in [-1, 1], converting to the engine domain
    and back, [clamp ((x * 32768) / 32768)], gives [x]; applied
    element-wise around an engine call that returns its input unchanged,
    the conversions give back the frame. *)
Theorem C9_scale_round_trip :
  forall (x : float),
    in_unit x ->
    toEngineDomain x = fmul x c32768
    /\ fromEngineDomain (toEngineDomain x)
       = clamp_unit (fdiv (fmul x c32768) c32768)
    /\ fromEngineDomain (toEngineDomain x) = x
    /\ (forall (E : Type)
               (engine : E -> Z -> list float -> E * option ((nat -> float) * float))
               (p : Processor) (w : Wasm) (frame : list float) (e : E)
               (vad : float),
          length frame = frameSize p ->
          Forall in_unit frame ->
          engine (instance w) (state p) (map toEngineDomain frame)
            = (e, Some (fun i => default NaN (map toEngineDomain frame !! i), vad)) ->
          snd (engine_path engine p w frame) = Done (frame, vad)).
Proof.
  intros x Hx. split; [done|]. split; [done|].
  split; [by apply scale_round_trip|].
  intros E engine p w frame e vad. apply engine_path_echo.
Qed.

(** ** ChannelMerger *)

Lemma finite_at_cons (channel : list float) (channels : list (list float)) (i : nat) :
  finite_at (channel :: channels) i =
  match channel !! i with
  | Some (Fin q) => q :: finite_at channels i
  | _ => finite_at channels i
  end.
Proof.
  unfold finite_at. simpl. destruct (channel !! i) as [[q| | |]|]; reflexivity.
Qed.

Lemma Qc_sum_cons (q : Qc) (qs : list Qc) : Qc_sum (q :: qs) = (q + Qc_sum qs)%Qc.
Proof. reflexivity. Qed.

Lemma merge_fold_finite (channels : list (list float)) (i : nat) (s : Qc) (c : nat) :
  foldl (merge_step i) (Fin s, c) channels
  = (Fin (s + Qc_sum (finite_at channels i))%Qc, c + length (finite_at channels i)).
Proof.
  revert s c. induction channels as [|ch channels IH]; intros s c.
  - cbn [foldl finite_at omap length]. change (Qc_sum []) with 0%Qc.
    by rewrite Qcplus_0_r, Nat.add_0_r.
  - cbn [foldl]. rewrite finite_at_cons. unfold merge_step at 2.
    destruct (ch !! i) as [[q| | |]|]; cbn [isFinite fadd]; rewrite IH; try done.
    rewrite Qc_sum_cons, Qcplus_assoc. cbn [length]. f_equal. lia.
Qed.

Lemma merge_sample_spec (channels : list (list float)) (i : nat) :
  merge_sample channels i =
  match finite_at channels i with
  | [] => fzero
  | qs => Fin (Qc_mean qs)
  end.
Proof.
  unfold merge_sample. unfold fzero at 1.
  rewrite merge_fold_finite. cbn [Nat.add].
  destruct (finite_at channels i) as [|q qs] eqn:Hq; [done|].
  cbn [length Nat.ltb Nat.leb]. rewrite fdiv_count_Fin by lia.
  unfold Qc_mean. cbn [length]. by rewrite Qcplus_0_l.
Qed.

(** C3 (amended). With at least two channels, the merged stream has the
    length of the first channel and, at each of its indices, holds 0 when no
    channel has a finite value there and the arithmetic mean of the finite
    channel values otherwise.  A single channel is returned as a copy,
    non-finite samples included, and no channel gives the empty stream. *)
Theorem C3_mergeChannels_mean_of_finite :
  forall (channels : list (list float)),
    (2 <= length channels ->
     length (mergeChannels channels) = length (default [] (channels !! 0))
     /\ forall i : nat,
          i < length (default [] (channels !! 0)) ->
          mergeChannels channels !! i =
          Some (match finite_at channels i with
                | [] => fzero
                | qs => Fin (Qc_mean qs)
                end))
    /\ (forall channel : list float, mergeChannels [channel] = channel)
    /\ mergeChannels [] = [].
Proof.
  intros channels. split; [|done].
  intros Hlen. destruct channels as [|c0 [|c1 rest]]; simpl in Hlen; try lia.
  cbn [mergeChannels lookup list_lookup default].
  split; [by rewrite length_map, length_seq|].
  intros i Hi. rewrite list_lookup_fmap, lookup_seq_lt by done.
  cbn [fmap option_fmap option_map Nat.add]. f_equal. apply merge_sample_spec.
Qed.

(** C3 as stated fails for a single channel: its NaN is copied through. *)
Lemma C3_single_channel_keeps_NaN :
  [[NaN]] <> ([] : list (list float))
  /\ finite_at [[NaN]] 0 = []
  /\ mergeChannels [[NaN]] !! 0 = Some NaN
  /\ mergeChannels [[NaN]] !! 0 <> Some fzero.
Proof. repeat split; done. Qed.

(** ** Passthrough and silence *)

Lemma mapM_Done {A B} (f : A -> outcome B) (g : A -> B) (l : list A) :
  (forall x, f x = Done (g x)) -> mapM f l = Done (map g l).
Proof.
  intros Hf. induction l as [|x l IH]; [done|].
  cbn [mapM map]. by rewrite Hf, IH.
Qed.

(** What the passthrough copy leaves in one destination channel. *)
Lemma typed_set_fits (dst src : list float) :
  length src <= length dst ->
  typed_set dst src 0 = Done (src ++ drop (length src) dst).
Proof.
  intros H. unfold typed_set. cbn [Nat.add take app].
  by rewrite (proj2 (Nat.ltb_ge (length dst) (length src)) H).
Qed.

(** What the passthrough copy leaves in one destination channel. *)
Lemma passthrough_channel (sourceChannel channel : list float) :
  (if length channel =? length sourceChannel
   then typed_set channel sourceChannel 0
   else typed_set channel
          (take (min (length channel) (length sourceChannel)) sourceChannel) 0)
  = Done (take (length channel) sourceChannel
          ++ drop (length sourceChannel) channel).
Proof.
  destruct (length channel =? length sourceChannel) eqn:Hc.
  - apply Nat.eqb_eq in Hc. rewrite typed_set_fits by lia.
    by rewrite Hc, firstn_all.
  - rewrite typed_set_fits by (rewrite length_take; lia).
    rewrite length_take. do 2 f_equal.
    + destruct (decide (length channel <= length sourceChannel)).
      * f_equal. lia.
      * rewrite !take_ge by lia. done.
    + destruct (decide (length channel <= length sourceChannel)).
      * rewrite !drop_ge by lia. done.
      * f_equal. lia.
Qed.

Lemma outputPassthrough_spec (inputs outputs : audio) :
  outputPassthrough inputs outputs =
  Done (match inputs with
        | (sourceChannel :: _) :: _ =>
            map (map (fun channel =>
                        take (length channel) sourceChannel
                        ++ drop (length sourceChannel) channel)) outputs
        | _ => map (map (fun channel => replicate (length channel) fzero)) outputs
        end).
Proof.
  unfold outputPassthrough.
  destruct inputs as [|[|sourceChannel rest] inputs]; try done.
  apply mapM_Done. intros output. apply mapM_Done. intros channel.
  apply passthrough_channel.
Qed.

(** C4 (amended). While the engine is not initialized (as in the state the
    constructor builds) and the processor is not destroyed, the callback
    returns [true], leaves the processor and the engine untouched, and
    writes the passthrough: with a first channel in the first input, each
    destination channel receives that channel's samples, cut to the
    destination's length, and keeps its own samples beyond the source's
    length (so a longer destination is zero-extended only where it already
    held zeros); with no input, or a first input without channels, every
    destination channel is filled with zeros. *)
Theorem C4_passthrough_when_uninitialized :
  forall (E : Type)
         (engine : E -> Z -> list float -> E * option ((nat -> float) * float))
         (p : Processor) (w : Wasm) (inputs outputs : audio),
    isDestroy p = false ->
    initialized p = false ->
    process engine p w inputs outputs =
      Done (true,
            match inputs with
            | (sourceChannel :: _) :: _ =>
                map (map (fun channel =>
                            take (length channel) sourceChannel
                            ++ drop (length sourceChannel) channel)) outputs
            | _ => map (map (fun channel => replicate (length channel) fzero))
                       outputs
            end, p, w)
    /\ (forall (sourceChannel channel : list float) (n : nat),
          channel = replicate n fzero ->
          take (length channel) sourceChannel
          ++ drop (length sourceChannel) channel
          = take n (sourceChannel ++ replicate (n - length sourceChannel) fzero))
    /\ isDestroy new_processor = false
    /\ initialized new_processor = false.
Proof.
  intros E engine p w inputs outputs Hd Hi.
  split; [|split; [|done]].
  - unfold process. rewrite Hd, Hi. cbn [negb].
    by rewrite outputPassthrough_spec.
  - intros src ch n ->. rewrite length_replicate, drop_replicate.
    destruct (decide (n <= length src)).
    + replace (n - length src) with 0 by lia. cbn [replicate].
      by rewrite !app_nil_r.
    + rewrite take_ge by lia. rewrite take_app_ge by lia.
      rewrite take_ge; [done|]. rewrite length_replicate. lia.
Qed.

(** C4 as stated fails: a longer destination keeps its own tail. *)
Lemma C4_longer_destination_keeps_tail :
  process (fun (e : unit) (_ : Z) (_ : list float) => (e, None))
          new_processor (mkWasm tt []) [[[fone]]] [[[fzero; fone]]]
  = Done (true, [[[fone; fone]]], new_processor, mkWasm tt [])
  /\ [[[fone; fone]]] <> [[[fone; fzero]]].
Proof. split; [reflexivity|]. intros H. by injection H. Qed.

(** C10. In the Ready state, a callback whose first input is absent or has
    no channel fills every channel of every destination with zeros, returns
    [true] and leaves the processor, both queues included, and the engine
    untouched: samples pending in the output queue are not served. *)
Theorem C10_ready_without_input_outputs_silence :
  forall (E : Type)
         (engine : E -> Z -> list float -> E * option ((nat -> float) * float))
         (p : Processor) (w : Wasm) (inputs outputs : audio),
    isDestroy p = false ->
    initialized p = true ->
    inputs !! 0 = None \/ inputs !! 0 = Some [] ->
    process engine p w inputs outputs =
      Done (true,
            map (map (fun channel => replicate (length channel) fzero)) outputs,
            p, w).
Proof.
  intros E engine p w inputs outputs Hd Hi Hin. unfold process.
  rewrite Hd, Hi. cbn [negb]. by destruct Hin as [-> | ->].
Qed.

(** ** OutputAssembler *)

Lemma foldr_min_init (a x : nat) (ls : list nat) :
  foldr Nat.min (Nat.min a x) ls = Nat.min x (foldr Nat.min a ls).
Proof.
  induction ls as [|y ls IH]; cbn [foldr]; [lia|]. rewrite IH. lia.
Qed.

Lemma foldl_min_foldr (acc : nat) (ls : list nat) :
  foldl Nat.min acc ls = foldr Nat.min acc ls.
Proof.
  revert acc. induction ls as [|x ls IH]; intros acc; [done|].
  cbn [foldl foldr]. rewrite IH. apply foldr_min_init.
Qed.

Lemma samplesToCopy_fold (n : nat) (outputs : audio) :
  foldl (fun acc output =>
           foldl (fun acc (channel : list float) => min acc (length channel))
                 acc output) n outputs
  = foldl Nat.min n (map length (concat outputs)).
Proof.
  revert n. induction outputs as [|output outputs IH]; intros n; [done|].
  cbn [foldl concat]. rewrite IH, map_app, foldl_app. f_equal.
  clear IH. revert n. induction output as [|channel output IH]; intros n; [done|].
  cbn [foldl map]. apply IH.
Qed.

Lemma elem_of_concat {A} (x : A) (ls : list (list A)) :
  x ∈ concat ls <-> exists l, x ∈ l /\ l ∈ ls.
Proof.
  induction ls as [|l ls IH]; cbn [concat].
  - split; [intros H; by apply elem_of_nil in H|].
    intros (l & _ & H). by apply elem_of_nil in H.
  - rewrite elem_of_app, IH. split.
    + intros [H|(l' & H1 & H2)]; [exists l; split; [done|by left]|].
      exists l'. split; [done|by right].
    + intros (l' & H1 & H2). apply elem_of_cons in H2 as [->|H2]; [by left|].
      right. eauto.
Qed.

Lemma samples_to_copy_le_buffer (buffer : list float) (outputs : audio) :
  samples_to_copy buffer outputs <= length buffer.
Proof.
  unfold samples_to_copy. induction (map length (concat outputs)) as [|x ls IH];
    cbn [foldr]; lia.
Qed.

Lemma samples_to_copy_le_channel (buffer : list float) (outputs : audio) :
  Forall (Forall (fun channel => samples_to_copy buffer outputs <= length channel))
         outputs.
Proof.
  unfold samples_to_copy.
  assert (forall ls x, x ∈ ls -> foldr Nat.min (length buffer) ls <= x) as Hmin.
  { induction ls as [|y ls IH]; intros x Hx; [by apply elem_of_nil in Hx|].
    apply elem_of_cons in Hx as [->|Hx]; cbn [foldr]; [lia|].
    specialize (IH x Hx). lia. }
  apply Forall_forall. intros output Ho. apply Forall_forall. intros channel Hc.
  apply list_elem_of_In in Ho, Hc. apply Hmin. apply list_elem_of_fmap. exists channel. split; [done|].
  apply elem_of_concat. eauto.
Qed.

(** The minimum is attained: by the queue or by one of the channels. *)
Lemma samples_to_copy_attained (buffer : list float) (outputs : audio) :
  samples_to_copy buffer outputs = length buffer
  \/ exists output channel,
       output ∈ outputs /\ channel ∈ output
       /\ samples_to_copy buffer outputs = length channel.
Proof.
  unfold samples_to_copy.
  assert (forall ls, foldr Nat.min (length buffer) ls = length buffer
                     \/ foldr Nat.min (length buffer) ls ∈ ls) as Hmin.
  { induction ls as [|y ls IH]; [by left|]. cbn [foldr].
    destruct (decide (y <= foldr Nat.min (length buffer) ls)).
    - right. rewrite Nat.min_l by done. by left.
    - rewrite Nat.min_r by lia. destruct IH as [IH|IH]; [by left|].
      right. by right. }
  destruct (Hmin (map length (concat outputs))) as [H|H]; [by left|].
  right. apply list_elem_of_fmap in H as (channel & Heq & Hin).
  apply elem_of_concat in Hin as (output & Hc & Ho). eauto.
Qed.

(** One round of the copy loop on one channel. *)
Lemma copy_round (buffer channel : list float) (i : nat) :
  i < length buffer -> i < length channel ->
  typed_store (take i buffer ++ drop i channel) i (default NaN (buffer !! i))
  = take (S i) buffer ++ drop (S i) channel.
Proof.
  intros Hb Hc. unfold typed_store.
  destruct (lookup_lt_is_Some_2 buffer i Hb) as [x Hx]. rewrite Hx. cbn [default].
  rewrite (take_S_r _ _ _ Hx).
  destruct (lookup_lt_is_Some_2 channel i Hc) as [y Hy].
  rewrite (drop_S _ _ _ Hy).
  rewrite insert_app_r_alt by (rewrite length_take; lia).
  rewrite length_take. replace (i - i `min` length buffer) with 0 by lia.
  cbn [insert list_insert]. by rewrite <- app_assoc.
Qed.

(** The copy loop of [outputToChannels] after [k] rounds. *)
Lemma copy_loop (buffer : list float) (outputs : audio) (k : nat) :
  k <= length buffer ->
  Forall (Forall (fun channel : list float => k <= length channel)) outputs ->
  foldl (fun outs i =>
           let sample := default NaN (buffer !! i) in
           map (map (fun channel =>
             if i <? length channel then typed_store channel i sample
             else channel)) outs)
        outputs (seq 0 k)
  = map (map (fun channel => take k buffer ++ drop k channel)) outputs.
Proof.
  induction k as [|k IH]; intros Hb Hall.
  - cbn [seq foldl take drop app]. rewrite <- (map_id outputs) at 1.
    apply map_ext. intros output. by rewrite map_id.
  - rewrite seq_S, foldl_app.
    rewrite IH; [|lia|].
    2:{ eapply Forall_impl; [|exact Hall]. intros output Ho.
        eapply Forall_impl; [|exact Ho]. intros channel Hc. simpl in Hc. lia. }
    cbn [Nat.add foldl]. rewrite map_map. apply map_ext_Forall.
    eapply Forall_impl; [|exact Hall]. intros output Ho. simpl.
    rewrite map_map. apply map_ext_Forall.
    eapply Forall_impl; [|exact Ho]. intros channel Hc. simpl in *.
    rewrite length_app, length_take, length_drop.
    rewrite (proj2 (Nat.ltb_lt k _)) by lia.
    apply copy_round; lia.
Qed.

Lemma set_outputBuffer_same (p : Processor) : set_outputBuffer (outputBuffer p) p = p.
Proof. by destruct p. Qed.

Lemma outputToChannels_spec (p : Processor) (outputs : audio) :
  outputToChannels p outputs =
  (set_outputBuffer (drop (samples_to_copy (outputBuffer p) outputs)
                          (outputBuffer p)) p,
   map (map (fun channel =>
               take (samples_to_copy (outputBuffer p) outputs) (outputBuffer p)
               ++ drop (samples_to_copy (outputBuffer p) outputs) channel))
       outputs).
Proof.
  assert (map (map (fun channel : list float => take 0 (outputBuffer p) ++ drop 0 channel))
              outputs = outputs) as Hid.
  { rewrite <- (map_id outputs) at 2. apply map_ext. intros output.
    by rewrite map_id. }
  pose proof (samples_to_copy_le_buffer (outputBuffer p) outputs) as Hle.
  unfold outputToChannels.
  destruct (length (outputBuffer p) =? 0) eqn:H0.
  - apply Nat.eqb_eq in H0.
    assert (samples_to_copy (outputBuffer p) outputs = 0) as -> by lia.
    by rewrite Hid, drop_0, set_outputBuffer_same.
  - rewrite samplesToCopy_fold, foldl_min_foldr.
    fold (samples_to_copy (outputBuffer p) outputs).
    destruct (samples_to_copy (outputBuffer p) outputs =? 0) eqn:Hn0.
    + apply Nat.eqb_eq in Hn0. rewrite Hn0.
      by rewrite Hid, drop_0, set_outputBuffer_same.
    + rewrite copy_loop by (done || apply samples_to_copy_le_channel).
      destruct (samples_to_copy (outputBuffer p) outputs <? length (outputBuffer p))
        eqn:Hlt; [done|].
      apply Nat.ltb_ge in Hlt. by rewrite drop_ge by lia.
Qed.

(** C8. [outputToChannels] copies the first [n] samples of the output
    queue into every destination channel and removes exactly those from the
    queue, where [n] is the least of the queue length and the lengths of the
    destination channels; samples of a destination beyond [n] are left as
    they were.  When every destination is at least as long as the queue,
    the whole queue is copied and the queue is left empty; when the queue is
    empty nothing changes. *)
Theorem C8_outputToChannels_copies_available_prefix :
  forall (p : Processor) (outputs : audio),
    let n := samples_to_copy (outputBuffer p) outputs in
    outputToChannels p outputs =
      (set_outputBuffer (drop n (outputBuffer p)) p,
       map (map (fun channel => take n (outputBuffer p) ++ drop n channel)) outputs)
    /\ n <= length (outputBuffer p)
    /\ Forall (Forall (fun channel => n <= length channel)) outputs
    /\ (n = length (outputBuffer p)
        \/ exists output channel,
             output ∈ outputs /\ channel ∈ output /\ n = length channel)
    /\ (Forall (Forall (fun channel => length (outputBuffer p) <= length channel))
               outputs ->
        outputToChannels p outputs =
          (set_outputBuffer [] p,
           map (map (fun channel =>
                       outputBuffer p ++ drop (length (outputBuffer p)) channel))
               outputs))
    /\ (outputBuffer p = [] -> outputToChannels p outputs = (p, outputs)).
Proof.
  intros p outputs n.
  split; [apply outputToChannels_spec|].
  split; [apply samples_to_copy_le_buffer|].
  split; [apply samples_to_copy_le_channel|].
  split; [apply samples_to_copy_attained|].
  split.
  - intros Hall. rewrite outputToChannels_spec.
    assert (samples_to_copy (outputBuffer p) outputs = length (outputBuffer p)) as ->.
    { destruct (samples_to_copy_attained (outputBuffer p) outputs)
        as [H|(output & channel & Ho & Hc & H)]; [done|].
      pose proof (samples_to_copy_le_buffer (outputBuffer p) outputs).
      apply list_elem_of_In in Ho, Hc.
      rewrite Forall_forall in Hall. specialize (Hall output Ho).
      rewrite Forall_forall in Hall. specialize (Hall channel Hc). lia. }
    by rewrite drop_all, firstn_all.
  - intros Hnil. unfold outputToChannels. by rewrite Hnil.
Qed.

(** ** EngineAdapter: processFrame *)

Lemma normalize_frame_id (size : nat) (frame : list float) :
  length frame = size -> normalize_frame size frame = frame.
Proof.
  intros <-. unfold normalize_frame. rewrite firstn_all, Nat.sub_diag.
  apply app_nil_r.
Qed.

Lemma normalize_frame_length (size : nat) (frame : list float) :
  length (normalize_frame size frame) = size.
Proof.
  unfold normalize_frame. rewrite length_app, length_take, length_replicate. lia.
Qed.

Lemma size_guard_spec (size : nat) (frame : list float) :
  (if negb (length frame =? size) then
     typed_set (replicate size fzero)
               (take (min (length frame) size) frame) 0
   else Done frame)
  = Done (normalize_frame size frame).
Proof.
  destruct (length frame =? size) eqn:Hc; cbn [negb].
  - apply Nat.eqb_eq in Hc. by rewrite normalize_frame_id.
  - rewrite typed_set_fits by (rewrite length_take, length_replicate; lia).
    rewrite length_take, drop_replicate. unfold normalize_frame. f_equal.
    destruct (decide (size <= length frame)).
    + f_equal; [f_equal; lia|]. f_equal. lia.
    + rewrite !take_ge by lia. f_equal. f_equal. lia.
Qed.

Section ProcessFrame.

Context {E : Type}.
Variable engine : E -> Z -> list float -> E * option ((nat -> float) * float).

Lemma engine_path_spec (p : Processor) (w : Wasm) (frame : list float) :
  length frame = frameSize p ->
  engine_path engine p w frame =
  (after_call engine p w frame,
   match (engine (instance w) (state p) (map toEngineDomain frame)).2 with
   | None => Raised
   | Some (outputView, vad) =>
       Done (map (fun i => fromEngineDomain (outputView i)) (seq 0 (frameSize p)),
             vad)
   end).
Proof.
  intros Hlen. unfold engine_path, after_call.
  rewrite (map_seq_lookup_id frame toEngineDomain _ Hlen).
  destruct (engine _ _ _) as [e [[outputView vad]|]]; done.
Qed.

Lemma processFrame_uninitialized (p : Processor) (w : Wasm) (frame : list float) :
  initialized p = false ->
  processFrame engine p w frame = Done (frame, fzero, w).
Proof. intros Hi. unfold processFrame. by rewrite Hi. Qed.

Lemma processFrame_initialized (p : Processor) (w : Wasm) (frame : list float) :
  initialized p = true ->
  processFrame engine p w frame =
  let frame := normalize_frame (frameSize p) frame in
  match (engine (instance w) (state p) (map toEngineDomain frame)).2 with
  | None => Done (frame, fzero, after_call engine p w frame)
  | Some (outputView, vad) =>
      Done (map (fun i => fromEngineDomain (outputView i)) (seq 0 (frameSize p)),
            vad, after_call engine p w frame)
  end.
Proof.
  intros Hi. unfold processFrame. rewrite Hi. cbn [negb].
  rewrite size_guard_spec. cbn [obind].
  rewrite engine_path_spec by apply normalize_frame_length.
  destruct (engine _ _ _) as [e [[outputView vad]|]]; done.
Qed.

Lemma processFrame_returns (p : Processor) (w : Wasm) (frame : list float) :
  exists r, processFrame engine p w frame = Done r.
Proof.
  destruct (initialized p) eqn:Hi.
  - rewrite processFrame_initialized by done. cbn zeta.
    destruct (engine _ _ _) as [e [[outputView vad]|]]; cbn [snd]; eauto.
  - rewrite processFrame_uninitialized by done. eauto.
Qed.

End ProcessFrame.

(** C5 (amended). [processFrame] always returns.  When the adapter is not
    initialized it returns the caller's frame unchanged with VAD 0 and makes
    no engine call.  When it is initialized and the engine path throws, the
    exception is caught and the result is, with VAD 0, the frame as the size
    guard left it: the caller's samples cut or zero-padded to [frameSize],
    which is the caller's frame itself when that already has [frameSize]
    samples. *)
Theorem C5_processFrame_never_throws :
  forall (E : Type)
         (engine : E -> Z -> list float -> E * option ((nat -> float) * float))
         (p : Processor) (w : Wasm) (frame : list float),
    (exists r, processFrame engine p w frame = Done r)
    /\ (initialized p = false ->
        processFrame engine p w frame = Done (frame, fzero, w))
    /\ (initialized p = true ->
        (engine (instance w) (state p)
                (map toEngineDomain (normalize_frame (frameSize p) frame))).2 = None ->
        processFrame engine p w frame =
          Done (normalize_frame (frameSize p) frame, fzero,
                after_call engine p w (normalize_frame (frameSize p) frame)))
    /\ (length frame = frameSize p ->
        normalize_frame (frameSize p) frame = frame).
Proof.
  intros E engine p w frame.
  split; [apply processFrame_returns|].
  split; [apply processFrame_uninitialized|].
  split; [|apply normalize_frame_id].
  intros Hi Hnone. rewrite processFrame_initialized by done.
  cbn zeta. by rewrite Hnone.
Qed.

(** C5 as stated fails when the frame has the wrong size and the engine
    throws: the caught path returns the padded frame, not the caller's. *)
Lemma C5_caught_path_returns_padded_frame :
  initialized (ready_processor 2) = true
  /\ failing_engine tt 1%Z (map toEngineDomain [fone; fzero]) = (tt, None)
  /\ (exists w', processFrame failing_engine (ready_processor 2) (mkWasm tt []) [fone]
                 = Done ([fone; fzero], fzero, w'))
  /\ [fone; fzero] <> [fone].
Proof.
  split; [reflexivity|]. split; [reflexivity|]. split; [|by intros H].
  eexists. rewrite processFrame_initialized by reflexivity. reflexivity.
Qed.

(** ** Teardown *)

Section Destroy.

Context {E : Type}.
Variable rnnoise_destroy : E -> Z -> E.
Variable free : E -> Z -> E.

Lemma destroy_twice (p : Processor) (w : Wasm) :
  destroy rnnoise_destroy free (destroy rnnoise_destroy free p w).1
                               (destroy rnnoise_destroy free p w).2
  = destroy rnnoise_destroy free p w.
Proof.
  destruct p as [d m F st pin pout mem ib ob vh thr sc msf].
  destruct m as [[hd hf]|]; [|reflexivity].
  unfold destroy. cbn -[truthy].
  destruct (truthy st), hd; cbn -[truthy];
    destruct (truthy pin), hf; cbn -[truthy];
    destruct (truthy pout); cbn -[truthy]; eval_fields; reflexivity.
Qed.

Lemma destroy_lifecycle (p : Processor) (w : Wasm) :
  lifecycle (destroy rnnoise_destroy free p w).1 = Destroyed.
Proof.
  destruct p as [d m F st pin pout mem ib ob vh thr sc msf].
  destruct m as [[hd hf]|]; [|reflexivity].
  unfold destroy. cbn -[truthy].
  destruct (truthy st), hd; cbn -[truthy];
    destruct (truthy pin), hf; cbn -[truthy];
    destruct (truthy pout); cbn -[truthy]; eval_fields; reflexivity.
Qed.

Lemma destroy_ready (p : Processor) (w : Wasm) :
  lifecycle p = Ready ->
  rnnoiseModule p = Some ready_exports ->
  destroy rnnoise_destroy free p w =
  (mkProcessor true None (frameSize p) 0%Z 0%Z 0%Z false [] [] []
               (silenceThreshold p) 0 (maxSilenceFrames p),
   mkWasm (free (free (rnnoise_destroy (instance w) (state p)) (pcmInputBuf p))
                (pcmOutputBuf p))
          (calls w ++ [CallDestroy (state p); CallFree (pcmInputBuf p);
                       CallFree (pcmOutputBuf p)])).
Proof.
  unfold lifecycle, initialized.
  destruct p as [d m F st pin pout mem ib ob vh thr sc msf].
  cbn [isDestroy rnnoiseModule state memory pcmInputBuf pcmOutputBuf].
  intros Hl ->. destruct d; [done|].
  destruct (truthy st) eqn:Hst; [|by rewrite andb_false_r in Hl].
  destruct mem; [|by rewrite andb_false_r in Hl].
  destruct (truthy pin) eqn:Hpin; [|by rewrite andb_false_r in Hl].
  destruct (truthy pout) eqn:Hpout; [|by rewrite andb_false_r in Hl].
  unfold destroy. cbn -[truthy]. rewrite Hst. cbn -[truthy].
  rewrite Hpin. cbn -[truthy]. rewrite Hpout. cbn -[truthy]. eval_fields.
  by rewrite <- !app_assoc.
Qed.

End Destroy.

(** C7. Calling [destroy] twice leaves the processor Destroyed after each
    call, and the second call changes nothing: it makes no engine call and
    leaves the processor and the engine as the first call left them.  From
    the Ready state the first call makes exactly the three release calls,
    [rnnoise_destroy] on the handle and [free] on each scratch region, and
    nulls the handle, both pointers, the module and the memory.  A callback
    on a destroyed processor returns [false] and touches nothing. *)
Theorem C7_destroy_idempotent :
  forall (E : Type) (rnnoise_destroy free : E -> Z -> E)
         (engine : E -> Z -> list float -> E * option ((nat -> float) * float))
         (p : Processor) (w : Wasm),
    let first := destroy rnnoise_destroy free p w in
    let second := destroy rnnoise_destroy free first.1 first.2 in
    lifecycle first.1 = Destroyed
    /\ lifecycle second.1 = Destroyed
    /\ second = first
    /\ calls second.2 = calls first.2
    /\ (lifecycle p = Ready ->
        rnnoiseModule p = Some ready_exports ->
        calls first.2 = calls w ++ [CallDestroy (state p); CallFree (pcmInputBuf p);
                                    CallFree (pcmOutputBuf p)]
        /\ instance first.2 =
             free (free (rnnoise_destroy (instance w) (state p)) (pcmInputBuf p))
                  (pcmOutputBuf p)
        /\ state first.1 = 0%Z /\ pcmInputBuf first.1 = 0%Z
        /\ pcmOutputBuf first.1 = 0%Z /\ rnnoiseModule first.1 = None
        /\ memory first.1 = false)
    /\ (forall inputs outputs : audio,
          process engine first.1 first.2 inputs outputs
          = Done (false, outputs, first.1, first.2)).
Proof.
  intros E rnnoise_destroy free engine p w first second.
  assert (second = first) as Hsame by apply destroy_twice.
  pose proof (destroy_lifecycle rnnoise_destroy free p w) as Hl. fold first in Hl.
  split; [done|]. split; [by rewrite Hsame|]. split; [done|].
  split; [by rewrite Hsame|]. split.
  - intros Hr Hm. subst first. clear second Hsame Hl.
    rewrite (destroy_ready _ _ _ _ Hr Hm). by repeat split.
  - intros inputs outputs. unfold process.
    unfold lifecycle in Hl. destruct (isDestroy first.1); [done|].
    by destruct (initialized first.1).
Qed.

(** ** FrameAssembler: the processing pass *)

Section Callbacks.

Context {E : Type}.
Variable engine : E -> Z -> list float -> E * option ((nat -> float) * float).

Lemma initialized_config (p p' : Processor) :
  config p' = config p -> initialized p' = initialized p.
Proof.
  unfold config, initialized. intros [= Hd Hm HF Hs Hi Ho Hmem Ht Hx].
  by rewrite Hm, Hs, Hmem, Hi, Ho.
Qed.

Lemma updateVadHistory_keeps (vad : float) (p : Processor) :
  config (updateVadHistory vad p) = config p
  /\ inputBuffer (updateVadHistory vad p) = inputBuffer p
  /\ outputBuffer (updateVadHistory vad p) = outputBuffer p.
Proof. unfold updateVadHistory. by destruct (flt _ _). Qed.

Lemma engine_frames_snoc (cs : list Call) (st out inp : Z) (pcm : list float) :
  engine_frames (cs ++ [CallProcessFrame st out inp pcm]) = engine_frames cs ++ [pcm].
Proof. unfold engine_frames. by rewrite omap_app. Qed.

(** One iteration on a Ready processor holding a full frame. *)
Lemma process_one_frame_ready (p : Processor) (w : Wasm) :
  initialized p = true ->
  frameSize p <= length (inputBuffer p) ->
  exists p' processedFrame vad,
    processFrame engine p w (take (frameSize p) (inputBuffer p))
      = Done (processedFrame, vad,
              after_call engine p w (take (frameSize p) (inputBuffer p)))
    /\ process_one_frame engine p w
       = Done (p', after_call engine p w (take (frameSize p) (inputBuffer p)))
    /\ config p' = config p
    /\ inputBuffer p' = drop (frameSize p) (inputBuffer p)
    /\ vadHistory p' = slide (vadHistory p) vad
    /\ silenceCounter p' =
         (if flt (mean (slide (vadHistory p) vad)) (silenceThreshold p)
          then S (silenceCounter p) else 0)
    /\ outputBuffer p' =
         (if maxSilenceFrames p <? silenceCounter p'
          then outputBuffer p else outputBuffer p ++ processedFrame).
Proof.
  intros Hi Hlen.
  set (frame := take (frameSize p) (inputBuffer p)).
  set (q := set_inputBuffer (drop (frameSize p) (inputBuffer p)) p).
  assert (length frame = frameSize p) as Hfl
    by (unfold frame; rewrite length_take; lia).
  assert (processFrame engine q w frame = processFrame engine p w frame) as Hq
    by reflexivity.
  pose proof (processFrame_initialized engine p w frame Hi) as Hpf.
  cbn zeta in Hpf. rewrite (normalize_frame_id _ _ Hfl) in Hpf.
  assert (exists processedFrame vad,
            processFrame engine p w frame
            = Done (processedFrame, vad, after_call engine p w frame))
    as (pf & vad & Hres).
  { rewrite Hpf. destruct (engine _ _ _).2 as [[ov vad]|]; eauto. }
  destruct (updateVadHistory_keeps vad q) as (Hc & Hib & Hob).
  exists (if shouldSkipFrame (updateVadHistory vad q)
          then updateVadHistory vad q
          else set_outputBuffer (outputBuffer (updateVadHistory vad q) ++ pf)
                                (updateVadHistory vad q)), pf, vad.
  split; [done|]. split.
  { unfold process_one_frame. fold frame. fold q. rewrite Hq, Hres.
    cbn [obind]. by destruct (shouldSkipFrame _). }
  assert (silenceCounter (updateVadHistory vad q) =
          (if flt (mean (slide (vadHistory p) vad)) (silenceThreshold p)
           then S (silenceCounter p) else 0)) as Hsc
    by apply (updateVadHistory_silenceCounter vad q).
  assert (vadHistory (updateVadHistory vad q) = slide (vadHistory p) vad) as Hvh
    by apply (updateVadHistory_vadHistory vad q).
  unfold shouldSkipFrame.
  assert (maxSilenceFrames (updateVadHistory vad q) = maxSilenceFrames p) as ->
    by (by injection Hc).
  destruct (maxSilenceFrames p <? silenceCounter (updateVadHistory vad q)) eqn:Hskip.
  - rewrite Hskip. by repeat split.
  - cbn [config set_outputBuffer isDestroy rnnoiseModule frameSize state
         pcmInputBuf pcmOutputBuf memory silenceThreshold maxSilenceFrames
         inputBuffer vadHistory silenceCounter outputBuffer].
    rewrite Hskip, Hob. by repeat split.
Qed.

End Callbacks.

Section Extraction.

Context {E : Type}.
Variable engine : E -> Z -> list float -> E * option ((nat -> float) * float).

Lemma process_loop_extracts (fuel : nat) (p : Processor) (w : Wasm) :
  initialized p = true ->
  0 < frameSize p ->
  length (inputBuffer p) <= fuel ->
  exists p' w' frames,
    process_loop engine fuel p w = Done (p', w')
    /\ config p' = config p
    /\ extracted (frameSize p) (inputBuffer p) w w' p' frames.
Proof.
  revert p w. induction fuel as [|fuel IH]; intros p w Hi HF Hfuel.
  - exists p, w, []. cbn [process_loop].
    rewrite (proj2 (Nat.leb_gt _ _)) by lia.
    repeat split; [constructor|lia|]. by rewrite app_nil_r.
  - cbn [process_loop].
    destruct (frameSize p <=? length (inputBuffer p)) eqn:Hc.
    + apply Nat.leb_le in Hc.
      destruct (process_one_frame_ready engine p w Hi Hc)
        as (p1 & pf & vad & _ & Hone & Hcfg & Hib & _).
      rewrite Hone. cbn [obind].
      assert (frameSize p1 = frameSize p) as HF1 by (by injection Hcfg).
      destruct (IH p1 (after_call engine p w (take (frameSize p) (inputBuffer p))))
        as (p' & w' & frames & Hloop & Hcfg' & Hcat & Hlen & Hrest & Hlog).
      { by rewrite (initialized_config _ _ Hcfg). }
      { lia. }
      { rewrite Hib, length_drop. lia. }
      exists p', w', (take (frameSize p) (inputBuffer p) :: frames).
      split; [done|]. split; [congruence|]. rewrite HF1 in *.
      repeat split.
      * cbn [concat]. rewrite <- app_assoc, <- Hcat, Hib.
        by rewrite take_drop.
      * constructor; [rewrite length_take; lia|done].
      * done.
      * rewrite Hlog. unfold after_call. cbn [calls].
        rewrite engine_frames_snoc. cbn [map]. by rewrite <- app_assoc.
    + apply Nat.leb_gt in Hc. exists p, w, [].
      repeat split; [constructor|lia|]. by rewrite app_nil_r.
Qed.

(** With a frame size of zero the loop test never fails: whatever the
    bound, the bounded loop runs out of iterations. *)
Lemma process_loop_zero_frame_size (fuel : nat) (p : Processor) (w : Wasm) :
  initialized p = true ->
  frameSize p = 0 ->
  process_loop engine fuel p w = Diverged.
Proof.
  revert p w. induction fuel as [|fuel IH]; intros p w Hi HF.
  - cbn [process_loop]. by rewrite (proj2 (Nat.leb_le _ _)) by lia.
  - cbn [process_loop]. rewrite (proj2 (Nat.leb_le _ _)) by lia.
    destruct (process_one_frame_ready engine p w Hi)
      as (p1 & pf & vad & _ & Hone & Hcfg & _); [lia|].
    rewrite Hone. cbn [obind]. apply IH.
    + by rewrite (initialized_config _ _ Hcfg).
    + injection Hcfg as _ _ HF1 _ _ _ _ _ _. congruence.
Qed.

(** One Ready callback with input. *)
Lemma process_extracts (p : Processor) (w : Wasm) (inputs outputs : audio) :
  lifecycle p = Ready ->
  0 < frameSize p ->
  has_input inputs ->
  exists outs p' w' frames,
    process engine p w inputs outputs = Done (true, outs, p', w')
    /\ config p' = config p
    /\ extracted (frameSize p)
                 (inputBuffer p ++ mergeChannels (default [] (inputs !! 0)))
                 w w' p' frames.
Proof.
  intros Hl HF (channel & channels & Hin).
  assert (isDestroy p = false /\ initialized p = true) as [Hd Hi].
  { unfold lifecycle in Hl. destruct (isDestroy p); [done|].
    by destruct (initialized p). }
  unfold process. rewrite Hd, Hi, Hin. cbn [negb default].
  set (q := set_inputBuffer (inputBuffer p ++ mergeChannels (channel :: channels)) p).
  destruct (process_loop_extracts (length (inputBuffer q)) q w)
    as (p1 & w1 & frames & Hloop & Hcfg & Hex); [done|done|done|].
  rewrite Hloop. cbn [obind]. rewrite outputToChannels_spec.
  eexists _, _, w1, frames. split; [reflexivity|]. split; [exact Hcfg|].
  exact Hex.
Qed.

Lemma lifecycle_config (p p' : Processor) :
  config p' = config p -> lifecycle p' = lifecycle p.
Proof.
  intros H. unfold lifecycle. rewrite (initialized_config _ _ H).
  by injection H as ->.
Qed.

Lemma run_callbacks_extracts (cbs : list (audio * audio)) (p : Processor) (w : Wasm) :
  lifecycle p = Ready ->
  0 < frameSize p ->
  length (inputBuffer p) < frameSize p ->
  Forall (fun cb => has_input cb.1) cbs ->
  exists p' w' frames,
    run_callbacks engine cbs p w = Done (p', w')
    /\ config p' = config p
    /\ extracted (frameSize p)
                 (inputBuffer p ++ concat (map callback_samples cbs))
                 w w' p' frames.
Proof.
  revert p w. induction cbs as [|cb cbs IH]; intros p w Hl HF Hinv Hall.
  - exists p, w, []. cbn [run_callbacks map concat].
    repeat split; [by rewrite app_nil_r|constructor|done|by rewrite app_nil_r].
  - inversion Hall as [|? ? Hcb Hall']; subst.
    destruct (process_extracts p w cb.1 cb.2 Hl HF Hcb)
      as (outs & p1 & w1 & frames1 & Hp & Hcfg1 & Hcat1 & Hlen1 & Hrest1 & Hlog1).
    assert (frameSize p1 = frameSize p) as HF1 by (by injection Hcfg1).
    destruct (IH p1 w1) as (p' & w' & frames2 & Hrun & Hcfg2 & Hcat2 & Hlen2 & Hrest2 & Hlog2).
    { by rewrite (lifecycle_config _ _ Hcfg1). }
    { lia. }
    { lia. }
    { done. }
    exists p', w', (frames1 ++ frames2).
    cbn [run_callbacks]. rewrite Hp. cbn [obind fst snd].
    split; [done|]. split; [congruence|]. rewrite HF1 in *.
    repeat split.
    + cbn [map concat]. rewrite concat_app, <- app_assoc, <- Hcat2.
      rewrite !app_assoc. f_equal. exact Hcat1.
    + by apply Forall_app.
    + done.
    + rewrite Hlog2, Hlog1, map_app. by rewrite <- app_assoc.
Qed.

End Extraction.

(** Frames of [size] samples followed by fewer than [size] samples split a
    stream of [N] samples at [size * (N / size)]. *)
Lemma frames_count (size : nat) (all rest : list float) (frames : list (list float)) :
  0 < size ->
  all = concat frames ++ rest ->
  Forall (fun frame => length frame = size) frames ->
  length rest < size ->
  length frames = length all / size
  /\ length rest = length all mod size
  /\ concat frames = take (size * (length all / size)) all
  /\ rest = drop (size * (length all / size)) all.
Proof.
  intros Hs -> Hall Hrest.
  assert (length (concat frames) = size * length frames) as Hcl.
  { induction Hall as [|frame frames Hf _ IH]; cbn [concat length]; [lia|].
    rewrite length_app, IH, Hf. lia. }
  assert (length (concat frames ++ rest) = size * length frames + length rest) as HN
    by (rewrite length_app; lia).
  assert (length frames = length (concat frames ++ rest) / size) as Hq.
  { rewrite HN. apply Nat.div_unique with (length rest); lia. }
  assert (length rest = length (concat frames ++ rest) mod size) as Hr.
  { rewrite HN. apply Nat.mod_unique with (length frames); lia. }
  rewrite <- Hq, <- Hcl.
  split; [done|]. split; [done|].
  by rewrite take_app_length, drop_app_length.
Qed.

(** Frames of one positive size are determined by their concatenation. *)
Lemma concat_frames_inj (size : nat) (fs1 fs2 : list (list float)) :
  0 < size ->
  Forall (fun frame => length frame = size) fs1 ->
  Forall (fun frame => length frame = size) fs2 ->
  concat fs1 = concat fs2 ->
  fs1 = fs2.
Proof.
  intros Hs H1. revert fs2.
  induction H1 as [|f1 fs1 Hf1 _ IH]; intros fs2 H2 Heq.
  - destruct H2 as [|f2 fs2 Hf2 _]; [done|].
    cbn [concat] in Heq. apply (f_equal length) in Heq.
    rewrite length_app in Heq. simpl in Heq. lia.
  - destruct H2 as [|f2 fs2 Hf2 H2].
    + cbn [concat] in Heq. apply (f_equal length) in Heq.
      rewrite length_app in Heq. simpl in Heq. lia.
    + cbn [concat] in Heq. apply app_inj_1 in Heq as [-> Heq]; [|congruence].
      f_equal. by apply IH.
Qed.

(** C2. On a Ready processor with a positive frame size and an empty input
    queue, any run of callbacks delivering [N] samples in total hands the
    engine exactly [N / F] frames of exactly [F] samples each, which are the
    delivered samples in order (converted to the engine domain), and leaves
    the last [N mod F] samples, fewer than [F], in the input queue; any
    other run of callbacks delivering the same samples, however split,
    hands the engine the same frames and leaves the same queue. *)
Theorem C2_frame_extraction :
  forall (E : Type)
         (engine : E -> Z -> list float -> E * option ((nat -> float) * float))
         (p : Processor) (w : Wasm) (cbs : list (audio * audio)),
    lifecycle p = Ready ->
    0 < frameSize p ->
    inputBuffer p = [] ->
    Forall (fun cb => has_input cb.1) cbs ->
    exists p' w' frames,
      run_callbacks engine cbs p w = Done (p', w')
      /\ engine_frames (calls w')
         = engine_frames (calls w) ++ map (map toEngineDomain) frames
      /\ length frames = length (concat (map callback_samples cbs)) / frameSize p
      /\ Forall (fun frame => length frame = frameSize p) frames
      /\ concat frames
         = take (frameSize p
                 * (length (concat (map callback_samples cbs)) / frameSize p))
                (concat (map callback_samples cbs))
      /\ inputBuffer p'
         = drop (frameSize p
                 * (length (concat (map callback_samples cbs)) / frameSize p))
                (concat (map callback_samples cbs))
      /\ length (inputBuffer p')
         = length (concat (map callback_samples cbs)) mod frameSize p
      /\ length (inputBuffer p') < frameSize p
      /\ (forall cbs2 : list (audio * audio),
            Forall (fun cb => has_input cb.1) cbs2 ->
            concat (map callback_samples cbs2) = concat (map callback_samples cbs) ->
            exists p2 w2,
              run_callbacks engine cbs2 p w = Done (p2, w2)
              /\ inputBuffer p2 = inputBuffer p'
              /\ engine_frames (calls w2) = engine_frames (calls w')).
Proof.
  intros E engine p w cbs Hl HF Hempty Hall.
  assert (length (inputBuffer p) < frameSize p) as Hinv
    by (rewrite Hempty; simpl; lia).
  destruct (run_callbacks_extracts engine cbs p w Hl HF Hinv Hall) as
    (p' & w' & frames & Hrun & _ & Hcat & Hlen & Hrest & Hlog).
  rewrite Hempty in Hcat. cbn [app] in Hcat.
  destruct (frames_count (frameSize p) _ _ _ HF Hcat Hlen Hrest)
    as (Hq & Hr & Htake & Hdrop).
  exists p', w', frames. repeat split; try done.
  intros cbs2 Hall2 Hsame.
  destruct (run_callbacks_extracts engine cbs2 p w Hl HF Hinv Hall2) as
    (p2 & w2 & frames2 & Hrun2 & _ & Hcat2 & Hlen2 & Hrest2 & Hlog2).
  rewrite Hempty, Hsame in Hcat2. cbn [app] in Hcat2.
  destruct (frames_count (frameSize p) _ _ _ HF Hcat2 Hlen2 Hrest2)
    as (_ & _ & Htake2 & Hdrop2).
  exists p2, w2. split; [done|]. split; [congruence|].
  rewrite Hlog, Hlog2. do 2 f_equal.
  apply (concat_frames_inj (frameSize p)); try done. congruence.
Qed.

(** ** SilenceGate *)

Lemma fadd_sum_below (t : float) (k : nat) (x v : float) :
  x = fzero /\ k = 0 \/ sum_below t k x ->
  flt v t = true ->
  sum_below t (S k) (fadd x v).
Proof.
  intros Hx Hv. unfold sum_below.
  destruct v as [q| | |]; [|by destruct t| |by destruct t].
  - assert (forall b, t = Fin b -> (q < b)%Qc) as Hq.
    { intros b ->. cbn [flt] in Hv. by apply bool_decide_eq_true_1 in Hv. }
    destruct Hx as [[-> ->]|[->|(a & -> & Ha)]]; [right|by left|right].
    + exists q. unfold fzero. cbn [fadd]. rewrite Qcplus_0_l. split; [done|].
      intros b Hb. rewrite Qc_of_nat_S. change (Qc_of_nat 0) with (Qc_of_Z 0).
      rewrite Z2Qc_inj_0, Qcplus_0_l, Qcmult_1_l. by apply Hq.
    + exists (a + q)%Qc. split; [done|]. intros b Hb.
      rewrite Qc_of_nat_S, Qcmult_plus_distr_l, Qcmult_1_l.
      apply Qclt_trans with (Qc_of_nat k * b + q)%Qc.
      * apply Qcplus_lt_mono_r. by apply Ha.
      * apply Qcplus_lt_mono_l. by apply Hq.
  - left. by destruct Hx as [[-> ->]|[->|(a & -> & Ha)]].
Qed.

Lemma foldl_sum_below (t : float) (h : list float) (k : nat) (x : float) :
  sum_below t k x ->
  Forall (fun v => flt v t = true) h ->
  sum_below t (k + length h) (foldl fadd x h).
Proof.
  revert k x. induction h as [|v h IH]; intros k x Hx Hall.
  - cbn [foldl length]. by rewrite Nat.add_0_r.
  - inversion Hall as [|? ? Hv Hall']; subst. cbn [foldl length].
    replace (k + S (length h)) with (S k + length h) by lia.
    apply IH; [|done]. apply fadd_sum_below; [by right|done].
Qed.

(** The mean of a non-empty window of scores below the threshold is below
    the threshold. *)
Lemma mean_below (t : float) (h : list float) :
  h <> [] ->
  Forall (fun v => flt v t = true) h ->
  flt (mean h) t = true.
Proof.
  intros Hne Hall. destruct h as [|v h]; [done|]. clear Hne.
  inversion Hall as [|? ? Hv Hall']; subst.
  assert (sum_below t (length (v :: h)) (foldl fadd fzero (v :: h))) as Hsum.
  { cbn [foldl length]. change (S (length h)) with (1 + length h).
    apply foldl_sum_below; [|done]. apply fadd_sum_below; [by left|done]. }
  unfold mean. set (n := length (v :: h)) in *.
  assert (0 < n) as Hn by (unfold n; simpl; lia).
  destruct Hsum as [->|(a & -> & Ha)].
  - rewrite fdiv_count_NInf by done.
    destruct t as [b| | |]; try done; by destruct v.
  - rewrite fdiv_count_Fin by done.
    destruct t as [b| | |]; try done; try by destruct v.
    cbn [flt]. apply bool_decide_eq_true_2.
    pose proof (Qc_of_nat_pos n Hn) as Hpos.
    apply (Qcmult_lt_mono_pos_l _ _ (Qc_of_nat n) Hpos).
    rewrite Qcmult_div_r; [by apply Ha|].
    intros Heq. rewrite Heq in Hpos. by apply Qclt_not_eq in Hpos.
Qed.

Lemma slide_below (t : float) (h : list float) (vad : float) :
  Forall (fun v => flt v t = true) h ->
  flt vad t = true ->
  slide h vad <> [] /\ Forall (fun v => flt v t = true) (slide h vad).
Proof.
  intros Hall Hv.
  assert (Forall (fun v => flt v t = true) (h ++ [vad])) as Hall'
    by (apply Forall_app; split; [done|by constructor]).
  unfold slide. destruct (5 <? length (h ++ [vad])) eqn:Hc.
  - apply Nat.ltb_lt in Hc. destruct (h ++ [vad]) as [|x [|y l]]; simpl in Hc;
      try lia. cbn [tail]. split; [done|]. by inversion Hall'.
  - split; [by destruct h|done].
Qed.

Section Gate.

Context {E : Type}.
Variable engine : E -> Z -> list float -> E * option ((nat -> float) * float).

Lemma processFrame_config (p p' : Processor) (w : Wasm) (frame : list float) :
  config p' = config p ->
  processFrame engine p' w frame = processFrame engine p w frame.
Proof.
  intros Hc. unfold processFrame, engine_path.
  rewrite (initialized_config _ _ Hc).
  injection Hc as Hd Hm HF Hs Hi Ho Hmem Ht Hx.
  by rewrite HF, Hs, Hi, Ho.
Qed.

Lemma frame_results_config (p p' : Processor) (w : Wasm)
      (frames : list (list float)) :
  config p' = config p ->
  frame_results engine p' w frames = frame_results engine p w frames.
Proof.
  intros Hc. revert w. induction frames as [|frame frames IH]; intros w; [done|].
  cbn [frame_results]. rewrite (processFrame_config _ _ _ _ Hc).
  destruct (processFrame engine p w frame) as [[[pf vad] w']| |]; [|done|done].
  by rewrite IH.
Qed.

Lemma frame_results_length (p : Processor) (w : Wasm) (frames : list (list float)) :
  length (frame_results engine p w frames) = length frames.
Proof.
  revert w. induction frames as [|frame frames IH]; intros w; [done|].
  cbn [frame_results].
  destruct (processFrame_returns engine p w frame) as [[[pf vad] w'] ->].
  cbn [length]. by rewrite IH.
Qed.

(** A Ready processor run over whole frames whose VAD scores are all below
    the threshold: every frame raises the counter, and only the first
    [maxSilenceFrames - silenceCounter] frames reach the output queue. *)
Lemma process_loop_quiet (frames : list (list float)) (fuel : nat)
      (p : Processor) (w : Wasm) :
  initialized p = true ->
  0 < frameSize p ->
  Forall (fun frame => length frame = frameSize p) frames ->
  inputBuffer p = concat frames ->
  Forall (fun v => flt v (silenceThreshold p) = true) (vadHistory p) ->
  Forall (fun r => flt r.2 (silenceThreshold p) = true)
         (frame_results engine p w frames) ->
  length frames <= fuel ->
  exists p' w',
    process_loop engine fuel p w = Done (p', w')
    /\ inputBuffer p' = []
    /\ silenceCounter p' = silenceCounter p + length frames
    /\ outputBuffer p' =
         outputBuffer p
         ++ concat (map fst (take (maxSilenceFrames p - silenceCounter p)
                                  (frame_results engine p w frames))).
Proof.
  revert fuel p w.
  induction frames as [|frame frames IH]; intros fuel p w Hi HF Hlen Hbuf Hwin Hq Hfuel.
  - exists p, w. cbn [concat] in Hbuf.
    assert (process_loop engine fuel p w = Done (p, w)) as ->.
    { destruct fuel; cbn [process_loop]; rewrite Hbuf;
        by rewrite (proj2 (Nat.leb_gt _ _)) by (simpl; lia). }
    cbn [frame_results length]. rewrite take_nil. cbn [map concat].
    by rewrite app_nil_r, Nat.add_0_r.
  - inversion Hlen as [|? ? Hfl Hlen']; subst.
    destruct fuel as [|fuel]; [simpl in Hfuel; lia|].
    cbn [concat] in Hbuf.
    assert (frameSize p <= length (inputBuffer p)) as Hfull
      by (rewrite Hbuf, length_app; lia).
    assert (take (frameSize p) (inputBuffer p) = frame) as Htake
      by (by rewrite Hbuf, take_app_length').
    assert (drop (frameSize p) (inputBuffer p) = concat frames) as Hdrop
      by (by rewrite Hbuf, drop_app_length').
    destruct (process_one_frame_ready engine p w Hi Hfull)
      as (p1 & pf & vad & Hpf & Hone & Hcfg & Hib & Hvh & Hsc & Hob).
    rewrite Htake in *. rewrite Hdrop in Hib.
    cbn [frame_results] in Hq. rewrite Hpf in Hq.
    apply Forall_cons_iff in Hq as [Hvad Hq']. cbn [snd] in Hvad.
    destruct (slide_below _ _ _ Hwin Hvad) as [Hne Hwin1].
    rewrite (mean_below _ _ Hne Hwin1) in Hsc.
    assert (silenceThreshold p1 = silenceThreshold p
            /\ frameSize p1 = frameSize p
            /\ maxSilenceFrames p1 = maxSilenceFrames p) as (Ht1 & HF1 & Hm1)
      by (by injection Hcfg).
    destruct (IH fuel p1 (after_call engine p w frame))
      as (p' & w' & Hloop & Hib' & Hsc' & Hob').
    { by rewrite (initialized_config _ _ Hcfg). }
    { lia. }
    { by rewrite HF1. }
    { done. }
    { by rewrite Ht1, Hvh. }
    { by rewrite Ht1, (frame_results_config _ _ _ _ Hcfg). }
    { simpl in Hfuel. lia. }
    exists p', w'. cbn [process_loop].
    rewrite (proj2 (Nat.leb_le _ _) Hfull), Hone. cbn [obind].
    split; [done|]. split; [done|]. split; [rewrite Hsc', Hsc; simpl; lia|].
    rewrite Hob', Hob, Hsc, Hm1, (frame_results_config _ _ _ _ Hcfg).
    cbn [frame_results]. rewrite Hpf.
    destruct (maxSilenceFrames p <? S (silenceCounter p)) eqn:Hskip.
    + apply Nat.ltb_lt in Hskip.
      replace (maxSilenceFrames p - silenceCounter p) with 0 by lia.
      by replace (maxSilenceFrames p - S (silenceCounter p)) with 0 by lia.
    + apply Nat.ltb_ge in Hskip.
      replace (maxSilenceFrames p - silenceCounter p)
        with (S (maxSilenceFrames p - S (silenceCounter p))) by lia.
      cbn [take map concat fst]. by rewrite <- app_assoc.
Qed.

End Gate.

(** C1 (amended). On a Ready processor with [maxSilenceFrames = 2], an empty
    VAD window and a zero counter, five full frames whose VAD scores stay
    below the threshold leave the counter at 5 and only frames 1 and 2 in
    the output queue: frames 3, 4 and 5 meet the gate with counter values 3,
    4 and 5 and are dropped.  In every iteration the frame is dropped
    exactly when the counter, as [updateVadHistory] just left it, exceeds
    [maxSilenceFrames]. *)
Theorem C1_silence_gate_drops_after_max :
  forall (E : Type)
         (engine : E -> Z -> list float -> E * option ((nat -> float) * float))
         (p : Processor) (w : Wasm) (f1 f2 f3 f4 f5 : list float) (fuel : nat),
    lifecycle p = Ready ->
    0 < frameSize p ->
    Forall (fun frame => length frame = frameSize p) [f1; f2; f3; f4; f5] ->
    inputBuffer p = f1 ++ f2 ++ f3 ++ f4 ++ f5 ->
    vadHistory p = [] ->
    silenceCounter p = 0 ->
    maxSilenceFrames p = 2 ->
    Forall (fun r => flt r.2 (silenceThreshold p) = true)
           (frame_results engine p w [f1; f2; f3; f4; f5]) ->
    5 <= fuel ->
    (exists p' w' r1 r2 r3 r4 r5,
        process_loop engine fuel p w = Done (p', w')
        /\ frame_results engine p w [f1; f2; f3; f4; f5] = [r1; r2; r3; r4; r5]
        /\ outputBuffer p' = outputBuffer p ++ r1.1 ++ r2.1
        /\ silenceCounter p' = 5
        /\ inputBuffer p' = [])
    /\ (forall (q : Processor) (wq : Wasm),
          initialized q = true ->
          frameSize q <= length (inputBuffer q) ->
          exists q' wq' processedFrame vad,
            process_one_frame engine q wq = Done (q', wq')
            /\ processFrame engine q wq (take (frameSize q) (inputBuffer q))
               = Done (processedFrame, vad, wq')
            /\ silenceCounter q'
               = silenceCounter (updateVadHistory vad q)
            /\ outputBuffer q' =
                 (if maxSilenceFrames q <? silenceCounter q'
                  then outputBuffer q
                  else outputBuffer q ++ processedFrame)).
Proof.
  intros E engine p w f1 f2 f3 f4 f5 fuel Hl HF Hlen Hbuf Hvh Hsc Hmax Hq Hfuel.
  assert (initialized p = true) as Hi.
  { unfold lifecycle in Hl. destruct (isDestroy p); [done|].
    by destruct (initialized p). }
  split.
  - destruct (process_loop_quiet engine [f1; f2; f3; f4; f5] fuel p w)
      as (p' & w' & Hloop & Hib & Hsc' & Hob); try done.
    { cbn [concat]. by rewrite app_nil_r. }
    { rewrite Hvh. constructor. }
    pose proof (frame_results_length engine p w [f1; f2; f3; f4; f5]) as Hn.
    destruct (frame_results engine p w [f1; f2; f3; f4; f5])
      as [|r1 [|r2 [|r3 [|r4 [|r5 [|r6 rs]]]]]]; try discriminate Hn.
    exists p', w', r1, r2, r3, r4, r5.
    rewrite Hsc, Hmax in *. cbn [Nat.sub take map concat] in Hob.
    rewrite app_nil_r in Hob. done.
  - intros q wq Hqi Hfull.
    destruct (process_one_frame_ready engine q wq Hqi Hfull)
      as (q' & pf & vad & Hpf & Hone & _ & _ & _ & Hc & Hob).
    exists q', (after_call engine q wq (take (frameSize q) (inputBuffer q))), pf, vad.
    split; [done|]. split; [done|]. split; [|done].
    by rewrite Hc, updateVadHistory_silenceCounter.
Qed.

(** C1 as stated fails: with [maxSilenceFrames = 2] the third silent frame
    already meets the gate with counter 3 and is dropped, so the output
    queue holds frames 1 and 2 only. *)
Lemma C1_third_silent_frame_is_dropped :
  Forall (fun r => flt r.2 (Fin (Q2Qc (1 # 10))) = true)
         (frame_results (echo_engine fzero)
            (gated_processor [sample 1; sample 2; sample 3; sample 4; sample 5])
            (mkWasm tt [])
            [[sample 1]; [sample 2]; [sample 3]; [sample 4]; [sample 5]])
  /\ exists p' w',
       process_loop (echo_engine fzero) 5
                    (gated_processor [sample 1; sample 2; sample 3; sample 4; sample 5])
                    (mkWasm tt [])
       = Done (p', w')
       /\ outputBuffer p' = [sample 1; sample 2]
       /\ outputBuffer p' <> [sample 1; sample 2; sample 3]
       /\ silenceCounter p' = 5.
Proof.
  split; [repeat constructor|].
  eexists _, _. split; [vm_compute; reflexivity|].
  split; [by_eval|]. split; [|reflexivity].
  intros H. apply (f_equal length) in H. discriminate H.
Qed.

(** ** The theorems at concrete inputs *)

(** C1 on five one-sample frames through an engine that echoes its input
    and reports a VAD score of 0, against the threshold 0.1. *)
Lemma C1_silence_gate_witness :
  lifecycle (gated_processor [sample 1; sample 2; sample 3; sample 4; sample 5]) = Ready
  /\ (exists p' w',
        process_loop (echo_engine fzero) 5
          (gated_processor [sample 1; sample 2; sample 3; sample 4; sample 5])
          (mkWasm tt []) = Done (p', w')
        /\ silenceCounter p' = 5
        /\ inputBuffer p' = [])
  /\ (exists q' wq',
        process_one_frame (echo_engine fzero) (gated_processor [sample 1])
                          (mkWasm tt []) = Done (q', wq')).
Proof.
  split; [reflexivity|].
  destruct (C1_silence_gate_drops_after_max unit (echo_engine fzero)
              (gated_processor [sample 1; sample 2; sample 3; sample 4; sample 5])
              (mkWasm tt []) [sample 1] [sample 2] [sample 3] [sample 4] [sample 5] 5)
    as [(p' & w' & r1 & r2 & r3 & r4 & r5 & Hloop & _ & _ & Hsc & Hib) Hgate].
  - reflexivity.
  - simpl; lia.
  - repeat constructor.
  - reflexivity.
  - reflexivity.
  - reflexivity.
  - reflexivity.
  - repeat constructor.
  - lia.
  - split.
    + exists p', w'. repeat split; assumption.
    + destruct (Hgate (gated_processor [sample 1]) (mkWasm tt []))
        as (q' & wq' & pf & vad & Hone & _); [reflexivity|simpl; lia|].
      exists q', wq'. exact Hone.
Defined.

(** C2 on two callbacks delivering 1 and 2 samples to an engine with frame
    size 2, against one callback delivering the same 3 samples: one frame is
    extracted and one sample stays queued either way. *)
Lemma C2_frame_extraction_witness :
  lifecycle (ready_processor 2) = Ready
  /\ exists p' w' frames p2 w2,
       run_callbacks (echo_engine fone)
         [([[[sample 1]]], []); ([[[sample 2; sample 3]]], [])]
         (ready_processor 2) (mkWasm tt []) = Done (p', w')
       /\ length frames = 1
       /\ engine_frames (calls w') = map (map toEngineDomain) frames
       /\ length (inputBuffer p') = 1
       /\ run_callbacks (echo_engine fone)
            [([[[sample 1; sample 2; sample 3]]], [])]
            (ready_processor 2) (mkWasm tt []) = Done (p2, w2)
       /\ inputBuffer p2 = inputBuffer p'
       /\ engine_frames (calls w2) = engine_frames (calls w').
Proof.
  split; [reflexivity|].
  destruct (C2_frame_extraction unit (echo_engine fone) (ready_processor 2)
              (mkWasm tt [])
              [([[[sample 1]]], []); ([[[sample 2; sample 3]]], [])])
    as (p' & w' & frames & Hrun & Hlog & Hn & _ & _ & _ & Hrest & _ & Hsplit).
  - reflexivity.
  - simpl; lia.
  - reflexivity.
  - repeat constructor; eexists _, _; reflexivity.
  - destruct (Hsplit [([[[sample 1; sample 2; sample 3]]], [])])
      as (p2 & w2 & Hrun2 & Hib2 & Hlog2).
    + repeat constructor; eexists _, _; reflexivity.
    + reflexivity.
    + exists p', w', frames, p2, w2. repeat split; assumption.
Defined.

(** C3 on two channels that share a finite column and a NaN column. *)
Lemma C3_mergeChannels_witness :
  2 <= length [[fone; NaN]; [fzero; NaN]]
  /\ mergeChannels [[fone; NaN]; [fzero; NaN]] !! 1 = Some fzero
  /\ mergeChannels [[fone; NaN]; [fzero; NaN]] !! 0
     = Some (Fin (Qc_mean [1%Qc; 0%Qc])).
Proof.
  destruct (C3_mergeChannels_mean_of_finite [[fone; NaN]; [fzero; NaN]])
    as [H _].
  assert (2 <= length [[fone; NaN]; [fzero; NaN]]) as Hlen by (simpl; lia).
  destruct (H Hlen) as [_ Hi].
  split; [exact Hlen|].
  split; [apply (Hi 1); simpl; lia | apply (Hi 0); simpl; lia].
Defined.

(** C4 on the processor the constructor builds, with a shorter and a longer
    destination channel. *)
Lemma C4_passthrough_witness :
  isDestroy new_processor = false
  /\ initialized new_processor = false
  /\ process failing_engine new_processor (mkWasm tt [])
       [[[fone; fminus_one]]] [[[NaN]; [fzero; fzero; fzero]]]
     = Done (true, [[[fone]; [fone; fminus_one; fzero]]], new_processor,
             mkWasm tt [])
  /\ take (length [fzero; fzero; fzero]) [fone; fminus_one]
     ++ drop (length [fone; fminus_one]) [fzero; fzero; fzero]
     = take 3 ([fone; fminus_one] ++ replicate (3 - length [fone; fminus_one]) fzero).
Proof.
  split; [reflexivity|]. split; [reflexivity|].
  destruct (C4_passthrough_when_uninitialized unit failing_engine new_processor
              (mkWasm tt []) [[[fone; fminus_one]]] [[[NaN]; [fzero; fzero; fzero]]])
    as (Hpass & Hzero & _); [reflexivity|reflexivity|].
  split; [exact Hpass|].
  apply (Hzero [fone; fminus_one] [fzero; fzero; fzero] 3). reflexivity.
Defined.

(** C5 on an initialized adapter whose engine throws, for a frame of the
    engine's size, and on the adapter of a fresh processor. *)
Lemma C5_processFrame_witness :
  initialized (ready_processor 2) = true
  /\ length [fone; fzero] = frameSize (ready_processor 2)
  /\ (exists w',
        processFrame failing_engine (ready_processor 2) (mkWasm tt []) [fone; fzero]
        = Done ([fone; fzero], fzero, w'))
  /\ initialized new_processor = false
  /\ processFrame failing_engine new_processor (mkWasm tt []) [fone]
     = Done ([fone], fzero, mkWasm tt []).
Proof.
  split; [reflexivity|]. split; [reflexivity|].
  destruct (C5_processFrame_never_throws unit failing_engine (ready_processor 2)
              (mkWasm tt []) [fone; fzero]) as (_ & _ & Hcatch & Hid).
  destruct (C5_processFrame_never_throws unit failing_engine new_processor
              (mkWasm tt []) [fone]) as (_ & Huninit & _).
  split; [|split; [reflexivity|apply Huninit; reflexivity]].
  eexists. rewrite <- (Hid eq_refl) at 2.
  apply Hcatch; reflexivity.
Defined.

(** C6 on the fresh processor fed the constant scores 0 (below the
    threshold 0.1) and 1 (above it). *)
Lemma C6_updateVadHistory_witness :
  vadHistory new_processor = replicate 0 fzero
  /\ flt fzero (silenceThreshold new_processor) = true
  /\ flt fone (silenceThreshold new_processor) = false
  /\ silenceCounter (feed_vads (replicate 7 fzero) new_processor) = 7
  /\ silenceCounter (feed_vads (replicate 7 fone) new_processor) = 0
  /\ vadHistory (updateVadHistory fone new_processor) = [fone]
  /\ length (vadHistory (updateVadHistory fone new_processor)) <= 5.
Proof.
  destruct (C6_updateVadHistory_window_and_counter new_processor fone)
    as (_ & Hlen & _ & Hconst).
  assert (flt fzero (silenceThreshold new_processor) = true) as Hlow
    by (vm_compute; reflexivity).
  assert (flt fone (silenceThreshold new_processor) = false) as Hhigh
    by (vm_compute; reflexivity).
  split; [reflexivity|]. split; [exact Hlow|]. split; [exact Hhigh|].
  assert (length (vadHistory new_processor) <= 5) as Hfive by (simpl; lia).
  split; [|split; [|split]].
  - apply (proj1 (Hconst fzero 0 7 eq_refl) Hlow).
  - apply (proj2 (Hconst fone 0 7 eq_refl) Hhigh). lia.
  - apply (proj1 (Hlen Hfive)).
  - apply (proj2 (Hlen Hfive)).
Defined.

(** C7 on a Ready processor. *)
Lemma C7_destroy_witness :
  lifecycle (ready_processor 2) = Ready
  /\ rnnoiseModule (ready_processor 2) = Some ready_exports
  /\ calls (destroy engine_release engine_release (ready_processor 2)
                    (mkWasm tt [])).2
     = [CallDestroy 1; CallFree 8; CallFree 16].
Proof.
  split; [reflexivity|]. split; [reflexivity|].
  destruct (C7_destroy_idempotent unit engine_release engine_release failing_engine
              (ready_processor 2) (mkWasm tt []))
    as (_ & _ & _ & _ & Hready & _).
  apply (Hready eq_refl eq_refl).
Defined.

(** C8 on a queue of two samples served to destinations of three samples,
    and on an empty queue. *)
Lemma C8_outputToChannels_witness :
  Forall (Forall (fun channel : list float =>
                    length (outputBuffer (set_outputBuffer [fone; fminus_one] new_processor))
                    <= length channel))
         [[[NaN; NaN; NaN]; [fzero; fzero; fzero]]]
  /\ outputToChannels (set_outputBuffer [fone; fminus_one] new_processor)
                      [[[NaN; NaN; NaN]; [fzero; fzero; fzero]]]
     = (set_outputBuffer [] (set_outputBuffer [fone; fminus_one] new_processor),
        [[[fone; fminus_one; NaN]; [fone; fminus_one; fzero]]])
  /\ outputToChannels new_processor [[[NaN]]] = (new_processor, [[[NaN]]]).
Proof.
  assert (Forall (Forall (fun channel : list float =>
                    length (outputBuffer (set_outputBuffer [fone; fminus_one] new_processor))
                    <= length channel))
                 [[[NaN; NaN; NaN]; [fzero; fzero; fzero]]]) as Hall
    by (repeat constructor; simpl; lia).
  split; [exact Hall|]. split.
  - destruct (C8_outputToChannels_copies_available_prefix
                (set_outputBuffer [fone; fminus_one] new_processor)
                [[[NaN; NaN; NaN]; [fzero; fzero; fzero]]])
      as (_ & _ & _ & _ & Hfull & _).
    exact (Hfull Hall).
  - destruct (C8_outputToChannels_copies_available_prefix new_processor [[[NaN]]])
      as (_ & _ & _ & _ & _ & Hempty).
    exact (Hempty eq_refl).
Defined.

(** C9 on the sample 1/2 and on a frame through the echoing engine. *)
Lemma C9_scale_round_trip_witness :
  in_unit (sample 4)
  /\ fromEngineDomain (toEngineDomain (sample 4)) = sample 4
  /\ snd (engine_path (echo_engine fone) (ready_processor 2) (mkWasm tt [])
                      [sample 4; sample (-8)])
     = Done ([sample 4; sample (-8)], fone).
Proof.
  assert (in_unit (sample 4)) as H4.
  { exists (Q2Qc (4 # 8)). split; [reflexivity|]. split; by_eval. }
  assert (in_unit (sample (-8))) as H8.
  { exists (Q2Qc (-8 # 8)). split; [reflexivity|]. split; by_eval. }
  destruct (C9_scale_round_trip (sample 4) H4) as (_ & _ & Hrt & Hframe).
  split; [exact H4|]. split; [exact Hrt|].
  apply (Hframe unit (echo_engine fone) (ready_processor 2) (mkWasm tt [])
                [sample 4; sample (-8)] tt fone).
  - reflexivity.
  - repeat constructor; assumption.
  - reflexivity.
Defined.

(** C10 on a Ready processor with pending output and no input source. *)
Lemma C10_no_input_witness :
  isDestroy (set_outputBuffer [fone] (ready_processor 2)) = false
  /\ initialized (set_outputBuffer [fone] (ready_processor 2)) = true
  /\ process failing_engine (set_outputBuffer [fone] (ready_processor 2))
             (mkWasm tt []) [] [[[NaN; fone]]]
     = Done (true, [[[fzero; fzero]]], set_outputBuffer [fone] (ready_processor 2),
             mkWasm tt []).
Proof.
  split; [reflexivity|]. split; [reflexivity|].
  apply (C10_ready_without_input_outputs_silence unit failing_engine
           (set_outputBuffer [fone] (ready_processor 2)) (mkWasm tt []) []
           [[[NaN; fone]]]); [reflexivity|reflexivity|by left].
Defined.

(** * Further properties of the code *)

(** ** The render callback as a whole *)

Lemma shape_map (f : list float -> list float) (a : audio) :
  Forall (Forall (fun channel => length (f channel) = length channel)) a ->
  shape (map (map f) a) = shape a.
Proof.
  intros Hall. unfold shape. rewrite map_map. apply map_ext_Forall.
  eapply Forall_impl; [|exact Hall]. intros output Ho. simpl.
  rewrite map_map. apply map_ext_Forall. exact Ho.
Qed.

Lemma Forall_all {A} (P : A -> Prop) (l : list A) : (forall x, P x) -> Forall P l.
Proof. intros H. induction l; constructor; auto. Qed.

Lemma shape_outputPassthrough (inputs outputs outs : audio) :
  outputPassthrough inputs outputs = Done outs -> shape outs = shape outputs.
Proof.
  rewrite outputPassthrough_spec. intros [= <-].
  destruct inputs as [|[|src rest] inputs];
    apply shape_map; apply Forall_all; intros output; apply Forall_all;
    intros channel; rewrite ?length_replicate; try done.
  rewrite length_app, length_take, length_drop. lia.
Qed.

Lemma shape_outputToChannels (p : Processor) (outputs : audio) :
  shape (outputToChannels p outputs).2 = shape outputs.
Proof.
  rewrite outputToChannels_spec. cbn [snd]. apply shape_map.
  pose proof (samples_to_copy_le_buffer (outputBuffer p) outputs) as Hb.
  eapply Forall_impl; [|apply (samples_to_copy_le_channel (outputBuffer p))].
  intros output Ho. eapply Forall_impl; [|exact Ho]. intros channel Hc.
  simpl in *. rewrite length_app, length_take, length_drop. lia.
Qed.

Section Callback.

Context {E : Type}.
Variable engine : E -> Z -> list float -> E * option ((nat -> float) * float).

Lemma has_input_dec (inputs : audio) :
  has_input inputs \/ inputs !! 0 = None \/ inputs !! 0 = Some [].
Proof.
  unfold has_input. destruct (inputs !! 0) as [[|channel channels]|]; eauto.
Qed.

Lemma process_returns (p : Processor) (w : Wasm) (inputs outputs : audio) :
  ~ (lifecycle p = Ready /\ frameSize p = 0 /\ has_input inputs) ->
  exists continue outs p' w',
    process engine p w inputs outputs = Done (continue, outs, p', w').
Proof.
  intros Hnot. unfold process.
  destruct (isDestroy p) eqn:Hd; [eauto|].
  destruct (initialized p) eqn:Hi; cbn [negb].
  - assert (lifecycle p = Ready) as Hl by (unfold lifecycle; by rewrite Hd, Hi).
    destruct (has_input_dec inputs) as [Hin|[-> | ->]]; [|eauto|eauto].
    destruct (decide (frameSize p = 0)) as [HF|HF]; [by destruct Hnot|].
    destruct (process_extracts engine p w inputs outputs Hl) as
      (outs & p' & w' & frames & Hp & _); [lia|done|].
    unfold process in Hp. rewrite Hd, Hi in Hp. cbn [negb] in Hp. eauto.
  - rewrite outputPassthrough_spec. cbn [obind]. eauto.
Qed.

Lemma process_diverges (p : Processor) (w : Wasm) (inputs outputs : audio) :
  lifecycle p = Ready -> frameSize p = 0 -> has_input inputs ->
  process engine p w inputs outputs = Diverged.
Proof.
  intros Hl HF (channel & channels & Hin).
  assert (isDestroy p = false /\ initialized p = true) as [Hd Hi].
  { unfold lifecycle in Hl. destruct (isDestroy p); [done|].
    by destruct (initialized p). }
  unfold process. rewrite Hd, Hi, Hin. cbn [negb].
  by rewrite process_loop_zero_frame_size.
Qed.

Lemma process_shape (p : Processor) (w : Wasm) (inputs outputs : audio)
      (continue : bool) (outs : audio) (p' : Processor) (w' : Wasm) :
  process engine p w inputs outputs = Done (continue, outs, p', w') ->
  shape outs = shape outputs.
Proof.
  unfold process. destruct (isDestroy p); [by intros [= _ <- _ _]|].
  destruct (initialized p); cbn [negb].
  - destruct (inputs !! 0) as [[|channel channels]|].
    + intros [= _ <- _ _]. apply shape_map. apply Forall_all. intros output.
      apply Forall_all. intros ch. unfold fill_zero. by rewrite length_replicate.
    + destruct (process_loop _ _ _ _) as [[p1 w1]| |]; cbn [obind]; try done.
      pose proof (shape_outputToChannels p1 outputs) as Hs.
      destruct (outputToChannels p1 outputs) as [p2 outs2].
      by intros [= _ <- _ _].
    + intros [= _ <- _ _]. apply shape_map. apply Forall_all. intros output.
      apply Forall_all. intros ch. unfold fill_zero. by rewrite length_replicate.
  - destruct (outputPassthrough inputs outputs) as [outs1| |] eqn:Hp;
      cbn [obind]; try done.
    intros [= _ <- _ _]. by apply shape_outputPassthrough in Hp.
Qed.

End Callback.

(** X1. The render callback never lets an exception escape, and it returns
    in every state but one: on a Ready processor whose engine reported a
    frame size of 0 a callback with input never leaves the frame loop. *)
Theorem X1_process_returns_or_loops :
  forall (E : Type)
         (engine : E -> Z -> list float -> E * option ((nat -> float) * float))
         (p : Processor) (w : Wasm) (inputs outputs : audio),
    process engine p w inputs outputs <> Raised
    /\ (process engine p w inputs outputs = Diverged
        <-> lifecycle p = Ready /\ frameSize p = 0 /\ has_input inputs).
Proof.
  intros E engine p w inputs outputs.
  assert ((lifecycle p = Ready /\ frameSize p = 0 /\ has_input inputs)
          \/ ~ (lifecycle p = Ready /\ frameSize p = 0 /\ has_input inputs))
    as [Hloop|Hnot].
  { destruct (lifecycle p) eqn:Hl; try (right; by intros (H & _)).
    destruct (decide (frameSize p = 0)) as [HF|HF]; [|right; tauto].
    destruct (has_input_dec inputs) as [Hin|[Hin|Hin]]; [by left| |];
      right; intros (_ & _ & c & cs & Hc); congruence. }
  - destruct Hloop as (Hl & HF & Hin).
    rewrite (process_diverges engine p w inputs outputs Hl HF Hin).
    split; [done|]. split; [done|]. by intros _.
  - destruct (process_returns engine p w inputs outputs Hnot)
      as (b & outs & p' & w' & ->).
    split; [done|]. split; [done|]. intros H. by destruct Hnot.
Qed.

(** X2. Whatever the state and the input, a callback that returns hands
    back outputs of the shape it was given: the same destinations, the same
    channels, every channel with its length. *)
Theorem X2_process_keeps_output_shape :
  forall (E : Type)
         (engine : E -> Z -> list float -> E * option ((nat -> float) * float))
         (p : Processor) (w : Wasm) (inputs outputs : audio)
         (continue : bool) (outs : audio) (p' : Processor) (w' : Wasm),
    process engine p w inputs outputs = Done (continue, outs, p', w') ->
    map (map length) outs = map (map length) outputs.
Proof. intros E engine p w inputs outputs. apply process_shape. Qed.

(** ** ChannelMerger, beyond the mean *)

Lemma Qc_of_nat_neq_0 (n : nat) : 0 < n -> Qc_of_nat n <> 0%Qc.
Proof.
  intros Hn Heq. pose proof (Qc_of_nat_pos n Hn) as Hpos.
  rewrite Heq in Hpos. by apply Qclt_not_eq in Hpos.
Qed.

Lemma merge_sample_finite (channels : list (list float)) (i : nat) :
  isFinite (merge_sample channels i) = true.
Proof. rewrite merge_sample_spec. by destruct (finite_at channels i). Qed.

Lemma finite_at_replicate (channel : list float) (k i : nat) (q : Qc) :
  channel !! i = Some (Fin q) ->
  finite_at (replicate k channel) i = replicate k q.
Proof.
  intros Hq. induction k as [|k IH]; [done|].
  cbn [replicate]. by rewrite finite_at_cons, Hq, IH.
Qed.

Lemma Qc_sum_replicate (q : Qc) (k : nat) :
  Qc_sum (replicate k q) = (Qc_of_nat k * q)%Qc.
Proof.
  induction k as [|k IH].
  - cbn [replicate]. change (Qc_sum []) with 0%Qc.
    change (Qc_of_nat 0) with (Qc_of_Z 0). rewrite Z2Qc_inj_0. ring.
  - cbn [replicate]. rewrite Qc_sum_cons, IH, Qc_of_nat_S. ring.
Qed.

Lemma Qc_mean_replicate (q : Qc) (k : nat) :
  0 < k -> Qc_mean (replicate k q) = q.
Proof.
  intros Hk. unfold Qc_mean. rewrite Qc_sum_replicate, length_replicate.
  rewrite Qcmult_comm. apply Qcdiv_mult_l. by apply Qc_of_nat_neq_0.
Qed.

Lemma mergeChannels_copies (channel : list float) (k : nat) :
  0 < k ->
  Forall (fun x => isFinite x = true) channel ->
  mergeChannels (replicate k channel) = channel.
Proof.
  intros Hk Hfin. destruct k as [|[|k]]; [lia|done|].
  cbn [replicate mergeChannels]. apply list_eq. intros i.
  rewrite list_lookup_fmap.
  destruct (decide (i < length channel)) as [Hi|Hi].
  - rewrite lookup_seq_lt by done. cbn [fmap option_fmap option_map Nat.add].
    destruct (lookup_lt_is_Some_2 channel i Hi) as [x Hx].
    assert (isFinite x = true) as Hxf.
    { rewrite Forall_forall in Hfin. apply Hfin.
      apply list_elem_of_In. by apply list_elem_of_lookup_2 in Hx. }
    destruct x as [q| | |]; try done.
    change (channel :: channel :: replicate k channel)
      with (replicate (S (S k)) channel).
    rewrite merge_sample_spec, (finite_at_replicate _ _ _ _ Hx), Hx.
    cbn [replicate]. change (q :: q :: replicate k q) with (replicate (S (S k)) q).
    by rewrite Qc_mean_replicate by lia.
  - rewrite lookup_seq_ge by lia. by rewrite lookup_ge_None_2 by lia.
Qed.

Lemma Qc_sum_bounds (qs : list Qc) :
  Forall (fun q => (- 1 <= q)%Qc /\ (q <= 1)%Qc) qs ->
  (- Qc_of_nat (length qs) <= Qc_sum qs)%Qc
  /\ (Qc_sum qs <= Qc_of_nat (length qs))%Qc.
Proof.
  induction 1 as [|q qs [Hlo Hhi] _ [IHlo IHhi]].
  - change (Qc_sum []) with 0%Qc. cbn [length].
    change (Qc_of_nat 0) with (Qc_of_Z 0). rewrite Z2Qc_inj_0.
    split; [|apply Qcle_refl]. change (- 0)%Qc with 0%Qc. apply Qcle_refl.
  - rewrite Qc_sum_cons. cbn [length]. rewrite Qc_of_nat_S. split.
    + replace (- (Qc_of_nat (length qs) + 1))%Qc
        with (- 1 + - Qc_of_nat (length qs))%Qc by ring.
      by apply Qcplus_le_compat.
    + rewrite (Qcplus_comm (Qc_of_nat (length qs)) 1).
      by apply Qcplus_le_compat.
Qed.

Lemma Qc_mean_in_unit (qs : list Qc) :
  qs <> [] ->
  Forall (fun q => (- 1 <= q)%Qc /\ (q <= 1)%Qc) qs ->
  (- 1 <= Qc_mean qs)%Qc /\ (Qc_mean qs <= 1)%Qc.
Proof.
  intros Hne Hall. destruct (Qc_sum_bounds qs Hall) as [Hlo Hhi].
  assert (0 < length qs) as Hn by (destruct qs; [done|simpl; lia]).
  pose proof (Qc_of_nat_pos _ Hn) as Hpos.
  pose proof (Qc_of_nat_neq_0 _ Hn) as Hnz.
  unfold Qc_mean. split.
  - apply (Qcmult_le_mono_pos_l _ _ (Qc_of_nat (length qs)) Hpos).
    rewrite Qcmult_div_r by done.
    by replace (Qc_of_nat (length qs) * - 1)%Qc
      with (- Qc_of_nat (length qs))%Qc by ring.
  - apply (Qcmult_le_mono_pos_l _ _ (Qc_of_nat (length qs)) Hpos).
    rewrite Qcmult_div_r by done. by rewrite Qcmult_1_r.
Qed.

Lemma finite_at_in_unit (channels : list (list float)) (i : nat) :
  Forall (Forall (fun x => isFinite x = true -> in_unit x)) channels ->
  Forall (fun q => (- 1 <= q)%Qc /\ (q <= 1)%Qc) (finite_at channels i).
Proof.
  induction 1 as [|channel channels Hc _ IH]; [constructor|].
  rewrite finite_at_cons. destruct (channel !! i) as [[q| | |]|] eqn:Hq; try done.
  constructor; [|done].
  rewrite Forall_forall in Hc.
  destruct (Hc (Fin q)) as (q' & [= <-] & Hb); [|done|done].
  apply list_elem_of_In. by apply list_elem_of_lookup_2 in Hq.
Qed.

Lemma in_unit_fzero : in_unit fzero.
Proof. exists 0%Qc. split; [done|]. split; by_eval. Qed.

Lemma mergeChannels_in_unit (channels : list (list float)) :
  2 <= length channels ->
  Forall (Forall (fun x => isFinite x = true -> in_unit x)) channels ->
  Forall in_unit (mergeChannels channels).
Proof.
  intros Hlen Hall. destruct channels as [|c0 [|c1 rest]]; simpl in Hlen; try lia.
  cbn [mergeChannels]. apply Forall_map. apply Forall_all. intros i.
  rewrite merge_sample_spec.
  pose proof (finite_at_in_unit (c0 :: c1 :: rest) i Hall) as Hq.
  destruct (finite_at (c0 :: c1 :: rest) i) as [|q qs] eqn:Heq;
    [apply in_unit_fzero|].
  exists (Qc_mean (q :: qs)). split; [done|]. by apply Qc_mean_in_unit.
Qed.

(** X3. With two or more channels the merged stream holds finite samples
    only, whatever the channels hold: a NaN or an infinity never reaches
    the input queue through the merge (a lone channel is copied as it
    is). *)
Theorem X3_mergeChannels_output_is_finite :
  forall (channels : list (list float)),
    2 <= length channels ->
    Forall (fun x => isFinite x = true) (mergeChannels channels).
Proof.
  intros channels Hlen. destruct channels as [|c0 [|c1 rest]]; simpl in Hlen;
    try lia.
  cbn [mergeChannels]. apply Forall_map. apply Forall_all. intros i.
  apply merge_sample_finite.
Qed.

(** X4. Merging any positive number of copies of one channel of finite
    samples gives that channel back: a mono signal duplicated over the
    channels comes out unchanged. *)
Theorem X4_mergeChannels_of_copies :
  forall (channel : list float) (k : nat),
    0 < k ->
    Forall (fun x => isFinite x = true) channel ->
    mergeChannels (replicate k channel) = channel.
Proof. exact mergeChannels_copies. Qed.

(** X5. When every finite sample of two or more channels lies in [-1, 1],
    so does every sample of the merged stream. *)
Theorem X5_mergeChannels_stays_in_unit_range :
  forall (channels : list (list float)),
    2 <= length channels ->
    Forall (Forall (fun x => isFinite x = true -> in_unit x)) channels ->
    Forall in_unit (mergeChannels channels).
Proof. exact mergeChannels_in_unit. Qed.

(** ** What processFrame hands back *)

Lemma in_unit_fone : in_unit fone.
Proof. exists 1%Qc. split; [done|]. split; by_eval. Qed.

Lemma in_unit_fminus_one : in_unit fminus_one.
Proof. exists (- 1)%Qc. split; [done|]. split; by_eval. Qed.

Lemma clamp_unit_range (x : float) :
  (x = NaN /\ clamp_unit x = NaN) \/ in_unit (clamp_unit x).
Proof.
  destruct x as [q| | |].
  - right. unfold clamp_unit, fgt, fone, fminus_one. cbn [flt].
    destruct (bool_decide (1 < q)%Qc) eqn:Hhi.
    + cbn [flt]. rewrite (bool_decide_eq_false_2 (1 < - 1)%Qc) by by_eval.
      apply in_unit_fone.
    + apply bool_decide_eq_false_1 in Hhi. cbn [flt].
      destruct (bool_decide (q < - 1)%Qc) eqn:Hlo; [apply in_unit_fminus_one|].
      apply bool_decide_eq_false_1 in Hlo.
      exists q. split; [done|]. split; by apply Qcnot_lt_le.
  - right. apply in_unit_fone.
  - right. apply in_unit_fminus_one.
  - by left.
Qed.

Lemma fromEngineDomain_range (y : float) :
  (y = NaN /\ fromEngineDomain y = NaN) \/ in_unit (fromEngineDomain y).
Proof.
  unfold fromEngineDomain.
  destruct (clamp_unit_range (fdiv y c32768)) as [[Hnan Hc]|Hin]; [|by right].
  left. split; [|done]. by destruct y as [q| | |].
Qed.

(** X6. On an initialized adapter [processFrame] runs the engine path
    exactly once, on the caller's frame cut or zero-padded to [frameSize] and
    scaled, and returns exactly [frameSize] samples, whatever the length of
    the caller's frame and whether or not the engine throws.  When the
    engine returns, every returned sample lies in [-1, 1], except that a
    NaN of the engine comes back as NaN: infinities are clamped, NaN is
    not. *)
Theorem X6_processFrame_result_shape_and_range :
  forall (E : Type)
         (engine : E -> Z -> list float -> E * option ((nat -> float) * float))
         (p : Processor) (w : Wasm) (frame : list float),
    initialized p = true ->
    exists processedFrame vad w',
      processFrame engine p w frame = Done (processedFrame, vad, w')
      /\ length processedFrame = frameSize p
      /\ calls w' = calls w ++
           [CallProcessFrame (state p) (pcmOutputBuf p) (pcmInputBuf p)
              (map toEngineDomain (normalize_frame (frameSize p) frame))]
      /\ (forall outputView engineVad,
            (engine (instance w) (state p)
               (map toEngineDomain (normalize_frame (frameSize p) frame))).2
            = Some (outputView, engineVad) ->
            vad = engineVad
            /\ forall i, i < frameSize p ->
                 (outputView i = NaN /\ processedFrame !! i = Some NaN)
                 \/ exists x, processedFrame !! i = Some x /\ in_unit x).
Proof.
  intros E engine p w frame Hi.
  rewrite (processFrame_initialized engine p w frame Hi). cbn zeta.
  destruct (engine _ _ _).2 as [[ov v]|] eqn:Hr.
  - eexists _, _, _. split; [reflexivity|].
    split; [by rewrite length_map, length_seq|]. split; [reflexivity|].
    intros outputView engineVad [= <- <-]. split; [done|]. intros i Hlt.
    rewrite list_lookup_fmap, lookup_seq_lt by done.
    cbn [fmap option_fmap option_map Nat.add].
    destruct (fromEngineDomain_range (ov i)) as [[Hn ->]|Hin]; [by left|].
    right. eauto.
  - eexists _, _, _. split; [reflexivity|].
    split; [apply normalize_frame_length|]. split; [reflexivity|]. done.
Qed.

(** ** The VAD window and the counter over a run of frames *)

Lemma feed_vads_window (vads : list float) (p : Processor) :
  length (vadHistory p) <= 5 ->
  vadHistory (feed_vads vads p)
  = drop (length (vadHistory p ++ vads) - 5) (vadHistory p ++ vads).
Proof.
  revert p. induction vads as [|vad vads IH]; intros p Hlen.
  - cbn [feed_vads foldl]. rewrite app_nil_r.
    by replace (length (vadHistory p) - 5) with 0 by lia.
  - rewrite feed_vads_cons.
    pose proof (updateVadHistory_vadHistory vad p) as Hh.
    rewrite (slide_last_five _ _ Hlen) in Hh.
    rewrite IH by (rewrite updateVadHistory_vadHistory; by apply slide_length).
    rewrite Hh.
    assert (length (vadHistory p) + 1 - 5 <= length (vadHistory p ++ [vad])) as Hd
      by (rewrite length_app; simpl; lia).
    rewrite <- (drop_app_le _ vads _ Hd), drop_drop, <- app_assoc. cbn [app].
    f_equal. rewrite length_drop, !length_app. cbn [length]. lia.
Qed.

Lemma feed_vads_counter (vads : list float) (p : Processor) :
  silenceCounter (feed_vads vads p) <= silenceCounter p + length vads.
Proof.
  revert p. induction vads as [|vad vads IH]; intros p; [simpl; lia|].
  rewrite feed_vads_cons. specialize (IH (updateVadHistory vad p)).
  rewrite updateVadHistory_silenceCounter in IH.
  cbn [length]. destruct (flt _ _); lia.
Qed.

(** X7. Over any run of frames, from a window of at most 5 scores, the VAD
    window is always the last 5 scores pushed (all of them while there are
    fewer), and the silence counter never exceeds its starting value plus
    the number of frames. *)
Theorem X7_vad_window_is_last_five :
  forall (vads : list float) (p : Processor),
    length (vadHistory p) <= 5 ->
    vadHistory (feed_vads vads p)
    = drop (length (vadHistory p ++ vads) - 5) (vadHistory p ++ vads)
    /\ length (vadHistory (feed_vads vads p)) <= 5
    /\ silenceCounter (feed_vads vads p) <= silenceCounter p + length vads.
Proof.
  intros vads p Hlen. rewrite (feed_vads_window vads p Hlen).
  split; [done|]. split; [|apply feed_vads_counter].
  rewrite length_drop. lia.
Qed.

(** ** The frame loop without drops *)

Section Lossless.

Context {E : Type}.
Variable engine : E -> Z -> list float -> E * option ((nat -> float) * float).

(** While the counter cannot have passed [maxSilenceFrames], the loop moves
    every processed frame to the output queue. *)
Lemma process_loop_grace (frames : list (list float)) (rest : list float)
      (fuel : nat) (p : Processor) (w : Wasm) :
  initialized p = true ->
  0 < frameSize p ->
  Forall (fun frame => length frame = frameSize p) frames ->
  inputBuffer p = concat frames ++ rest ->
  length rest < frameSize p ->
  silenceCounter p + length frames <= maxSilenceFrames p ->
  length frames <= fuel ->
  exists p' w',
    process_loop engine fuel p w = Done (p', w')
    /\ inputBuffer p' = rest
    /\ outputBuffer p' =
         outputBuffer p ++ concat (map fst (frame_results engine p w frames))
    /\ silenceCounter p' <= silenceCounter p + length frames.
Proof.
  revert fuel p w.
  induction frames as [|frame frames IH];
    intros fuel p w Hi HF Hlen Hbuf Hrest Hgrace Hfuel.
  - exists p, w. cbn [concat app] in Hbuf.
    assert (process_loop engine fuel p w = Done (p, w)) as ->.
    { destruct fuel; cbn [process_loop];
        by rewrite (proj2 (Nat.leb_gt _ _)) by (rewrite Hbuf; lia). }
    cbn [frame_results map concat length]. by rewrite app_nil_r, Nat.add_0_r.
  - apply Forall_cons_iff in Hlen as [Hfl Hlen'].
    destruct fuel as [|fuel]; [simpl in Hfuel; lia|].
    cbn [concat] in Hbuf. rewrite <- app_assoc in Hbuf.
    assert (frameSize p <= length (inputBuffer p)) as Hfull
      by (rewrite Hbuf, length_app; lia).
    assert (take (frameSize p) (inputBuffer p) = frame) as Htake
      by (by rewrite Hbuf, take_app_length').
    assert (drop (frameSize p) (inputBuffer p) = concat frames ++ rest) as Hdrop
      by (by rewrite Hbuf, drop_app_length').
    destruct (process_one_frame_ready engine p w Hi Hfull)
      as (p1 & pf & vad & Hpf & Hone & Hcfg & Hib & Hvh & Hsc & Hob).
    rewrite Htake in Hpf, Hone. rewrite Hdrop in Hib.
    assert (silenceCounter p1 <= S (silenceCounter p)) as Hsc1
      by (rewrite Hsc; destruct (flt _ _); lia).
    assert (frameSize p1 = frameSize p
            /\ maxSilenceFrames p1 = maxSilenceFrames p) as (HF1 & Hm1)
      by (by injection Hcfg).
    cbn [length] in Hgrace.
    rewrite (proj2 (Nat.ltb_ge _ _)) in Hob by lia.
    destruct (IH fuel p1 (after_call engine p w frame))
      as (p' & w' & Hloop & Hib' & Hob' & Hsc').
    { by rewrite (initialized_config _ _ Hcfg). }
    { lia. }
    { by rewrite HF1. }
    { done. }
    { lia. }
    { lia. }
    { simpl in Hfuel. lia. }
    exists p', w'. cbn [process_loop].
    rewrite (proj2 (Nat.leb_le _ _) Hfull), Hone. cbn [obind].
    split; [done|]. split; [done|]. split; [|cbn [length]; lia].
    rewrite Hob', Hob, (frame_results_config _ _ _ _ _ Hcfg).
    cbn [frame_results]. rewrite Hpf. cbn [map fst concat].
    by rewrite <- app_assoc.
Qed.

Lemma processFrame_echo (p : Processor) (w : Wasm) (frame : list float) :
  echoes engine ->
  initialized p = true ->
  length frame = frameSize p ->
  Forall in_unit frame ->
  exists vad w', processFrame engine p w frame = Done (frame, vad, w').
Proof.
  intros Hecho Hi Hlen Hunit.
  rewrite (processFrame_initialized engine p w frame Hi). cbn zeta.
  rewrite (normalize_frame_id _ _ Hlen).
  destruct (Hecho (instance w) (state p) (map toEngineDomain frame))
    as (e' & vad & ->). cbn [snd].
  eexists _, _. do 3 f_equal.
  rewrite (map_seq_lookup_id (map toEngineDomain frame) fromEngineDomain)
    by by rewrite length_map.
  rewrite map_map. rewrite <- (map_id frame) at 2.
  apply map_ext_Forall. eapply Forall_impl; [|exact Hunit].
  intros x Hx. by apply scale_round_trip.
Qed.

Lemma frame_results_echo (p : Processor) (w : Wasm) (frames : list (list float)) :
  echoes engine ->
  initialized p = true ->
  Forall (fun frame => length frame = frameSize p) frames ->
  Forall (Forall in_unit) frames ->
  map fst (frame_results engine p w frames) = frames.
Proof.
  intros Hecho Hi Hlen. revert w.
  induction Hlen as [|frame frames Hfl _ IH]; intros w Hunit; [done|].
  apply Forall_cons_iff in Hunit as [Hu Hunit].
  cbn [frame_results].
  destruct (processFrame_echo p w frame Hecho Hi Hfl Hu) as (vad & w' & ->).
  cbn [map fst]. by rewrite IH.
Qed.

Lemma Forall_concat_inv {A} (P : A -> Prop) (ls : list (list A)) (rest : list A) :
  Forall P (concat ls ++ rest) -> Forall (Forall P) ls.
Proof.
  induction ls as [|l ls IH]; [constructor|].
  cbn [concat]. rewrite <- app_assoc. intros H.
  apply Forall_app in H as [Hl H]. constructor; [done|by apply IH].
Qed.

(** One Ready callback, seen from both queues, when the gate cannot close. *)
Lemma process_grace (p : Processor) (w : Wasm) (inputs outputs : audio) :
  lifecycle p = Ready ->
  0 < frameSize p ->
  has_input inputs ->
  silenceCounter p
  + length (inputBuffer p ++ mergeChannels (default [] (inputs !! 0))) / frameSize p
  <= maxSilenceFrames p ->
  exists outs p' w' frames,
    process engine p w inputs outputs = Done (true, outs, p', w')
    /\ extracted (frameSize p)
         (inputBuffer p ++ mergeChannels (default [] (inputs !! 0))) w w' p' frames
    /\ (outs, outputBuffer p') =
       (let served :=
          outputBuffer p
          ++ concat (map fst
               (frame_results engine p w frames)) in
        let n := samples_to_copy served outputs in
        (map (map (fun channel => take n served ++ drop n channel)) outputs,
         drop n served)).
Proof.
  intros Hl HF Hin Hgrace. pose proof Hin as (channel & channels & Hin0).
  assert (isDestroy p = false /\ initialized p = true) as [Hd Hi].
  { unfold lifecycle in Hl. destruct (isDestroy p); [done|].
    by destruct (initialized p). }
  rewrite Hin0 in *. cbn [default from_option id] in *.
  set (all := inputBuffer p ++ mergeChannels (channel :: channels)) in *.
  set (q := set_inputBuffer all p).
  destruct (process_loop_extracts engine (length (inputBuffer q)) q w)
    as (p1 & w1 & frames & Hloop & Hcfg & Hex); [done|done|done|].
  pose proof Hex as (Hcat & Hlen & Hrest & Hlog).
  destruct (frames_count (frameSize p) _ _ _ HF Hcat Hlen Hrest) as (Hq & _).
  destruct (process_loop_grace frames (inputBuffer p1) (length (inputBuffer q)) q w)
    as (p1' & w1' & Hloop' & _ & Hob & _); try done.
  { change (inputBuffer q) with all in *.
    change (silenceCounter q) with (silenceCounter p).
    change (maxSilenceFrames q) with (maxSilenceFrames p).
    change (frameSize q) with (frameSize p) in Hq. by rewrite Hq. }
  { change (inputBuffer q) with all in *. rewrite Hq.
    apply Nat.Div0.div_le_upper_bound. nia. }
  rewrite Hloop in Hloop'. injection Hloop' as <- <-.
  unfold process. rewrite Hd, Hi, Hin0. cbn [negb]. fold all. fold q.
  rewrite Hloop. cbn [obind]. rewrite outputToChannels_spec.
  eexists _, _, w1, frames. split; [reflexivity|]. split; [exact Hex|].
  cbn zeta. rewrite Hob.
  change (outputBuffer q) with (outputBuffer p).
  by rewrite (frame_results_config engine p q w frames).
Qed.

End Lossless.

(** X8. In a Ready callback with input, when the silence counter plus the
    number of frames the callback can extract does not exceed
    [maxSilenceFrames], no frame is dropped whatever the engine reports:
    every extracted frame's processed samples are appended to the output
    queue, in order, before the outputs are served from its head. *)
Theorem X8_no_drop_within_maxSilenceFrames :
  forall (E : Type)
         (engine : E -> Z -> list float -> E * option ((nat -> float) * float))
         (p : Processor) (w : Wasm) (inputs outputs : audio),
    lifecycle p = Ready ->
    0 < frameSize p ->
    has_input inputs ->
    silenceCounter p
    + length (inputBuffer p ++ mergeChannels (default [] (inputs !! 0))) / frameSize p
    <= maxSilenceFrames p ->
    exists outs p' w' frames,
      process engine p w inputs outputs = Done (true, outs, p', w')
      /\ inputBuffer p ++ mergeChannels (default [] (inputs !! 0))
         = concat frames ++ inputBuffer p'
      /\ Forall (fun frame => length frame = frameSize p) frames
      /\ length (inputBuffer p') < frameSize p
      /\ (outs, outputBuffer p') =
         (let served :=
            outputBuffer p ++ concat (map fst (frame_results engine p w frames)) in
          let n := samples_to_copy served outputs in
          (map (map (fun channel => take n served ++ drop n channel)) outputs,
           drop n served)).
Proof.
  intros E engine p w inputs outputs Hl HF Hin Hgrace.
  destruct (process_grace engine p w inputs outputs Hl HF Hin Hgrace)
    as (outs & p' & w' & frames & Hp & (Hcat & Hlen & Hrest & _) & Hout).
  exists outs, p', w', frames. by repeat split.
Qed.

(** X9. With an engine that hands back the samples it is given, samples in
    [-1, 1] and the gate unable to close, the pipeline alters nothing: a
    Ready callback moves the whole frames of the input queue, sample for
    sample, to the output queue and serves the outputs from its head, so
    that what was served, what is left in the output queue and what is left
    in the input queue are together the samples received, in order. *)
Theorem X9_pipeline_is_transparent_for_an_echoing_engine :
  forall (E : Type)
         (engine : E -> Z -> list float -> E * option ((nat -> float) * float))
         (p : Processor) (w : Wasm) (inputs outputs : audio),
    lifecycle p = Ready ->
    0 < frameSize p ->
    has_input inputs ->
    echoes engine ->
    Forall in_unit (inputBuffer p ++ mergeChannels (default [] (inputs !! 0))) ->
    silenceCounter p
    + length (inputBuffer p ++ mergeChannels (default [] (inputs !! 0))) / frameSize p
    <= maxSilenceFrames p ->
    let all := inputBuffer p ++ mergeChannels (default [] (inputs !! 0)) in
    let whole := frameSize p * (length all / frameSize p) in
    let served := outputBuffer p ++ take whole all in
    let n := samples_to_copy served outputs in
    exists p' w',
      process engine p w inputs outputs
      = Done (true, map (map (fun channel => take n served ++ drop n channel)) outputs,
              p', w')
      /\ outputBuffer p' = drop n served
      /\ inputBuffer p' = drop whole all
      /\ take n served ++ outputBuffer p' ++ inputBuffer p' = outputBuffer p ++ all.
Proof.
  intros E engine p w inputs outputs Hl HF Hin Hecho Hunit Hgrace all whole served n.
  destruct (process_grace engine p w inputs outputs Hl HF Hin Hgrace)
    as (outs & p' & w' & frames & Hp & (Hcat & Hlen & Hrest & _) & Hout).
  fold all in Hcat.
  destruct (frames_count (frameSize p) _ _ _ HF Hcat Hlen Hrest)
    as (_ & _ & Htake & Hdrop).
  assert (initialized p = true) as Hi.
  { unfold lifecycle in Hl. destruct (isDestroy p); [done|].
    by destruct (initialized p). }
  assert (map fst (frame_results engine p w frames) = frames) as Hres.
  { apply frame_results_echo; try done.
    apply (Forall_concat_inv _ _ (inputBuffer p')). by rewrite <- Hcat. }
  cbn zeta in Hout. rewrite Hres, Htake in Hout. fold whole served n in Hout.
  injection Hout as -> Hob.
  exists p', w'. split; [done|]. split; [done|]. split; [done|].
  rewrite Hob, Hdrop. fold whole. rewrite app_assoc, take_drop.
  unfold served. by rewrite <- app_assoc, take_drop.
Qed.

Lemma foldl_fadd_has_NaN (h : list float) (x : float) :
  NaN ∈ h -> foldl fadd x h = NaN.
Proof.
  revert x. induction h as [|v h IH]; intros x Hin;
    [by apply elem_of_nil in Hin|].
  cbn [foldl]. apply elem_of_cons in Hin as [<-|Hin]; [|by apply IH].
  assert (fadd x NaN = NaN) as -> by (by destruct x).
  apply foldl_fadd_NaN.
Qed.

Lemma slide_has_pushed (h : list float) (vad : float) : vad ∈ slide h vad.
Proof.
  unfold slide. destruct (5 <? length (h ++ [vad])) eqn:Hc.
  - apply Nat.ltb_lt in Hc. destruct h as [|x h]; [simpl in Hc; lia|].
    cbn [app tail]. apply elem_of_app. right. by left.
  - apply elem_of_app. right. by left.
Qed.

(** X10. In the frame loop of a Ready processor, a frame for which the
    mean of the VAD window is not below the threshold resets the counter
    and is appended to the output queue whatever [maxSilenceFrames] is,
    even 0.  A NaN score from the engine is such a frame: it makes the mean
    NaN, and a NaN mean is not below any threshold. *)
Theorem X10_frame_with_voice_is_kept :
  forall (E : Type)
         (engine : E -> Z -> list float -> E * option ((nat -> float) * float))
         (p : Processor) (w : Wasm),
    initialized p = true ->
    frameSize p <= length (inputBuffer p) ->
    exists p' w' processedFrame vad,
      process_one_frame engine p w = Done (p', w')
      /\ processFrame engine p w (take (frameSize p) (inputBuffer p))
         = Done (processedFrame, vad, w')
      /\ (flt (mean (slide (vadHistory p) vad)) (silenceThreshold p) = false ->
          silenceCounter p' = 0
          /\ outputBuffer p' = outputBuffer p ++ processedFrame)
      /\ (vad = NaN ->
          silenceCounter p' = 0
          /\ outputBuffer p' = outputBuffer p ++ processedFrame).
Proof.
  intros E engine p w Hi Hfull.
  destruct (process_one_frame_ready engine p w Hi Hfull)
    as (p' & pf & vad & Hpf & Hone & _ & _ & _ & Hsc & Hob).
  exists p', (after_call engine p w (take (frameSize p) (inputBuffer p))), pf, vad.
  split; [done|]. split; [done|].
  assert (flt (mean (slide (vadHistory p) vad)) (silenceThreshold p) = false ->
          silenceCounter p' = 0 /\ outputBuffer p' = outputBuffer p ++ pf) as Hkeep.
  { intros Hm. rewrite Hm in Hsc. rewrite Hsc in Hob. by rewrite Hob, Hsc. }
  split; [exact Hkeep|]. intros ->. apply Hkeep.
  unfold mean. by rewrite (foldl_fadd_has_NaN _ _ (slide_has_pushed _ NaN)).
Qed.

(** ** Serving the outputs over several callbacks *)



(** ** What destroy releases *)

Section Release.

Context {E : Type}.
Variable rnnoise_destroy : E -> Z -> E.
Variable free : E -> Z -> E.

Lemma destroy_calls (p : Processor) (w : Wasm) :
  exists released,
    calls (destroy rnnoise_destroy free p w).2 = calls w ++ released
    /\ length released <= 3
    /\ Forall (fun c => exists h, (c = CallDestroy h \/ c = CallFree h) /\ h <> 0%Z)
              released.
Proof.
  destruct p as [d m F st pin pout mem ib ob vh thr sc msf].
  destruct m as [[hd hf]|];
    [|exists []; cbn; rewrite app_nil_r; repeat split; [lia|constructor]].
  unfold destroy. cbn -[truthy].
  assert (forall h, truthy h = true -> h <> 0%Z) as Hnz.
  { intros h Ht ->. done. }
  destruct (truthy st) eqn:Hst, hd; cbn -[truthy];
    destruct (truthy pin) eqn:Hpin, hf; cbn -[truthy];
    destruct (truthy pout) eqn:Hpout; cbn -[truthy];
    rewrite <- ?app_assoc; cbn [app];
    (eexists; split; [reflexivity || (symmetry; apply app_nil_r)|];
     split; [simpl; lia|]);
    repeat (apply Forall_cons;
            [eexists; split; [(by left) || (by right)|by apply Hnz]|]);
    apply Forall_nil.
Qed.

Lemma truthy_false (h : Z) : truthy h = false -> h = 0%Z.
Proof. unfold truthy. intros H. apply negb_false_iff in H. by apply Z.eqb_eq. Qed.

Lemma destroy_releases (p : Processor) (w : Wasm) :
  handles_clear p \/ rnnoiseModule p = Some ready_exports ->
  calls (destroy rnnoise_destroy free p w).2 = calls w ++ release_calls p
  /\ handles_clear (destroy rnnoise_destroy free p w).1.
Proof.
  unfold handles_clear, release_calls.
  destruct p as [d m F st pin pout mem ib ob vh thr sc msf].
  cbn [state pcmInputBuf pcmOutputBuf rnnoiseModule].
  intros [(-> & -> & ->)| ->].
  - destruct m as [[hd hf]|]; unfold destroy; cbn; rewrite ?app_nil_r; done.
  - unfold destroy. cbn -[truthy].
    destruct (truthy st) eqn:Hst; cbn -[truthy];
      destruct (truthy pin) eqn:Hpin; cbn -[truthy];
      destruct (truthy pout) eqn:Hpout; cbn -[truthy];
      rewrite <- ?app_assoc, ?app_nil_r; cbn [app];
      (split; [reflexivity|]); eval_fields;
      repeat split; first [reflexivity | by apply truthy_false].
Qed.

End Release.

(** X12. [destroy] never hands a null handle or pointer to the engine: it
    makes at most three calls, each an [rnnoise_destroy] or a [free] on a
    non-zero value.  On a processor whose module passed the checks of
    [initRnnoise] it releases every non-zero handle the processor holds,
    state first, then the input and the output region, and leaves none. *)
Theorem X12_destroy_releases_held_handles_only :
  forall (E : Type) (rnnoise_destroy free : E -> Z -> E)
         (p : Processor) (w : Wasm),
    (exists released,
        calls (destroy rnnoise_destroy free p w).2 = calls w ++ released
        /\ length released <= 3
        /\ Forall (fun c => exists h,
                     (c = CallDestroy h \/ c = CallFree h) /\ h <> 0%Z) released)
    /\ (rnnoiseModule p = Some ready_exports ->
        calls (destroy rnnoise_destroy free p w).2 = calls w ++ release_calls p
        /\ handles_clear (destroy rnnoise_destroy free p w).1).
Proof.
  intros E rnnoise_destroy free p w. split; [apply destroy_calls|].
  intros Hm. apply destroy_releases. by right.
Qed.

(** ** Loading the engine *)

Lemma exports_view_ready (m : ModuleExports) :
  required_functions m = true -> exports_view m = ready_exports.
Proof.
  unfold required_functions, exports_view, ready_exports.
  destruct m as [c g pf ma fr de ct me]. cbn.
  by destruct c, g, pf, ma, fr, de.
Qed.

Section LoaderProps.

Context {E B : Type}.
Variable instantiate : B -> option (ModuleExports * E).
Variable wasm_call_ctors : E -> E * bool.
Variable rnnoise_create : E -> E * option Z.
Variable rnnoise_get_frame_size : E -> E * option nat.
Variable malloc : E -> nat -> E * option Z.
Variable engine : E -> Z -> list float -> E * option ((nat -> float) * float).
Variable rnnoise_destroy : E -> Z -> E.
Variable free : E -> Z -> E.

Local Notation "'init'" :=
  (initRnnoise instantiate wasm_call_ctors rnnoise_create
               rnnoise_get_frame_size malloc).

Lemma init_untouched (debug : bool) (bytes : B) (p : Processor) (w : Wasm) :
  isDestroy (init debug bytes p w).1.1.1 = isDestroy p
  /\ inputBuffer (init debug bytes p w).1.1.1 = inputBuffer p
  /\ outputBuffer (init debug bytes p w).1.1.1 = outputBuffer p
  /\ vadHistory (init debug bytes p w).1.1.1 = vadHistory p
  /\ silenceThreshold (init debug bytes p w).1.1.1 = silenceThreshold p
  /\ silenceCounter (init debug bytes p w).1.1.1 = silenceCounter p
  /\ maxSilenceFrames (init debug bytes p w).1.1.1 = maxSilenceFrames p
  /\ calls (init debug bytes p w).1.1.2 = calls w.
Proof.
  unfold initRnnoise. repeat case_match; simplify_eq; cbn [fst snd];
    by repeat split.
Qed.

Lemma init_error_not_initialized (debug : bool) (bytes : B) (p : Processor)
      (w : Wasm) :
  handles_clear p ->
  (init debug bytes p w).2 = true ->
  initialized (init debug bytes p w).1.1.1 = false.
Proof.
  intros (Hs & Hi & Ho).
  destruct p as [d mo F st pin pout mem ib ob vh thr sc msf].
  cbn in Hs, Hi, Ho. subst. unfold initRnnoise.
  repeat case_match; simplify_eq; cbn [fst snd]; intros Herr;
    unfold initialized; eval_all_fields; cbn [truthy Z.eqb negb andb];
    rewrite ?andb_false_r; try done.
  all: apply andb_true_iff in Herr as [_ Hm]; apply negb_true_iff in Hm.
  all: by rewrite Hm, !andb_false_r.
Qed.

Lemma init_ready (debug : bool) (bytes : B) (p : Processor) (w : Wasm) :
  handles_clear p ->
  initialized (init debug bytes p w).1.1.1 = true ->
  (init debug bytes p w).2 = false
  /\ rnnoiseModule (init debug bytes p w).1.1.1 = Some ready_exports
  /\ exists ctors,
       (ctors = [] \/ ctors = [CallCtors])
       /\ (init debug bytes p w).1.2
          = ctors ++ [CallCreate; CallGetFrameSize;
                      CallMalloc (frameSize (init debug bytes p w).1.1.1 * 4);
                      CallMalloc (frameSize (init debug bytes p w).1.1.1 * 4)].
Proof.
  intros Hclear Hinit.
  destruct ((init debug bytes p w).2) eqn:Herr.
  { by rewrite (init_error_not_initialized _ _ _ _ Hclear Herr) in Hinit. }
  split; [done|]. revert Hinit Herr. destruct Hclear as (Hs & Hi & Ho).
  destruct p as [d mo F st pin pout mem ib ob vh thr sc msf].
  cbn in Hs, Hi, Ho. subst. unfold initRnnoise.
  repeat case_match; simplify_eq; cbn [fst snd]; try done; intros Hinit _;
    (split; [eval_all_fields; f_equal; apply exports_view_ready;
             by match goal with H : negb (required_functions _) = false |- _ =>
                  apply negb_false_iff in H end|]);
    eval_all_fields; cbn [app];
    first [ exists [CallCtors]; split; [by right|reflexivity]
          | exists []; split; [by left|reflexivity] ].
Qed.

Lemma init_fails_before_any_call (debug : bool) (bytes : B) (p : Processor)
      (w : Wasm) :
  (instantiate bytes = None -> init debug bytes p w = (p, w, [], true))
  /\ (forall m e,
        instantiate bytes = Some (m, e) ->
        required_functions m = false ->
        (init debug bytes p w).1.2 = []
        /\ (init debug bytes p w).2 = true
        /\ instance (init debug bytes p w).1.1.2 = e
        /\ state (init debug bytes p w).1.1.1 = state p
        /\ pcmInputBuf (init debug bytes p w).1.1.1 = pcmInputBuf p
        /\ pcmOutputBuf (init debug bytes p w).1.1.1 = pcmOutputBuf p
        /\ frameSize (init debug bytes p w).1.1.1 = frameSize p).
Proof.
  unfold initRnnoise. split.
  - by intros ->.
  - intros m e -> ->. cbn [negb fst snd]. by repeat split.
Qed.

Lemma init_handles_or_exports (debug : bool) (bytes : B) (p : Processor)
      (w : Wasm) :
  handles_clear p ->
  handles_clear (init debug bytes p w).1.1.1
  \/ rnnoiseModule (init debug bytes p w).1.1.1 = Some ready_exports.
Proof.
  intros Hclear. unfold initRnnoise.
  repeat case_match; simplify_eq; cbn [fst snd];
    first [ left; exact Hclear
          | right; change (Some (exports_view m) = Some ready_exports);
            f_equal; apply exports_view_ready;
            by match goal with H : negb (required_functions _) = false |- _ =>
                 apply negb_false_iff in H end ].
Qed.

Lemma init_ignores_isDestroy (debug : bool) (bytes : B) (v : bool)
      (p : Processor) (w : Wasm) :
  init debug bytes (set_isDestroy v p) w
  = (set_isDestroy v (init debug bytes p w).1.1.1,
     (init debug bytes p w).1.1.2,
     (init debug bytes p w).1.2,
     (init debug bytes p w).2).
Proof.
  unfold initRnnoise.
  repeat case_match; simplify_eq; cbn [fst snd]; eval_all_fields; reflexivity.
Qed.

End LoaderProps.

Section Lifecycle.

Context {E B : Type}.
Variable instantiate : B -> option (ModuleExports * E).
Variable wasm_call_ctors : E -> E * bool.
Variable rnnoise_create : E -> E * option Z.
Variable rnnoise_get_frame_size : E -> E * option nat.
Variable malloc : E -> nat -> E * option Z.
Variable engine : E -> Z -> list float -> E * option ((nat -> float) * float).
Variable rnnoise_destroy : E -> Z -> E.
Variable free : E -> Z -> E.

Local Notation "'init'" :=
  (initRnnoise instantiate wasm_call_ctors rnnoise_create
               rnnoise_get_frame_size malloc).
Local Notation "'handle'" :=
  (onmessage instantiate wasm_call_ctors rnnoise_create
             rnnoise_get_frame_size malloc rnnoise_destroy free).
Local Notation "'run'" :=
  (run_events instantiate wasm_call_ctors rnnoise_create
              rnnoise_get_frame_size malloc engine rnnoise_destroy free).

Lemma process_uninitialized (p : Processor) (w : Wasm) (inputs outputs : audio) :
  isDestroy p = false ->
  initialized p = false ->
  process engine p w inputs outputs =
  Done (true,
        match inputs with
        | (sourceChannel :: _) :: _ =>
            map (map (fun channel =>
                        take (length channel) sourceChannel
                        ++ drop (length sourceChannel) channel)) outputs
        | _ => map (map (fun channel => replicate (length channel) fzero)) outputs
        end, p, w).
Proof.
  intros Hd Hi. unfold process. rewrite Hd, Hi. cbn [negb].
  by rewrite outputPassthrough_spec.
Qed.

Lemma engine_frames_released (cs released : list Call) :
  Forall (fun c => exists h, (c = CallDestroy h \/ c = CallFree h) /\ h <> 0%Z)
         released ->
  engine_frames (cs ++ released) = engine_frames cs.
Proof.
  intros Hall. unfold engine_frames. rewrite omap_app.
  rewrite <- (app_nil_r (omap _ cs)) at 2. f_equal.
  induction Hall as [|c released (h & [-> | ->] & _) _ IH]; [done| |];
    cbn [omap list_omap]; exact IH.
Qed.

Lemma onmessage_destroyed (msg : Message B) (p : Processor) (w : Wasm) :
  isDestroy p = true ->
  isDestroy (handle msg p w).1.1.1 = true
  /\ engine_frames (calls (handle msg p w).1.1.2) = engine_frames (calls w).
Proof.
  intros Hd. destruct msg as [[bytes|] debug| | | | |]; cbn [onmessage fst snd];
    try done.
  - destruct (init_untouched instantiate wasm_call_ctors rnnoise_create
                rnnoise_get_frame_size malloc debug bytes p w)
      as (Hd' & _ & _ & _ & _ & _ & _ & Hc).
    by rewrite Hd', Hc.
  - pose proof (destroy_lifecycle rnnoise_destroy free p w) as Hl.
    destruct (destroy_calls rnnoise_destroy free p w) as (released & Hc & _ & Hr).
    destruct (destroy rnnoise_destroy free p w) as [p' w']. cbn [fst snd] in *.
    split; [|by rewrite Hc, engine_frames_released].
    unfold lifecycle in Hl. destruct (isDestroy p'); [done|].
    by destruct (initialized p').
Qed.

Lemma run_events_destroyed (evs : list (Event B)) (p : Processor) (w : Wasm) :
  isDestroy p = true ->
  exists p' w',
    run evs p w = Done (p', w', map (fun cb => (false, cb.2)) (callbacks_of evs))
    /\ isDestroy p' = true
    /\ engine_frames (calls w') = engine_frames (calls w).
Proof.
  revert p w. induction evs as [|ev evs IH]; intros p w Hd.
  - exists p, w. by cbn.
  - cbn [run_events]. destruct ev as [msg|inputs outputs]; cbn [step].
    + destruct (onmessage_destroyed msg p w Hd) as [Hd1 Hf1].
      destruct (handle msg p w) as [[[p1 w1] log] err]. cbn [fst snd] in *.
      cbn [obind]. destruct (IH p1 w1 Hd1) as (p' & w' & Hrun & Hd' & Hf').
      rewrite Hrun. cbn [obind]. exists p', w'.
      split; [done|]. split; [done|]. congruence.
    + unfold process. rewrite Hd. cbn [obind].
      destruct (IH p w Hd) as (p' & w' & Hrun & Hd' & Hf').
      rewrite Hrun. cbn [obind]. exists p', w'. by repeat split.
Qed.

End Lifecycle.

(** X13. From a processor that holds no handle (as the constructor builds
    it), an [initRnnoise] that ends in its [catch] block and posts an error
    leaves the adapter uninitialized, wherever the failure happened; the
    render callback of such a processor, if it is not destroyed, is the
    passthrough. *)
Theorem X13_failed_init_falls_back_to_passthrough :
  forall (E B : Type)
         (instantiate : B -> option (ModuleExports * E))
         (wasm_call_ctors : E -> E * bool)
         (rnnoise_create : E -> E * option Z)
         (rnnoise_get_frame_size : E -> E * option nat)
         (malloc : E -> nat -> E * option Z)
         (engine : E -> Z -> list float -> E * option ((nat -> float) * float))
         (debug : bool) (bytes : B) (p : Processor) (w : Wasm)
         (inputs outputs : audio),
    handles_clear p ->
    isDestroy p = false ->
    (initRnnoise instantiate wasm_call_ctors rnnoise_create
                 rnnoise_get_frame_size malloc debug bytes p w).2 = true ->
    let r := initRnnoise instantiate wasm_call_ctors rnnoise_create
                         rnnoise_get_frame_size malloc debug bytes p w in
    initialized r.1.1.1 = false
    /\ process engine r.1.1.1 r.1.1.2 inputs outputs =
       Done (true,
             match inputs with
             | (sourceChannel :: _) :: _ =>
                 map (map (fun channel =>
                             take (length channel) sourceChannel
                             ++ drop (length sourceChannel) channel)) outputs
             | _ => map (map (fun channel => replicate (length channel) fzero))
                        outputs
             end, r.1.1.1, r.1.1.2).
Proof.
  intros E B instantiate wasm_call_ctors rnnoise_create rnnoise_get_frame_size
    malloc engine debug bytes p w inputs outputs Hclear Hd Herr r.
  pose proof (init_error_not_initialized _ _ _ _ _ _ _ _ _ Hclear Herr) as Hi.
  split; [exact Hi|]. apply process_uninitialized; [|exact Hi].
  destruct (init_untouched instantiate wasm_call_ctors rnnoise_create
              rnnoise_get_frame_size malloc debug bytes p w) as (Hd' & _).
  subst r. by rewrite Hd'.
Qed.

(** X14. From a processor that holds no handle, an [initRnnoise] that
    leaves the adapter initialized posted no error, stored exports in which
    [rnnoise_destroy] and [free] are functions, and made exactly these
    calls, in this order: the optional [__wasm_call_ctors], then
    [rnnoise_create], [rnnoise_get_frame_size], and two [malloc]s of
    4 * frameSize bytes each. *)
Theorem X14_successful_init_calls :
  forall (E B : Type)
         (instantiate : B -> option (ModuleExports * E))
         (wasm_call_ctors : E -> E * bool)
         (rnnoise_create : E -> E * option Z)
         (rnnoise_get_frame_size : E -> E * option nat)
         (malloc : E -> nat -> E * option Z)
         (debug : bool) (bytes : B) (p : Processor) (w : Wasm),
    handles_clear p ->
    let r := initRnnoise instantiate wasm_call_ctors rnnoise_create
                         rnnoise_get_frame_size malloc debug bytes p w in
    initialized r.1.1.1 = true ->
    r.2 = false
    /\ rnnoiseModule r.1.1.1 = Some ready_exports
    /\ exists ctors,
         (ctors = [] \/ ctors = [CallCtors])
         /\ r.1.2 = ctors ++ [CallCreate; CallGetFrameSize;
                              CallMalloc (frameSize r.1.1.1 * 4);
                              CallMalloc (frameSize r.1.1.1 * 4)].
Proof.
  intros E B instantiate wasm_call_ctors rnnoise_create rnnoise_get_frame_size
    malloc debug bytes p w Hclear r. apply init_ready. exact Hclear.
Qed.

(** X15. [initRnnoise] checks the exports before it calls any of them: when
    one of the six required names is not a function it makes no call into
    the instance, not even to the functions that are there, posts an error
    and leaves the handle, both pointers and the frame size as they were;
    when the instantiation itself rejects, nothing at all changes. *)
Theorem X15_init_checks_exports_before_calling :
  forall (E B : Type)
         (instantiate : B -> option (ModuleExports * E))
         (wasm_call_ctors : E -> E * bool)
         (rnnoise_create : E -> E * option Z)
         (rnnoise_get_frame_size : E -> E * option nat)
         (malloc : E -> nat -> E * option Z)
         (debug : bool) (bytes : B) (p : Processor) (w : Wasm),
    let r := initRnnoise instantiate wasm_call_ctors rnnoise_create
                         rnnoise_get_frame_size malloc debug bytes p w in
    (instantiate bytes = None -> r = (p, w, [], true))
    /\ (forall m e,
          instantiate bytes = Some (m, e) ->
          required_functions m = false ->
          r.1.2 = [] /\ r.2 = true /\ instance r.1.1.2 = e
          /\ state r.1.1.1 = state p
          /\ pcmInputBuf r.1.1.1 = pcmInputBuf p
          /\ pcmOutputBuf r.1.1.1 = pcmOutputBuf p
          /\ frameSize r.1.1.1 = frameSize p).
Proof.
  intros E B instantiate wasm_call_ctors rnnoise_create rnnoise_get_frame_size
    malloc debug bytes p w r. apply init_fails_before_any_call.
Qed.

(** X16. Initialization followed by teardown leaves nothing allocated: from
    a processor that holds no handle, at whatever point [initRnnoise]
    stopped, [destroy] calls [rnnoise_destroy] on the state handle and
    [free] on each scratch pointer that [initRnnoise] stored and that is not
    zero, makes no other call, and leaves all three cleared. *)
Theorem X16_destroy_after_init_leaves_no_handle :
  forall (E B : Type)
         (instantiate : B -> option (ModuleExports * E))
         (wasm_call_ctors : E -> E * bool)
         (rnnoise_create : E -> E * option Z)
         (rnnoise_get_frame_size : E -> E * option nat)
         (malloc : E -> nat -> E * option Z)
         (rnnoise_destroy free : E -> Z -> E)
         (debug : bool) (bytes : B) (p : Processor) (w : Wasm),
    handles_clear p ->
    let r := initRnnoise instantiate wasm_call_ctors rnnoise_create
                         rnnoise_get_frame_size malloc debug bytes p w in
    let d := destroy rnnoise_destroy free r.1.1.1 r.1.1.2 in
    calls d.2 = calls w ++ release_calls r.1.1.1
    /\ handles_clear d.1
    /\ lifecycle d.1 = Destroyed.
Proof.
  intros E B instantiate wasm_call_ctors rnnoise_create rnnoise_get_frame_size
    malloc rnnoise_destroy free debug bytes p w Hclear r d.
  destruct (destroy_releases rnnoise_destroy free r.1.1.1 r.1.1.2) as [Hc Hh].
  { apply init_handles_or_exports. exact Hclear. }
  destruct (init_untouched instantiate wasm_call_ctors rnnoise_create
              rnnoise_get_frame_size malloc debug bytes p w)
    as (_ & _ & _ & _ & _ & _ & _ & Hcalls).
  fold r in Hcalls. subst d. rewrite Hc, Hcalls.
  split; [done|]. split; [done|]. apply destroy_lifecycle.
Qed.

(** X17. Destroyed is terminal.  Nothing resets [isDestroy]: on a destroyed
    processor, over any run of messages (a new init included) and render
    callbacks, every callback returns [false] and leaves its outputs as
    they are, the processor stays destroyed, and no frame is handed to the
    engine. *)
Theorem X17_destroyed_is_terminal :
  forall (E B : Type)
         (instantiate : B -> option (ModuleExports * E))
         (wasm_call_ctors : E -> E * bool)
         (rnnoise_create : E -> E * option Z)
         (rnnoise_get_frame_size : E -> E * option nat)
         (malloc : E -> nat -> E * option Z)
         (engine : E -> Z -> list float -> E * option ((nat -> float) * float))
         (rnnoise_destroy free : E -> Z -> E)
         (evs : list (Event B)) (p : Processor) (w : Wasm),
    isDestroy p = true ->
    exists p' w',
      run_events instantiate wasm_call_ctors rnnoise_create
                 rnnoise_get_frame_size malloc engine rnnoise_destroy free
                 evs p w
      = Done (p', w', map (fun cb => (false, cb.2)) (callbacks_of evs))
      /\ isDestroy p' = true
      /\ engine_frames (calls w') = engine_frames (calls w).
Proof.
  intros E B instantiate wasm_call_ctors rnnoise_create rnnoise_get_frame_size
    malloc engine rnnoise_destroy free evs p w. apply run_events_destroyed.
Qed.

(** X18. [initRnnoise] neither reads nor writes [isDestroy]: on a destroyed
    processor it runs exactly as on a live one, making the same calls and
    storing the same handles.  An initialization that settles after a
    destroy therefore still creates the engine state and allocates the
    scratch regions, on a processor that stays destroyed. *)
Theorem X18_init_ignores_isDestroy :
  forall (E B : Type)
         (instantiate : B -> option (ModuleExports * E))
         (wasm_call_ctors : E -> E * bool)
         (rnnoise_create : E -> E * option Z)
         (rnnoise_get_frame_size : E -> E * option nat)
         (malloc : E -> nat -> E * option Z)
         (debug : bool) (bytes : B) (p : Processor) (w : Wasm),
    let live := initRnnoise instantiate wasm_call_ctors rnnoise_create
                            rnnoise_get_frame_size malloc debug bytes p w in
    let late := initRnnoise instantiate wasm_call_ctors rnnoise_create
                            rnnoise_get_frame_size malloc debug bytes
                            (set_isDestroy true p) w in
    late = (set_isDestroy true live.1.1.1, live.1.1.2, live.1.2, live.2)
    /\ lifecycle late.1.1.1 = Destroyed
    /\ initialized late.1.1.1 = initialized live.1.1.1
    /\ release_calls late.1.1.1 = release_calls live.1.1.1.
Proof.
  intros E B instantiate wasm_call_ctors rnnoise_create rnnoise_get_frame_size
    malloc debug bytes p w live late.
  assert (late = (set_isDestroy true live.1.1.1, live.1.1.2, live.1.2, live.2))
    as Heq by apply init_ignores_isDestroy.
  split; [exact Heq|]. rewrite Heq. cbn [fst snd]. by repeat split.
Qed.

(** ** The main-thread wrapper *)

Section WrapperProps.

Context {C N B : Type}.

Lemma wrapper_destroy_twice (s : RnnoiseWorklet.t C N B) :
  RnnoiseWorklet.destroy (RnnoiseWorklet.destroy s).1
  = ((RnnoiseWorklet.destroy s).1, []).
Proof. unfold RnnoiseWorklet.destroy. by destruct s as [ctx [node|] buf]. Qed.

Lemma wrapper_create_starts_with_teardown (s : RnnoiseWorklet.t C N B) (ctx : C)
      (host : RnnoiseWorklet.Replies N B) :
  exists rest,
    (RnnoiseWorklet.createRnnoiseWorkletNode s ctx host).1.2
    = (RnnoiseWorklet.destroy s).2 ++ RnnoiseWorklet.AddModule ctx :: rest.
Proof.
  unfold RnnoiseWorklet.createRnnoiseWorkletNode.
  destruct (RnnoiseWorklet.destroy s) as [s1 trace]. cbn [fst snd].
  repeat case_match; simplify_eq; cbn [fst snd]; rewrite <- ?app_assoc;
    cbn [app]; eauto.
Qed.

Lemma wrapper_create_resolved (s : RnnoiseWorklet.t C N B) (ctx : C)
      (host : RnnoiseWorklet.Replies N B) (node : N) :
  (RnnoiseWorklet.createRnnoiseWorkletNode s ctx host).2 = Some node ->
  exists bytes init,
    RnnoiseWorklet.new_node host = Some node
    /\ (RnnoiseWorklet.createRnnoiseWorkletNode s ctx host).1.1
       = RnnoiseWorklet.mk ctx (Some node) (Some bytes)
    /\ (RnnoiseWorklet.createRnnoiseWorkletNode s ctx host).1.2
       = init ++ [RnnoiseWorklet.PostMessage node (MsgInit (Some bytes) false)]
    /\ (forall n msg, RnnoiseWorklet.PostMessage n msg ∈ init -> msg = MsgDestroy)
    /\ (bytes = default bytes (RnnoiseWorklet.rnnoiseWasmBuffer s)).
Proof.
  unfold RnnoiseWorklet.createRnnoiseWorkletNode, RnnoiseWorklet.destroy.
  destruct s as [ctx0 [node0|] [buf|]]; cbn -[app];
    repeat case_match; simplify_eq; cbn [fst snd]; intros [= <-];
    eexists _, _; (split; [done|]); (split; [done|]);
    (split; [reflexivity|]); (split; [|done]);
    intros ? msg Hin; in_trace Hin.
Qed.

Lemma wrapper_create_rejected (s : RnnoiseWorklet.t C N B) (ctx : C)
      (host : RnnoiseWorklet.Replies N B) :
  (RnnoiseWorklet.createRnnoiseWorkletNode s ctx host).2 = None ->
  forall n msg,
    RnnoiseWorklet.PostMessage n msg
      ∈ (RnnoiseWorklet.createRnnoiseWorkletNode s ctx host).1.2 ->
    msg = MsgDestroy.
Proof.
  unfold RnnoiseWorklet.createRnnoiseWorkletNode, RnnoiseWorklet.destroy.
  destruct s as [ctx0 [node0|] [buf|]]; cbn;
    repeat case_match; simplify_eq; cbn [fst snd]; intros Hr; try done;
    intros ? msg Hin; in_trace Hin.
Qed.

Lemma wrapper_create_cached (s : RnnoiseWorklet.t C N B) (ctx : C)
      (host : RnnoiseWorklet.Replies N B) (bytes : B) :
  RnnoiseWorklet.rnnoiseWasmBuffer s = Some bytes ->
  (RnnoiseWorklet.Fetch ∉ (RnnoiseWorklet.createRnnoiseWorkletNode s ctx host).1.2)
  /\ RnnoiseWorklet.rnnoiseWasmBuffer
       (RnnoiseWorklet.createRnnoiseWorkletNode s ctx host).1.1 = Some bytes.
Proof.
  unfold RnnoiseWorklet.createRnnoiseWorkletNode, RnnoiseWorklet.destroy.
  destruct s as [ctx0 [node0|] buf]; cbn; intros ->;
    repeat case_match; simplify_eq; cbn [fst snd]; (split; [|done]);
    intros Hin; in_trace Hin.
Qed.

End WrapperProps.

(** X19. The wrapper's [destroy] is idempotent: on a wrapper holding a node
    it disconnects that node and posts it the destroy message, in this
    order and nothing else; a second [destroy] makes no host call; the
    cached wasm bytes survive both. *)
Theorem X19_wrapper_destroy_idempotent :
  forall (C N B : Type) (s : RnnoiseWorklet.t C N B),
    RnnoiseWorklet.destroy (RnnoiseWorklet.destroy s).1
    = ((RnnoiseWorklet.destroy s).1, [])
    /\ RnnoiseWorklet.rnnoiseWorkletNode (RnnoiseWorklet.destroy s).1 = None
    /\ RnnoiseWorklet.rnnoiseWasmBuffer (RnnoiseWorklet.destroy s).1
       = RnnoiseWorklet.rnnoiseWasmBuffer s
    /\ (RnnoiseWorklet.destroy s).2
       = match RnnoiseWorklet.rnnoiseWorkletNode s with
         | Some node => [RnnoiseWorklet.Disconnect node;
                         RnnoiseWorklet.PostMessage node MsgDestroy]
         | None => []
         end.
Proof.
  intros C N B s. split; [apply wrapper_destroy_twice|].
  unfold RnnoiseWorklet.destroy. by destruct s as [ctx [node|] buf].
Qed.

(** X20. A [createRnnoiseWorkletNode] that runs uninterrupted first tears
    down the node the wrapper holds and then loads the processor module.
    When it resolves, the wrapper holds the new node, the given context and
    the wasm bytes, and the last host call posted the init message, with
    these bytes and [debug] false, to the new node; every other message it
    posted is a destroy message, and when it rejects it posted no init at
    all.  Cached bytes are reused: with bytes in the cache it never calls
    [fetch] and keeps them. *)
Theorem X20_wrapper_create_protocol :
  forall (C N B : Type) (s : RnnoiseWorklet.t C N B) (ctx : C)
         (host : RnnoiseWorklet.Replies N B),
    let r := RnnoiseWorklet.createRnnoiseWorkletNode s ctx host in
    (exists rest,
        r.1.2 = (RnnoiseWorklet.destroy s).2 ++ RnnoiseWorklet.AddModule ctx :: rest)
    /\ (forall node,
          r.2 = Some node ->
          exists bytes init,
            RnnoiseWorklet.new_node host = Some node
            /\ r.1.1 = RnnoiseWorklet.mk ctx (Some node) (Some bytes)
            /\ r.1.2 = init ++ [RnnoiseWorklet.PostMessage node
                                  (MsgInit (Some bytes) false)]
            /\ (forall n msg,
                  RnnoiseWorklet.PostMessage n msg ∈ init -> msg = MsgDestroy)
            /\ bytes = default bytes (RnnoiseWorklet.rnnoiseWasmBuffer s))
    /\ (r.2 = None ->
        forall n msg, RnnoiseWorklet.PostMessage n msg ∈ r.1.2 -> msg = MsgDestroy)
    /\ (forall bytes,
          RnnoiseWorklet.rnnoiseWasmBuffer s = Some bytes ->
          (RnnoiseWorklet.Fetch ∉ r.1.2)
          /\ RnnoiseWorklet.rnnoiseWasmBuffer r.1.1 = Some bytes).
Proof.
  intros C N B s ctx host r.
  split; [apply wrapper_create_starts_with_teardown|].
  split; [apply wrapper_create_resolved|].
  split; [apply wrapper_create_rejected|].
  apply wrapper_create_cached.
Qed.

(** ** The wrapper and the processor together *)

Section EndToEnd.

Context {C N B E : Type} `{EqDecision N}.
Variable instantiate : B -> option (ModuleExports * E).
Variable wasm_call_ctors : E -> E * bool.
Variable rnnoise_create : E -> E * option Z.
Variable rnnoise_get_frame_size : E -> E * option nat.
Variable malloc : E -> nat -> E * option Z.
Variable engine : E -> Z -> list float -> E * option ((nat -> float) * float).
Variable rnnoise_destroy : E -> Z -> E.
Variable free : E -> Z -> E.

Local Notation "'init'" :=
  (initRnnoise instantiate wasm_call_ctors rnnoise_create
               rnnoise_get_frame_size malloc).
Local Notation "'run'" :=
  (run_events instantiate wasm_call_ctors rnnoise_create
              rnnoise_get_frame_size malloc engine rnnoise_destroy free).

Lemma wrapper_create_destroy_posts (s : RnnoiseWorklet.t C N B) (ctx : C)
      (host : RnnoiseWorklet.Replies N B) (node : N) :
  (RnnoiseWorklet.createRnnoiseWorkletNode s ctx host).2 = Some node ->
  RnnoiseWorklet.rnnoiseWorkletNode s <> Some node ->
  exists bytes,
    RnnoiseWorklet.posted_to node
      ((RnnoiseWorklet.createRnnoiseWorkletNode s ctx host).1.2
       ++ (RnnoiseWorklet.destroy
             (RnnoiseWorklet.createRnnoiseWorkletNode s ctx host).1.1).2)
    = [MsgInit (Some bytes) false; MsgDestroy].
Proof.
  unfold RnnoiseWorklet.createRnnoiseWorkletNode, RnnoiseWorklet.destroy,
    RnnoiseWorklet.posted_to.
  destruct s as [ctx0 [node0|] [buf|]], host as [[|] [n|] [fetched|]];
    cbn; intros Hr Hfresh; simplify_eq; eexists;
    repeat (case_decide; simplify_eq; cbn); reflexivity.
Qed.

Lemma init_then_destroy (debug : bool) (bytes : B) (p : Processor) (w : Wasm) :
  handles_clear p ->
  exists p' w',
    run [EvMessage (MsgInit (Some bytes) debug); EvMessage MsgDestroy] p w
    = Done (p', w', [])
    /\ handles_clear p'
    /\ lifecycle p' = Destroyed
    /\ calls w' = calls w ++ release_calls (init debug bytes p w).1.1.1.
Proof.
  intros Hclear. cbn [run_events step onmessage].
  pose proof (init_handles_or_exports instantiate wasm_call_ctors rnnoise_create
                rnnoise_get_frame_size malloc debug bytes p w Hclear) as Hheld.
  destruct (init_untouched instantiate wasm_call_ctors rnnoise_create
              rnnoise_get_frame_size malloc debug bytes p w)
    as (_ & _ & _ & _ & _ & _ & _ & Hcalls).
  destruct (init debug bytes p w) as [[[p1 w1] log] err]. cbn [fst snd obind] in *.
  destruct (destroy_releases rnnoise_destroy free p1 w1 Hheld) as [Hc Hh].
  pose proof (destroy_lifecycle rnnoise_destroy free p1 w1) as Hl.
  destruct (destroy rnnoise_destroy free p1 w1) as [p2 w2]. cbn [fst snd obind] in *.
  exists p2, w2. split; [done|]. split; [exact Hh|]. split; [exact Hl|].
  by rewrite Hc, Hcalls.
Qed.

End EndToEnd.

(** X21. The wrapper and the processor together.  After a
    [createRnnoiseWorkletNode] that resolved to a fresh node, followed by the
    wrapper's [destroy], that node was posted exactly the init message and
    then the destroy message.  A newly constructed processor that handles
    these two messages in this order, the first to its end before the
    second, holds no handle afterwards and is destroyed, and the only
    release calls it made are those for the handles the initialization
    stored: whatever the binary and wherever the initialization stopped,
    nothing stays allocated. *)
Theorem X21_create_then_destroy_releases_the_engine :
  forall (C N B E : Type) (eq_dec : EqDecision N)
         (instantiate : B -> option (ModuleExports * E))
         (wasm_call_ctors : E -> E * bool)
         (rnnoise_create : E -> E * option Z)
         (rnnoise_get_frame_size : E -> E * option nat)
         (malloc : E -> nat -> E * option Z)
         (engine : E -> Z -> list float -> E * option ((nat -> float) * float))
         (rnnoise_destroy free : E -> Z -> E)
         (s : RnnoiseWorklet.t C N B) (ctx : C)
         (host : RnnoiseWorklet.Replies N B) (node : N) (w : Wasm),
    let r := RnnoiseWorklet.createRnnoiseWorkletNode s ctx host in
    r.2 = Some node ->
    RnnoiseWorklet.rnnoiseWorkletNode s <> Some node ->
    let msgs :=
      RnnoiseWorklet.posted_to node (r.1.2 ++ (RnnoiseWorklet.destroy r.1.1).2) in
    exists bytes p' w',
      msgs = [MsgInit (Some bytes) false; MsgDestroy]
      /\ run_events instantiate wasm_call_ctors rnnoise_create
                    rnnoise_get_frame_size malloc engine rnnoise_destroy free
                    (map EvMessage msgs) new_processor w
         = Done (p', w', [])
      /\ handles_clear p'
      /\ lifecycle p' = Destroyed
      /\ calls w' = calls w ++
           release_calls
             (initRnnoise instantiate wasm_call_ctors rnnoise_create
                          rnnoise_get_frame_size malloc false bytes
                          new_processor w).1.1.1.
Proof.
  intros C N B E eq_dec instantiate wasm_call_ctors rnnoise_create
    rnnoise_get_frame_size malloc engine rnnoise_destroy free s ctx host node w
    r Hr Hfresh msgs.
  destruct (wrapper_create_destroy_posts s ctx host node Hr Hfresh)
    as (bytes & Hmsgs).
  destruct (init_then_destroy instantiate wasm_call_ctors rnnoise_create
              rnnoise_get_frame_size malloc engine rnnoise_destroy free
              false bytes new_processor w) as (p' & w' & Hrun & Hh & Hl & Hc).
  { by repeat split. }
  exists bytes, p', w'. subst msgs r. rewrite Hmsgs.
  split; [done|]. split; [exact Hrun|]. split; [exact Hh|]. by split.
Qed.

(** ** The further properties at concrete inputs *)

(** X1 on a Ready processor whose engine reported a frame size of 0. *)
Lemma X1_process_returns_or_loops_witness :
  (lifecycle (ready_processor 0) = Ready
   /\ frameSize (ready_processor 0) = 0
   /\ has_input [[[fone]]])
  /\ process failing_engine (ready_processor 0) (mkWasm tt []) [[[fone]]] [[[NaN]]]
     = Diverged.
Proof.
  assert (lifecycle (ready_processor 0) = Ready
          /\ frameSize (ready_processor 0) = 0
          /\ has_input [[[fone]]]) as Hloop.
  { split; [reflexivity|]. split; [reflexivity|]. eexists _, _. reflexivity. }
  split; [exact Hloop|].
  apply (proj2 (X1_process_returns_or_loops unit failing_engine (ready_processor 0)
                  (mkWasm tt []) [[[fone]]] [[[NaN]]])).
  exact Hloop.
Defined.

(** X2 on a Ready callback that extracts one frame of two samples and
    serves it to two destination channels of lengths 3 and 1. *)
Lemma X2_process_keeps_output_shape_witness :
  exists outs p' w',
    process (echo_engine fone) (ready_processor 2) (mkWasm tt [])
            [[[sample 1; sample 2; sample 3]]] [[[NaN; NaN; NaN]; [NaN]]]
    = Done (true, outs, p', w')
    /\ map (map length) outs = [[3; 1]].
Proof.
  assert (exists outs p' w',
            process (echo_engine fone) (ready_processor 2) (mkWasm tt [])
                    [[[sample 1; sample 2; sample 3]]] [[[NaN; NaN; NaN]; [NaN]]]
            = Done (true, outs, p', w')) as (outs & p' & w' & Hrun).
  { eexists _, _, _. vm_compute. reflexivity. }
  exists outs, p', w'. split; [exact Hrun|].
  exact (X2_process_keeps_output_shape unit (echo_engine fone) (ready_processor 2)
           (mkWasm tt []) [[[sample 1; sample 2; sample 3]]]
           [[[NaN; NaN; NaN]; [NaN]]] true outs p' w' Hrun).
Defined.

(** X3 on two channels holding a NaN and an infinity. *)
Lemma X3_mergeChannels_output_is_finite_witness :
  2 <= length [[NaN; PInf]; [fone; NaN]]
  /\ Forall (fun x => isFinite x = true) (mergeChannels [[NaN; PInf]; [fone; NaN]]).
Proof.
  assert (2 <= length [[NaN; PInf]; [fone; NaN]]) as Hlen by (simpl; lia).
  split; [exact Hlen|].
  exact (X3_mergeChannels_output_is_finite [[NaN; PInf]; [fone; NaN]] Hlen).
Defined.

(** X4 on three copies of a channel of two samples. *)
Lemma X4_mergeChannels_of_copies_witness :
  0 < 3
  /\ Forall (fun x => isFinite x = true) [sample 1; sample (-3)]
  /\ mergeChannels (replicate 3 [sample 1; sample (-3)]) = [sample 1; sample (-3)].
Proof.
  assert (Forall (fun x => isFinite x = true) [sample 1; sample (-3)]) as Hfin
    by (repeat constructor).
  split; [lia|]. split; [exact Hfin|].
  apply (X4_mergeChannels_of_copies [sample 1; sample (-3)] 3); [lia|exact Hfin].
Defined.

(** X5 on two channels with a NaN among samples of [-1, 1]. *)
Lemma X5_mergeChannels_stays_in_unit_range_witness :
  2 <= length [[sample 8; NaN]; [sample (-8); sample 4]]
  /\ Forall (Forall (fun x => isFinite x = true -> in_unit x))
            [[sample 8; NaN]; [sample (-8); sample 4]]
  /\ Forall in_unit (mergeChannels [[sample 8; NaN]; [sample (-8); sample 4]]).
Proof.
  assert (Forall (Forall (fun x => isFinite x = true -> in_unit x))
                 [[sample 8; NaN]; [sample (-8); sample 4]]) as Hall.
  { repeat constructor;
      first [ intros _; eexists; split; [reflexivity|]; split; by_eval
            | intros Hfin; discriminate Hfin ]. }
  assert (2 <= length [[sample 8; NaN]; [sample (-8); sample 4]]) as Hlen
    by (simpl; lia).
  split; [exact Hlen|]. split; [exact Hall|].
  exact (X5_mergeChannels_stays_in_unit_range _ Hlen Hall).
Defined.

(** X6 on a frame shorter than the engine's frame size. *)
Lemma X6_processFrame_result_shape_and_range_witness :
  initialized (ready_processor 2) = true
  /\ exists processedFrame vad w',
       processFrame (echo_engine fone) (ready_processor 2) (mkWasm tt []) [sample 4]
       = Done (processedFrame, vad, w')
       /\ length processedFrame = 2
       /\ calls w' = [CallProcessFrame 1 16 8
                        (map toEngineDomain [sample 4; fzero])]
       /\ vad = fone.
Proof.
  split; [reflexivity|].
  destruct (X6_processFrame_result_shape_and_range unit (echo_engine fone)
              (ready_processor 2) (mkWasm tt []) [sample 4] eq_refl)
    as (processedFrame & vad & w' & Hrun & Hlen & Hcalls & Hrange).
  exists processedFrame, vad, w'.
  split; [exact Hrun|]. split; [exact Hlen|]. split; [exact Hcalls|].
  exact (proj1 (Hrange _ _ eq_refl)).
Defined.

(** X7 on seven scores pushed into the empty window. *)
Lemma X7_vad_window_is_last_five_witness :
  length (vadHistory new_processor) <= 5
  /\ vadHistory (feed_vads [sample 1; sample 2; sample 3; sample 4; sample 5;
                            sample 6; sample 7] new_processor)
     = [sample 3; sample 4; sample 5; sample 6; sample 7].
Proof.
  assert (length (vadHistory new_processor) <= 5) as Hlen by (simpl; lia).
  split; [exact Hlen|].
  exact (proj1 (X7_vad_window_is_last_five
                  [sample 1; sample 2; sample 3; sample 4; sample 5;
                   sample 6; sample 7] new_processor Hlen)).
Defined.

(** X8 on two frames of silence (a VAD score of 0 against the threshold
    0.1) with [maxSilenceFrames = 2]: both are kept. *)
Lemma X8_no_drop_within_maxSilenceFrames_witness :
  lifecycle (gated_processor []) = Ready
  /\ has_input [[[sample 1; sample 2]]]
  /\ exists p' w',
       process (echo_engine fzero) (gated_processor []) (mkWasm tt [])
               [[[sample 1; sample 2]]] [[[NaN; NaN; NaN]]]
       = Done (true, [[[sample 1; sample 2; NaN]]], p', w')
       /\ inputBuffer p' = []
       /\ outputBuffer p' = [].
Proof.
  assert (has_input [[[sample 1; sample 2]]]) as Hin
    by (eexists _, _; reflexivity).
  split; [reflexivity|]. split; [exact Hin|].
  destruct (X8_no_drop_within_maxSilenceFrames unit (echo_engine fzero)
              (gated_processor []) (mkWasm tt [])
              [[[sample 1; sample 2]]] [[[NaN; NaN; NaN]]])
    as (outs & p' & w' & frames & Hrun & Hsplit & Hframes & Hrest & Hout).
  - reflexivity.
  - simpl; lia.
  - exact Hin.
  - vm_compute; lia.
  - exists p', w'.
    assert (process (echo_engine fzero) (gated_processor []) (mkWasm tt [])
                    [[[sample 1; sample 2]]] [[[NaN; NaN; NaN]]]
            = Done (true, [[[sample 1; sample 2; NaN]]],
                    set_silenceCounter 2
                      (set_vadHistory [fzero; fzero] (gated_processor [])),
                    mkWasm tt (calls w'))) as Hval.
    { rewrite Hrun. vm_compute in Hrun. injection Hrun as <- <- <-. by_eval. }
    rewrite Hrun in Hval. injection Hval as -> -> _.
    split; [exact Hrun|]. split; reflexivity.
Defined.

(** X9 on three samples through an echoing engine of frame size 2: one
    frame is served, the third sample stays queued. *)
Lemma X9_pipeline_is_transparent_for_an_echoing_engine_witness :
  echoes (echo_engine fone)
  /\ Forall in_unit [sample 1; sample 2; sample 3]
  /\ exists p' w',
       process (echo_engine fone) (ready_processor 2) (mkWasm tt [])
               [[[sample 1; sample 2; sample 3]]] [[[NaN; NaN; NaN]]]
       = Done (true, [[[sample 1; sample 2; NaN]]], p', w')
       /\ outputBuffer p' = []
       /\ inputBuffer p' = [sample 3].
Proof.
  assert (echoes (echo_engine fone)) as Hecho
    by (intros e st pcm; eexists _, _; reflexivity).
  assert (Forall in_unit [sample 1; sample 2; sample 3]) as Hunit
    by (repeat (apply Forall_cons;
                  [eexists; split; [reflexivity|]; split; by_eval|]);
        apply Forall_nil).
  split; [exact Hecho|]. split; [exact Hunit|].
  destruct (X9_pipeline_is_transparent_for_an_echoing_engine unit (echo_engine fone)
              (ready_processor 2) (mkWasm tt [])
              [[[sample 1; sample 2; sample 3]]] [[[NaN; NaN; NaN]]])
    as (p' & w' & Hrun & Hob & Hib & _).
  - reflexivity.
  - simpl; lia.
  - eexists _, _; reflexivity.
  - exact Hecho.
  - exact Hunit.
  - vm_compute; lia.
  - exists p', w'. split; [exact Hrun|]. split; [exact Hob|exact Hib].
Defined.

(** X10 on a frame for which the engine reports NaN, with
    [maxSilenceFrames = 0]. *)
Lemma X10_frame_with_voice_is_kept_witness :
  initialized (set_maxSilenceFrames 0 (gated_processor [sample 1])) = true
  /\ frameSize (set_maxSilenceFrames 0 (gated_processor [sample 1]))
     <= length (inputBuffer (set_maxSilenceFrames 0 (gated_processor [sample 1])))
  /\ exists p' w',
       process_one_frame (echo_engine NaN)
         (set_maxSilenceFrames 0 (gated_processor [sample 1])) (mkWasm tt [])
       = Done (p', w')
       /\ silenceCounter p' = 0
       /\ outputBuffer p' = [sample 1].
Proof.
  assert (frameSize (set_maxSilenceFrames 0 (gated_processor [sample 1]))
          <= length (inputBuffer (set_maxSilenceFrames 0 (gated_processor [sample 1]))))
    as Hlen by (simpl; lia).
  split; [reflexivity|]. split; [exact Hlen|].
  destruct (X10_frame_with_voice_is_kept unit (echo_engine NaN)
              (set_maxSilenceFrames 0 (gated_processor [sample 1])) (mkWasm tt [])
              eq_refl Hlen)
    as (p' & w' & processedFrame & vad & Hone & Hframe & _ & Hnan).
  assert (processFrame (echo_engine NaN)
            (set_maxSilenceFrames 0 (gated_processor [sample 1])) (mkWasm tt [])
            [sample 1]
          = Done ([sample 1], NaN, w')) as Hval.
  { change (processFrame (echo_engine NaN)
              (set_maxSilenceFrames 0 (gated_processor [sample 1])) (mkWasm tt [])
              [sample 1] = Done (processedFrame, vad, w')) in Hframe.
    rewrite Hframe. vm_compute in Hframe. injection Hframe as <- <- <-. by_eval. }
  change (processFrame (echo_engine NaN)
            (set_maxSilenceFrames 0 (gated_processor [sample 1])) (mkWasm tt [])
            [sample 1] = Done (processedFrame, vad, w')) in Hframe.
  rewrite Hframe in Hval. injection Hval as -> ->.
  exists p', w'. split; [exact Hone|]. exact (Hnan eq_refl).
Defined.

(** X12 on a processor that passed the checks and holds a state handle
    and one scratch pointer. *)
Lemma X12_destroy_releases_held_handles_only_witness :
  rnnoiseModule (set_pcmOutputBuf 0%Z (ready_processor 2)) = Some ready_exports
  /\ calls (destroy engine_release engine_release
                    (set_pcmOutputBuf 0%Z (ready_processor 2)) (mkWasm tt [])).2
     = [CallDestroy 1; CallFree 8]
  /\ handles_clear (destroy engine_release engine_release
                            (set_pcmOutputBuf 0%Z (ready_processor 2))
                            (mkWasm tt [])).1.
Proof.
  split; [reflexivity|].
  exact (proj2 (X12_destroy_releases_held_handles_only unit engine_release
                  engine_release (set_pcmOutputBuf 0%Z (ready_processor 2))
                  (mkWasm tt [])) eq_refl).
Defined.

(** X13 on an initialization whose second [malloc] traps: the state handle
    and the input region are stored, the adapter stays uninitialized, and
    the callback copies its input. *)
Lemma X13_failed_init_falls_back_to_passthrough_witness :
  let r := initRnnoise heap_instantiate heap_ctors heap_create
                       (heap_frame_size 480) (heap_malloc 4096) false
                       (Some full_exports) new_processor (mkWasm 0%Z []) in
  handles_clear new_processor
  /\ r.2 = true
  /\ initialized r.1.1.1 = false
  /\ process heap_engine r.1.1.1 r.1.1.2 [[[fone; fminus_one]]] [[[NaN; NaN; NaN]]]
     = Done (true, [[[fone; fminus_one; NaN]]], r.1.1.1, r.1.1.2).
Proof.
  intros r.
  assert (handles_clear new_processor) as Hclear by (by repeat split).
  assert (r.2 = true) as Herr by reflexivity.
  split; [exact Hclear|]. split; [exact Herr|].
  exact (X13_failed_init_falls_back_to_passthrough Z (option ModuleExports)
           heap_instantiate heap_ctors heap_create (heap_frame_size 480)
           (heap_malloc 4096) heap_engine false (Some full_exports) new_processor
           (mkWasm 0%Z []) [[[fone; fminus_one]]] [[[NaN; NaN; NaN]]]
           Hclear eq_refl Herr).
Defined.

(** X14 on an initialization that succeeds with a frame size of 480. *)
Lemma X14_successful_init_calls_witness :
  let r := initRnnoise heap_instantiate heap_ctors heap_create
                       (heap_frame_size 480) (heap_malloc 65536) false
                       (Some full_exports) new_processor (mkWasm 0%Z []) in
  handles_clear new_processor
  /\ initialized r.1.1.1 = true
  /\ r.2 = false
  /\ rnnoiseModule r.1.1.1 = Some ready_exports
  /\ exists ctors,
       (ctors = [] \/ ctors = [CallCtors])
       /\ r.1.2 = ctors ++ [CallCreate; CallGetFrameSize;
                            CallMalloc 1920; CallMalloc 1920].
Proof.
  intros r.
  assert (handles_clear new_processor) as Hclear by (by repeat split).
  assert (initialized r.1.1.1 = true) as Hinit by reflexivity.
  split; [exact Hclear|]. split; [exact Hinit|].
  exact (X14_successful_init_calls Z (option ModuleExports)
           heap_instantiate heap_ctors heap_create (heap_frame_size 480)
           (heap_malloc 65536) false (Some full_exports) new_processor
           (mkWasm 0%Z []) Hclear Hinit).
Defined.

(** X15 on a binary that does not instantiate and on one whose exports
    lack [rnnoise_destroy]. *)
Lemma X15_init_checks_exports_before_calling_witness :
  (heap_instantiate None = None
   /\ initRnnoise heap_instantiate heap_ctors heap_create (heap_frame_size 480)
                  (heap_malloc 65536) false None new_processor (mkWasm 0%Z [])
      = (new_processor, mkWasm 0%Z [], [], true))
  /\ (required_functions exports_without_destroy = false
      /\ let r := initRnnoise heap_instantiate heap_ctors heap_create
                              (heap_frame_size 480) (heap_malloc 65536) false
                              (Some exports_without_destroy) new_processor
                              (mkWasm 0%Z []) in
         r.1.2 = [] /\ r.2 = true /\ instance r.1.1.2 = 1024%Z
         /\ state r.1.1.1 = 0%Z).
Proof.
  split.
  - split; [reflexivity|].
    exact (proj1 (X15_init_checks_exports_before_calling Z (option ModuleExports)
                    heap_instantiate heap_ctors heap_create (heap_frame_size 480)
                    (heap_malloc 65536) false None new_processor (mkWasm 0%Z []))
                 eq_refl).
  - split; [reflexivity|]. intros r.
    destruct (proj2 (X15_init_checks_exports_before_calling Z (option ModuleExports)
                       heap_instantiate heap_ctors heap_create (heap_frame_size 480)
                       (heap_malloc 65536) false (Some exports_without_destroy)
                       new_processor (mkWasm 0%Z []))
                    exports_without_destroy 1024%Z eq_refl eq_refl)
      as (Hlog & Herr & Hinst & Hst & _).
    split; [exact Hlog|]. split; [exact Herr|]. split; [exact Hinst|exact Hst].
Defined.

(** X16 on an initialization whose second [malloc] traps: teardown
    releases the state and the one region that was allocated. *)
Lemma X16_destroy_after_init_leaves_no_handle_witness :
  let r := initRnnoise heap_instantiate heap_ctors heap_create
                       (heap_frame_size 480) (heap_malloc 4096) false
                       (Some full_exports) new_processor (mkWasm 0%Z []) in
  let d := destroy heap_release heap_release r.1.1.1 r.1.1.2 in
  handles_clear new_processor
  /\ calls d.2 = [CallDestroy 1024; CallFree 1088]
  /\ handles_clear d.1
  /\ lifecycle d.1 = Destroyed.
Proof.
  intros r d.
  assert (handles_clear new_processor) as Hclear by (by repeat split).
  split; [exact Hclear|].
  exact (X16_destroy_after_init_leaves_no_handle Z (option ModuleExports)
           heap_instantiate heap_ctors heap_create (heap_frame_size 480)
           (heap_malloc 4096) heap_release heap_release false (Some full_exports)
           new_processor (mkWasm 0%Z []) Hclear).
Defined.

(** X17 on a destroyed processor that receives a new init, a parameter
    change and two render callbacks. *)
Lemma X17_destroyed_is_terminal_witness :
  isDestroy (set_isDestroy true new_processor) = true
  /\ exists p' w',
       run_events heap_instantiate heap_ctors heap_create (heap_frame_size 480)
                  (heap_malloc 65536) heap_engine heap_release heap_release
                  [EvMessage (MsgInit (Some (Some full_exports)) false);
                   EvProcess [[[fone]]] [[[NaN]]];
                   EvMessage (MsgSetMaxSilenceFrames 3);
                   EvProcess [] [[[fzero]]]]
                  (set_isDestroy true new_processor) (mkWasm 0%Z [])
       = Done (p', w', [(false, [[[NaN]]]); (false, [[[fzero]]])])
       /\ isDestroy p' = true
       /\ engine_frames (calls w') = [].
Proof.
  split; [reflexivity|].
  exact (X17_destroyed_is_terminal Z (option ModuleExports)
           heap_instantiate heap_ctors heap_create (heap_frame_size 480)
           (heap_malloc 65536) heap_engine heap_release heap_release
           [EvMessage (MsgInit (Some (Some full_exports)) false);
            EvProcess [[[fone]]] [[[NaN]]];
            EvMessage (MsgSetMaxSilenceFrames 3);
            EvProcess [] [[[fzero]]]]
           (set_isDestroy true new_processor) (mkWasm 0%Z []) eq_refl).
Defined.

(** X20 on a wrapper that holds node 1 and cached bytes, asked for a node
    on context 5, where the host builds node 2; and on a wrapper without
    cached bytes whose fetch fails. *)
Lemma X20_wrapper_create_protocol_witness :
  (let r := RnnoiseWorklet.createRnnoiseWorkletNode
              (RnnoiseWorklet.mk 0 (Some 1) (Some 7)) 5
              (RnnoiseWorklet.mkReplies true (Some 2) None) in
   r.2 = Some 2
   /\ (exists bytes init,
         r.1.1 = RnnoiseWorklet.mk 5 (Some 2) (Some bytes)
         /\ r.1.2 = init ++ [RnnoiseWorklet.PostMessage 2 (MsgInit (Some bytes) false)]
         /\ bytes = 7)
   /\ (RnnoiseWorklet.Fetch ∉ r.1.2))
  /\ (let r := RnnoiseWorklet.createRnnoiseWorkletNode
                 (RnnoiseWorklet.mk 0 (Some 1) (None : option nat)) 5
                 (RnnoiseWorklet.mkReplies true (Some 2) None) in
      r.2 = None
      /\ forall n msg, RnnoiseWorklet.PostMessage n msg ∈ r.1.2 -> msg = MsgDestroy).
Proof.
  split.
  - intros r.
    destruct (X20_wrapper_create_protocol nat nat nat
                (RnnoiseWorklet.mk 0 (Some 1) (Some 7)) 5
                (RnnoiseWorklet.mkReplies true (Some 2) None))
      as (_ & Hresolved & _ & Hcached).
    split; [reflexivity|]. split.
    + destruct (Hresolved 2 eq_refl) as (bytes & init & _ & Hs & Htrace & _ & Hb).
      exists bytes, init. split; [exact Hs|]. split; [exact Htrace|exact Hb].
    + exact (proj1 (Hcached 7 eq_refl)).
  - intros r.
    destruct (X20_wrapper_create_protocol nat nat nat
                (RnnoiseWorklet.mk 0 (Some 1) None) 5
                (RnnoiseWorklet.mkReplies true (Some 2) None))
      as (_ & _ & Hrejected & _).
    split; [reflexivity|]. exact (Hrejected eq_refl).
Defined.

(** X21 on a wrapper that replaces node 1 by node 2 and is then destroyed,
    with a binary that initializes with a frame size of 480. *)
Lemma X21_create_then_destroy_releases_the_engine_witness :
  let s := RnnoiseWorklet.mk 0 (Some 1) None in
  let host := RnnoiseWorklet.mkReplies true (Some 2) (Some (Some full_exports)) in
  let r := RnnoiseWorklet.createRnnoiseWorkletNode s 5 host in
  r.2 = Some 2
  /\ RnnoiseWorklet.rnnoiseWorkletNode s <> Some 2
  /\ exists p' w',
       run_events heap_instantiate heap_ctors heap_create (heap_frame_size 480)
                  (heap_malloc 65536) heap_engine heap_release heap_release
                  (map EvMessage
                     (RnnoiseWorklet.posted_to 2
                        (r.1.2 ++ (RnnoiseWorklet.destroy r.1.1).2)))
                  new_processor (mkWasm 0%Z [])
       = Done (p', w', [])
       /\ handles_clear p'
       /\ lifecycle p' = Destroyed
       /\ calls w' = [CallDestroy 1024; CallFree 1088; CallFree 3008].
Proof.
  intros s host r.
  assert (RnnoiseWorklet.rnnoiseWorkletNode s <> Some 2) as Hfresh
    by (intros Heq; discriminate Heq).
  split; [reflexivity|]. split; [exact Hfresh|].
  destruct (X21_create_then_destroy_releases_the_engine nat nat
              (option ModuleExports) Z _
              heap_instantiate heap_ctors heap_create (heap_frame_size 480)
              (heap_malloc 65536) heap_engine heap_release heap_release
              s 5 host 2 (mkWasm 0%Z []) eq_refl Hfresh)
    as (bytes & p' & w' & Hmsgs & Hrun & Hclear & Hl & Hcalls).
  vm_compute in Hmsgs. injection Hmsgs as <-.
  exists p', w'. split; [exact Hrun|]. split; [exact Hclear|].
  split; [exact Hl|exact Hcalls].
Defined.
